(** * h265_image_transport: the publisher's encode-and-frame path

    A shallow embedding of [H265Publisher::publish]
    (src/h265_image_transport/src/h265_publisher.cpp) and the properties of
    its lazy configuration, its submit/drain protocol and its packet
    envelope.

    The libav functions the publisher calls (avcodec_open2,
    avcodec_send_frame, avcodec_receive_packet, av_pix_fmt_desc_get, ...)
    are not part of the repository: they are taken as an interface
    ([Libav]) and every theorem is stated for an arbitrary implementation
    of it.  Pixel planes are not modelled: no property below speaks about
    picture content. *)

From Stdlib Require Import String ZArith List Bool Lia.
From Stdlib Require Import Strings.Byte.
From Stdlib Require Import Strings.Ascii.
Import ListNotations.
Open Scope Z_scope.

Set Implicit Arguments.

(** ** Machine integers and bytes *)

Module Int.

Definition INT_MAX : Z := 2147483647.
Definition INT64_MAX : Z := 9223372036854775807.
Definition INT64_MIN : Z := - 9223372036854775808.

(** Conversion to a 32-bit [int] (two's complement wrap-around). *)
Definition to_int (z : Z) : Z := (z + 2 ^ 31) mod 2 ^ 32 - 2 ^ 31.

(** Conversion to [int64_t]. *)
Definition to_int64 (z : Z) : Z := (z + 2 ^ 63) mod 2 ^ 64 - 2 ^ 63.

Definition is_int (z : Z) : Prop := - 2 ^ 31 <= z < 2 ^ 31.
Definition is_int64 (z : Z) : Prop := - 2 ^ 63 <= z < 2 ^ 63.

End Int.

Module Bytes.

Definition byte_of_Z (z : Z) : byte :=
  match Byte.of_N (Z.to_N (z mod 256)) with
  | Some b => b
  | None => x00
  end.

(** The object representation of an integer on the little-endian
    targets the plugin is built for: [n] bytes, least significant first;
    this is what [memcpy(dst, &field, n)] reads. *)
Definition le_bytes (n : nat) (z : Z) : list byte :=
  map (fun i => byte_of_Z (Z.shiftr z (8 * Z.of_nat i))) (seq 0 n).

Definition of_int (z : Z) : list byte := le_bytes 4 z.
Definition of_int64 (z : Z) : list byte := le_bytes 8 z.

End Bytes.

(** ** Memory

    Pointers are addresses; the bytes behind them are read from the
    process memory. *)

Definition Mem : Type := Z -> byte.

(** The [n] bytes at [addr], for a length [n].  A negative [n] is not a
    length: a [memcpy] of a negative size never gets as far as reading
    (see [Envelope.copies_ok]), and [load] has nothing to read then. *)
Definition load (m : Mem) (addr : Z) (n : Z) : list byte :=
  map (fun i => m (addr + Z.of_nat i)) (seq 0 (Z.to_nat n)).

(** ** libavcodec's packet types, as far as the publisher reads them *)

Record AVBufferRef : Type := {
  buffer_data : Z;          (* uint8_t *data *)
  buffer_size : Z           (* size of data in bytes *)
}.

(** An element [side_data[i]] of the packet's side-data array.  The
    element is an lvalue: next to the values of its members the model
    keeps [sd_data_ref], the address of the member [data] itself
    ([&side_data[i].data]). *)
Record AVPacketSideData : Type := {
  sd_data : Z;              (* uint8_t *data *)
  sd_size : Z;
  sd_type : Z;              (* enum AVPacketSideDataType *)
  sd_data_ref : Z           (* &side_data[i].data *)
}.

(** [buf] may be null (the source tests it at line 277).  [side_data] is
    the array the member points to; libavcodec keeps [side_data_elems]
    equal to its number of elements.  [data_ref] is the address of the
    member [data] ([&avPacket->data]). *)
Record AVPacket : Type := {
  buf : option AVBufferRef;
  pts : Z;
  dts : Z;
  data : Z;                 (* uint8_t *data *)
  size : Z;
  stream_index : Z;
  flags : Z;
  side_data : list AVPacketSideData;
  duration : Z;
  pos : Z;
  data_ref : Z              (* &avPacket->data *)
}.

Definition side_data_elems (p : AVPacket) : Z :=
  Z.of_nat (length (side_data p)).

(** ** The envelope writer (publish, lines 309-380) *)

Module Envelope.

(** [compressed.data] with the cursor [index_data_compressed].
    [overrun] records that some [memcpy] ran past the end of the vector
    (the bytes that fall outside do not land in the vector). *)
Record Writer : Type := {
  compressed_data : list byte;
  index_data_compressed : Z;
  overrun : bool
}.

(** [compressed.data.resize(size_data)] on the fresh message. *)
Definition resize (size_data : Z) : Writer :=
  {| compressed_data := repeat x00 (Z.to_nat size_data);
     index_data_compressed := 0;
     overrun := false |}.

(** The bytes of [dst] after [memcpy(&dst[at], src, |src|)]. *)
Definition blit (dst : list byte) (at_ : nat) (src : list byte) : list byte :=
  firstn at_ dst
    ++ firstn (length dst - at_) src
    ++ skipn (at_ + length src) dst.

(** [memcpy(&compressed.data[index_data_compressed], src, n)] where
    [src] holds the [n] bytes read. *)
Definition memcpy (src : list byte) (w : Writer) : Writer :=
  let i := index_data_compressed w in
  {| compressed_data := blit (compressed_data w) (Z.to_nat i) src;
     index_data_compressed := i;
     overrun :=
       overrun w
       || (negb (length src =? 0)%nat
           && ((i <? 0)
               || (Z.of_nat (length (compressed_data w))
                   <? i + Z.of_nat (length src)))) |}.

(** [index_data_compressed += n]. *)
Definition advance (n : Z) (w : Writer) : Writer :=
  {| compressed_data := compressed_data w;
     index_data_compressed := Int.to_int (index_data_compressed w + n);
     overrun := overrun w |}.

Definition sizeof_int : Z := 4.
Definition sizeof_int64 : Z := 8.

(** Lines 311-316. *)
Definition size_data (b : AVBufferRef) (p : AVPacket) : Z :=
  fold_left
    (fun acc sd => Int.to_int (acc + (sd_size sd + sizeof_int + sizeof_int)))
    (side_data p)
    (Int.to_int
       (4 + buffer_size b + 8 + 8 + size p + 4 + 4 + 4
        + side_data_elems p + 8 + 8)).

(** One turn of the loop of lines 361-373. *)
Definition write_side_data (m : Mem) (w : Writer) (sd : AVPacketSideData)
  : Writer :=
  let w := memcpy (Bytes.of_int (sd_size sd)) w in
  let w := advance sizeof_int w in
  let w := memcpy (Bytes.of_int (sd_type sd)) w in
  let w := advance sizeof_int w in
  let w := memcpy (load m (sd_data_ref sd) (sd_size sd)) w in
  advance (sd_size sd) w.

(** Lines 318-380, for a packet whose [buf] is [b]. *)
Definition write_packet (m : Mem) (b : AVBufferRef) (p : AVPacket)
  : Writer :=
  let w := resize (size_data b p) in
  let w := memcpy (Bytes.of_int (buffer_size b)) w in
  let w := advance sizeof_int w in
  let w := memcpy (load m (buffer_data b) (buffer_size b)) w in
  let w := advance (buffer_size b) w in
  let w := memcpy (Bytes.of_int (size p)) w in
  let w := advance sizeof_int w in
  let w := memcpy (load m (data_ref p) (size p)) w in
  let w := advance (size p) w in
  let w := memcpy (Bytes.of_int64 (pts p)) w in
  let w := advance sizeof_int64 w in
  let w := memcpy (Bytes.of_int64 (dts p)) w in
  let w := advance sizeof_int64 w in
  let w := memcpy (Bytes.of_int (stream_index p)) w in
  let w := advance sizeof_int w in
  let w := memcpy (Bytes.of_int (flags p)) w in
  let w := advance sizeof_int w in
  let w := memcpy (Bytes.of_int (side_data_elems p)) w in
  let w := advance sizeof_int w in
  let w := fold_left (write_side_data m) (side_data p) w in
  let w := memcpy (Bytes.of_int64 (duration p)) w in
  let w := advance sizeof_int64 w in
  let w := memcpy (Bytes.of_int64 (pos p)) w in
  advance sizeof_int64 w.

(** The sizes handed to the copies of lines 325, 333 and 371 are
    lengths.  [memcpy] takes a [size_t]: a negative size arrives as a
    number of bytes beyond any object, and the copy runs off the mapped
    memory. *)
Definition copies_ok (b : AVBufferRef) (p : AVPacket) : bool :=
  (0 <=? buffer_size b)
  && (0 <=? size p)
  && forallb (fun sd => 0 <=? sd_size sd) (side_data p).

(** How lines 311-380 end for a received packet: with the envelope
    written; with [std::length_error], which [resize] throws when
    [size_data] is negative (it arrives as a [size_t] beyond
    [max_size]); or with the process dead, on the null [buf] that line
    311 dereferences or in a copy of negative size. *)
Inductive Outcome : Type :=
| Written (w : Writer)
| LengthError
| Crashed.

Definition outcome (m : Mem) (p : AVPacket) : Outcome :=
  match buf p with
  | None => Crashed
  | Some b =>
      if size_data b p <? 0 then LengthError
      else if copies_ok b p then Written (write_packet m b p)
      else Crashed
  end.

(** The envelope of a received packet, when one is written. *)
Definition serialize (m : Mem) (p : AVPacket) : option Writer :=
  match outcome m p with
  | Written w => Some w
  | LengthError | Crashed => None
  end.

End Envelope.

(** ** Timestamps: libavutil's rescaling

    [av_rescale_q] belongs to libavutil, not to the repository.  It is
    modelled after libavutil's mathematics.c: [av_rescale_q a bq cq] is
    [av_rescale_rnd a (bq.num * cq.den) (cq.num * bq.den)
    AV_ROUND_NEAR_INF], which computes [a * b / c] rounded to nearest,
    halfway cases away from zero, and answers [INT64_MIN] when [c <= 0],
    [b < 0] or the result does not fit. *)

Record AVRational : Type := { num : Z; den : Z }.

Module Rescale.

Definition AV_NOPTS_VALUE : Z := Int.INT64_MIN.
Definition AV_ROUND_NEAR_INF : Z := 5.

(** The rounding term [r] for a non-negative operand. *)
Definition round_term (c rnd : Z) : Z :=
  if rnd =? AV_ROUND_NEAR_INF then Z.quot c 2
  else if Z.odd rnd then c - 1
  else 0.

(** [av_rescale_rnd] for [0 <= a]. *)
Definition rescale_nonneg (a b c rnd : Z) : Z :=
  let r := round_term c rnd in
  if (b <=? Int.INT_MAX) && (c <=? Int.INT_MAX) then
    if a <=? Int.INT_MAX then Z.quot (a * b + r) c
    else
      let ad := Z.quot a c in
      let a2 := Z.quot (Z.rem a c * b + r) c in
      if (ad >=? Int.INT_MAX) && negb (b =? 0)
         && (ad >? Z.quot (Int.INT64_MAX - a2) b)
      then Int.INT64_MIN
      else ad * b + a2
  else
    let t := Z.quot (a * b + r) c in
    if t >? Int.INT64_MAX then Int.INT64_MIN else t.

Definition av_rescale_rnd (a b c rnd : Z) : Z :=
  if (c <=? 0) || (b <? 0) then Int.INT64_MIN
  else if a <? 0 then
    Int.to_int64
      (- rescale_nonneg (- Z.max a (- Int.INT64_MAX)) b c
           (Z.lxor rnd (Z.land (Z.shiftr rnd 1) 1)))
  else rescale_nonneg a b c rnd.

Definition av_rescale_q (a : Z) (bq cq : AVRational) : Z :=
  let b := Int.to_int64 (num bq * den cq) in
  let c := Int.to_int64 (num cq * den bq) in
  av_rescale_rnd a b c AV_ROUND_NEAR_INF.

(** Lines 290-304: the guarded rescale of one timestamp from the
    context's time base to the same time base. *)
Definition scale_timestamp (time_base : AVRational) (ts : Z) : Z :=
  if negb (ts =? AV_NOPTS_VALUE)
  then av_rescale_q ts time_base time_base
  else ts.

End Rescale.

(** The packet after lines 290-304. *)
Definition rescale_packet (time_base : AVRational) (p : AVPacket) : AVPacket :=
  {| buf := buf p;
     pts := Rescale.scale_timestamp time_base (pts p);
     dts := Rescale.scale_timestamp time_base (dts p);
     data := data p;
     size := size p;
     stream_index := stream_index p;
     flags := flags p;
     side_data := side_data p;
     duration := duration p;
     pos := pos p;
     data_ref := data_ref p |}.

(** ** The codec context, frames and messages *)

Inductive AVPixelFormat : Type :=
| AV_PIX_FMT_NONE
| AV_PIX_FMT_YUV420P
| AV_PIX_FMT_RGB24
| AV_PIX_FMT_RGB0.

Inductive AVMediaType : Type :=
| AVMEDIA_TYPE_UNKNOWN
| AVMEDIA_TYPE_VIDEO.

(** The members of [AVCodecContext] the publisher sets.  [priv_data]
    holds the encoder's private options as [av_opt_set] leaves them. *)
Record AVCodecContext : Type := {
  height : Z;
  width : Z;
  pix_fmt : AVPixelFormat;
  codec_type : AVMediaType;
  time_base : AVRational;
  framerate : AVRational;
  gop_size : Z;
  thread_count : Z;
  max_b_frames : Z;
  sw_pix_fmt : AVPixelFormat;
  refs : Z;
  priv_data : list (string * string)
}.

Definition av_opt_set (obj : list (string * string)) (name val : string)
  : list (string * string) :=
  (name, val) :: filter (fun kv => negb (String.eqb (fst kv) name)) obj.

Fixpoint av_opt_get (obj : list (string * string)) (name : string)
  : option string :=
  match obj with
  | [] => None
  | (k, v) :: obj' => if String.eqb k name then Some v else av_opt_get obj' name
  end.

Module Frame.
Record AVFrame : Type := {
  width : Z;
  height : Z;
  format : AVPixelFormat;
  pts : Z
}.

Definition set_pts (f : AVFrame) (t : Z) : AVFrame :=
  {| width := width f; height := height f; format := format f; pts := t |}.
End Frame.

Record SwsContext : Type := {
  srcW : Z; srcH : Z; srcFormat : AVPixelFormat;
  dstW : Z; dstH : Z; dstFormat : AVPixelFormat
}.

Module Msg.
(** sensor_msgs::msg::Image; [height] and [width] are [uint32]. *)
Record Image : Type := {
  header : string;
  height : Z;
  width : Z;
  data : list byte
}.

(** sensor_msgs::msg::CompressedImage. *)
Record CompressedImage : Type := {
  c_header : string;
  c_format : string;
  c_data : list byte
}.
End Msg.

(** ** The library interface

    [Enc] is the state the library calls go through: the encoder behind
    [context_] and the allocator; [memory] is the process memory as that
    state leaves it (packet buffers are owned by the encoder).
    [av_frame_alloc] and [sws_getContext] tell whether they returned an
    object ([false]: the null pointer).  [publish_fn] is the function
    handed to [publish]; it belongs to the caller, and tells whether it
    returns ([true]) or throws for a message. *)
Record Libav : Type := {
  Enc : Type;
  AVPixFmtDescriptor : Type;
  av_pix_fmt_desc_get : AVPixelFormat -> option AVPixFmtDescriptor;
  av_get_bits_per_pixel : AVPixFmtDescriptor -> Z;
  avcodec_open2 : Enc -> AVCodecContext -> Enc * Z;
  av_frame_alloc : Enc -> Enc * bool;
  sws_getContext : Enc -> SwsContext -> Enc * bool;
  avcodec_send_frame : Enc -> Frame.AVFrame -> Enc * Z;
  avcodec_receive_packet : Enc -> Enc * Z * AVPacket;
  memory : Enc -> Mem;
  publish_fn : Msg.CompressedImage -> bool
}.

(** ** What [avcodec_open2] writes

    Line 169 hands [context_] to [avcodec_open2] as a pointer, and the
    library writes through it.  Of the members modelled here it writes
    the picture size: libavcodec checks it with libavutil's
    [av_image_check_size2] and replaces a size it finds invalid by
    0 x 0 ("Ignoring invalid width/height values", [ff_set_dimensions]);
    a valid size and the other members are left as they are.  Both
    functions belong to FFmpeg, not to the repository; they are modelled
    after libavutil's imgutils.c and libavcodec's utils.c. *)

(** [av_image_check_size2 w h INT_MAX AV_PIX_FMT_NONE]: the parameters
    are [unsigned int], the line size is taken as [8 * w] plus padding. *)
Definition av_image_check_size2 (w h : Z) : bool :=
  let w := w mod 2 ^ 32 in
  let h := h mod 2 ^ 32 in
  let stride := 8 * w + 128 * 8 in
  negb ((w =? 0) || (h =? 0)
        || (w >? Int.INT_MAX) || (h >? Int.INT_MAX)
        || (stride >=? Int.INT_MAX)
        || (stride * (h + 128) >=? Int.INT_MAX)).

(** The context as [avcodec_open2] leaves it. *)
Definition ff_set_dimensions (c : AVCodecContext) : AVCodecContext :=
  if av_image_check_size2 (width c) (height c) then c
  else
    {| height := 0;
       width := 0;
       pix_fmt := pix_fmt c;
       codec_type := codec_type c;
       time_base := time_base c;
       framerate := framerate c;
       gop_size := gop_size c;
       thread_count := thread_count c;
       max_b_frames := max_b_frames c;
       sw_pix_fmt := sw_pix_fmt c;
       refs := refs c;
       priv_data := priv_data c |}.

(** ** The publisher *)

(** What a call does to the outside, in program order. *)
Inductive Event : Type :=
| Lock
| Unlock
| Open (ret : Z)
| FrameAlloc
| SwsGetContext (c : SwsContext)
| SendFrame (f : Frame.AVFrame) (ret : Z)
| ReceivePacket (ret : Z) (p : AVPacket)   (* the packet as the encoder gave it *)
| PublishFn (msg : Msg.CompressedImage).

(** The members of [H265Publisher] that [publish] uses.  The constructor
    is taken to have found the codec and allocated [context_]. *)
Record H265Publisher : Type := {
  context_ : AVCodecContext;
  avInFrame_ : option Frame.AVFrame;
  avOutFrame_ : option Frame.AVFrame;
  swsCtx_ : option SwsContext;
  frameCount_ : Z;
  frameIdx : Z
}.

(** How a call ends: it returns; the process dies in it (a null pointer
    is dereferenced, a copy runs off the memory); an exception leaves it,
    and the [std::unique_lock] of line 110 releases the lock on the way
    out; or a loop is still turning when the fuel of the model is
    spent. *)
Inductive Exit : Type :=
| Returned
| Faulted
| Threw
| Spinning.

Section Publisher.

Variable L : Libav.

(** The publisher, the encoder behind its context, and whether some
    envelope was written past the end of its vector. *)
Record World : Type := {
  this : H265Publisher;
  encoder : Enc L;
  heap_overrun : bool
}.

Record Run : Type := {
  exit : Exit;
  world : World;
  events : list Event
}.

Definition fps : Z := 30.

(** Lines 115-151: the context after the assignments of the
    configuration block ([max_b_frames] is assigned 0, then 3). *)
Definition configure_context (message : Msg.Image) (c : AVCodecContext)
  : AVCodecContext :=
  {| height := Int.to_int (Msg.height message);
     width := Int.to_int (Msg.width message);
     pix_fmt := AV_PIX_FMT_YUV420P;
     codec_type := AVMEDIA_TYPE_VIDEO;
     time_base := {| num := 1; den := fps |};
     framerate := {| num := fps; den := 1 |};
     gop_size := Int.to_int (fps * 2);
     thread_count := 5;
     max_b_frames := 3;
     sw_pix_fmt := AV_PIX_FMT_YUV420P;
     refs := 3;
     priv_data :=
       av_opt_set (av_opt_set (priv_data c) "preset" "ultrafast")
                  "crf" "35" |}.

(** Lines 158-167: the descriptor and the bytes-per-pixel test. *)
Definition pixel_format_ok : bool :=
  match av_pix_fmt_desc_get L AV_PIX_FMT_RGB24 with
  | None => false
  | Some desc =>
      let bytesPerPixel := Z.quot (av_get_bits_per_pixel L desc) 8 in
      (bytesPerPixel =? 3)
      && (Z.rem (av_get_bits_per_pixel L desc) 8 =? 0)
  end.

(** The publisher with another context and other working objects. *)
Definition with_members (p : H265Publisher) (c : AVCodecContext)
           (inFrame : option Frame.AVFrame) (sws : option SwsContext)
           (outFrame : option Frame.AVFrame) : H265Publisher :=
  {| context_ := c;
     avInFrame_ := inFrame;
     avOutFrame_ := outFrame;
     swsCtx_ := sws;
     frameCount_ := frameCount_ p;
     frameIdx := frameIdx p |}.

(** Lines 115-209, the body of [if (context_->height == 0)].  The
    boolean is [false] when one of the three [return]s was taken (lines
    161, 166 and 171) and [true] when the block was left at its end or
    the process died in it.  The results of [av_frame_alloc] and
    [sws_getContext] are stored untested: a null frame is dereferenced
    in the next statement (lines 176 and 201), where the process dies
    with the null member in place, which is the fault [encode] gives for
    a null frame; a null scaling context is stored and the block goes
    on.  [av_frame_get_buffer] and [av_image_fill_linesizes] only
    prepare pixel storage, and their results steer nothing (lines 180 and
    206 print at most). *)
Definition configure (message : Msg.Image) (w : World)
  : bool * World * list Event :=
  let p := this w in
  let ctx0 := configure_context message (context_ p) in
  if negb pixel_format_ok then
    (false,
     {| this := with_members p ctx0 (avInFrame_ p) (swsCtx_ p) (avOutFrame_ p);
        encoder := encoder w;
        heap_overrun := heap_overrun w |},
     [])
  else
    let (e, ret) := avcodec_open2 L (encoder w) ctx0 in
    let ctx := ff_set_dimensions ctx0 in
    if ret <? 0 then
      (false,
       {| this := with_members p ctx (avInFrame_ p) (swsCtx_ p) (avOutFrame_ p);
          encoder := e;
          heap_overrun := heap_overrun w |},
       [Open ret])
    else
      let (e1, in_ok) := av_frame_alloc L e in
      if negb in_ok then
        (true,
         {| this := with_members p ctx None (swsCtx_ p) (avOutFrame_ p);
            encoder := e1;
            heap_overrun := heap_overrun w |},
         [Open ret; FrameAlloc])
      else
        let inFrame :=
          {| Frame.width := Int.to_int (Msg.width message);
             Frame.height := Int.to_int (Msg.height message);
             Frame.format := AV_PIX_FMT_RGB24;
             Frame.pts := Rescale.AV_NOPTS_VALUE |} in
        let sws :=
          {| srcW := Int.to_int (Msg.width message);
             srcH := Int.to_int (Msg.height message);
             srcFormat := AV_PIX_FMT_RGB24;
             dstW := width ctx;
             dstH := height ctx;
             dstFormat := AV_PIX_FMT_RGB0 |} in
        let (e2, sws_ok) := sws_getContext L e1 sws in
        let (e3, out_ok) := av_frame_alloc L e2 in
        let outFrame :=
          {| Frame.width := width ctx;
             Frame.height := height ctx;
             Frame.format := sw_pix_fmt ctx;
             Frame.pts := Rescale.AV_NOPTS_VALUE |} in
        (true,
         {| this :=
              with_members p ctx (Some inFrame)
                           (if sws_ok then Some sws else None)
                           (if out_ok then Some outFrame else None);
            encoder := e3;
            heap_overrun := heap_overrun w |},
         [Open ret; FrameAlloc; SwsGetContext sws; FrameAlloc]).

(** Lines 245-269: [ret = -1; while (ret != 0) { ret = send; ... }].
    Every result other than 0 takes a [continue]; on 0 [frameIdx] is
    advanced and the loop condition ends the loop.  The result is the
    encoder, the new [frameIdx], the events, and whether the loop ended
    within the fuel. *)
Fixpoint send_loop (fuel : nat) (frameToEncode : Frame.AVFrame)
         (framerate_num : Z) (e : Enc L) (idx : Z)
  : bool * Enc L * Z * list Event :=
  match fuel with
  | O => (false, e, idx, [])
  | S fuel' =>
      let (e1, ret) := avcodec_send_frame L e frameToEncode in
      if ret =? 0 then
        (true, e1, Z.rem idx framerate_num + 1, [SendFrame frameToEncode ret])
      else
        let '(ended, e2, idx2, evs) :=
          send_loop fuel' frameToEncode framerate_num e1 idx in
        (ended, e2, idx2, SendFrame frameToEncode ret :: evs)
  end.

Definition compressed_of (message : Msg.Image) (w : Envelope.Writer)
  : Msg.CompressedImage :=
  {| Msg.c_header := Msg.header message;
     Msg.c_format := "h265";
     Msg.c_data := Envelope.compressed_data w |}.

(** Lines 273-389: [while (ret >= 0) { ret = receive; if (ret >= 0)
    { rescale; serialize; publish_fn } }], entered with [ret = 0].  The
    loop is left by a negative result; by the process dying in the
    serialization; or by an exception, thrown by [resize] or by
    [publish_fn]. *)
Fixpoint drain_loop (fuel : nat) (message : Msg.Image)
         (tb : AVRational) (e : Enc L) (ovr : bool)
  : Exit * Enc L * bool * list Event :=
  match fuel with
  | O => (Spinning, e, ovr, [])
  | S fuel' =>
      let '(e1, ret, received) := avcodec_receive_packet L e in
      if ret >=? 0 then
        let avPacket := rescale_packet tb received in
        match Envelope.outcome (memory L e1) avPacket with
        | Envelope.Crashed => (Faulted, e1, ovr, [ReceivePacket ret received])
        | Envelope.LengthError =>
            (Threw, e1, ovr, [ReceivePacket ret received])
        | Envelope.Written env =>
            let compressed := compressed_of message env in
            if publish_fn L compressed then
              let '(x, e2, ovr2, evs) :=
                drain_loop fuel' message tb e1
                           (ovr || Envelope.overrun env) in
              (x, e2, ovr2,
               ReceivePacket ret received :: PublishFn compressed :: evs)
            else
              (Threw, e1, ovr || Envelope.overrun env,
               [ReceivePacket ret received; PublishFn compressed])
        end
      else (Returned, e1, ovr, [ReceivePacket ret received])
  end.

(** Lines 212-390, after the configuration block.  [av_image_copy]
    (line 214) reads [avInFrame_], and [sws_scale] (line 219) gets
    [swsCtx_], which libswscale dereferences at once, and reads both
    frames: the three must exist; the two calls write pixel planes only.
    [frameToEncode] is an alias of [avOutFrame_], so the timestamp lands
    in the member.  A call that returns or throws releases the lock. *)
Definition encode (fuel : nat) (message : Msg.Image) (w : World) : Run :=
  let p := this w in
  match avInFrame_ p, swsCtx_ p, avOutFrame_ p with
  | Some _, Some _, Some outFrame =>
      let frameToEncode := Frame.set_pts outFrame (frameCount_ p) in
      let frameCount := frameCount_ p + 1 in
      let (e0, ret0) := avcodec_send_frame L (encoder w) frameToEncode in
      let '(ended, e1, idx, sends) :=
        send_loop fuel frameToEncode (num (framerate (context_ p)))
                  e0 (frameIdx p) in
      let p1 :=
        {| context_ := context_ p;
           avInFrame_ := avInFrame_ p;
           avOutFrame_ := Some frameToEncode;
           swsCtx_ := swsCtx_ p;
           frameCount_ := frameCount;
           frameIdx := idx |} in
      if ended then
        let '(x, e2, ovr, drained) :=
          drain_loop fuel message (time_base (context_ p)) e1
                     (heap_overrun w) in
        {| exit := x;
           world := {| this := p1; encoder := e2; heap_overrun := ovr |};
           events :=
             SendFrame frameToEncode ret0 :: sends ++ drained
               ++ match x with
                  | Returned | Threw => [Unlock]
                  | Faulted | Spinning => []
                  end |}
      else
        {| exit := Spinning;
           world :=
             {| this := p1; encoder := e1; heap_overrun := heap_overrun w |};
           events := SendFrame frameToEncode ret0 :: sends |}
  | _, _, _ => {| exit := Faulted; world := w; events := [] |}
  end.

(** [H265Publisher::publish] (lines 106-391). *)
Definition publish (fuel : nat) (message : Msg.Image) (w : World) : Run :=
  if height (context_ (this w)) =? 0 then
    let '(go, w1, cfg) := configure message w in
    if go then
      let r := encode fuel message w1 in
      {| exit := exit r; world := world r;
         events := Lock :: cfg ++ events r |}
    else
      {| exit := Returned; world := w1; events := Lock :: cfg ++ [Unlock] |}
  else
    let r := encode fuel message w in
    {| exit := exit r; world := world r; events := Lock :: events r |}.

(** A sequence of calls, one message after the other; it stops at the
    first call that does not return. *)
Fixpoint publish_all (fuel : nat) (messages : list Msg.Image) (w : World)
  : Run :=
  match messages with
  | [] => {| exit := Returned; world := w; events := [] |}
  | message :: rest =>
      let r := publish fuel message w in
      match exit r with
      | Returned =>
          let r' := publish_all fuel rest (world r) in
          {| exit := exit r'; world := world r';
             events := events r ++ events r' |}
      | _ => r
      end
  end.

End Publisher.

Arguments this {L} _.
Arguments encoder {L} _.
Arguments heap_overrun {L} _.
Arguments exit {L} _.
Arguments world {L} _.
Arguments events {L} _.

(** ** A fresh publisher *)

(** The context as [avcodec_alloc_context3] hands it out: dimensions 0,
    no pixel format, time base 0/1, no private option set. *)
Definition default_context : AVCodecContext :=
  {| height := 0;
     width := 0;
     pix_fmt := AV_PIX_FMT_NONE;
     codec_type := AVMEDIA_TYPE_UNKNOWN;
     time_base := {| num := 0; den := 1 |};
     framerate := {| num := 0; den := 1 |};
     gop_size := 12;
     thread_count := 1;
     max_b_frames := 0;
     sw_pix_fmt := AV_PIX_FMT_NONE;
     refs := 1;
     priv_data := [] |}.

(** Modelled from the spec: the header h265_publisher.hpp, which declares
    and initialises the members, is not among the sources.  The session's
    frame index starts at 0 ("the first frame of a fresh pipeline" has
    presentation timestamp 0) and no working frame or scaling context
    exists before the first call. *)
Definition fresh : H265Publisher :=
  {| context_ := default_context;
     avInFrame_ := None;
     avOutFrame_ := None;
     swsCtx_ := None;
     frameCount_ := 0;
     frameIdx := 0 |}.

(** ** A scripted encoder

    An implementation of [Libav] whose answers are read off two scripts:
    the results of the successive [avcodec_send_frame] calls and the
    results of the successive [avcodec_receive_packet] calls.  When a
    script is used up, a frame is accepted and no packet is available.
    Its allocations succeed and its publish function returns.  It serves
    as the concrete encoder of the examples. *)
Module Script.

(** libav's results [AVERROR(EAGAIN)], [AVERROR_EOF], [AVERROR(EINVAL)]
    and [AVERROR(ENOMEM)]. *)
Definition EAGAIN : Z := -11.
Definition AVERROR_EOF : Z := -541478725.
Definition EINVAL : Z := -22.
Definition ENOMEM : Z := -12.

Definition blank : AVPacket :=
  {| buf := None;
     pts := Rescale.AV_NOPTS_VALUE;
     dts := Rescale.AV_NOPTS_VALUE;
     data := 0;
     size := 0;
     stream_index := 0;
     flags := 0;
     side_data := [];
     duration := 0;
     pos := -1;
     data_ref := 0 |}.

Record state : Type := {
  sends : list Z;
  receives : list (Z * AVPacket)
}.

Definition send (s : state) (f : Frame.AVFrame) : state * Z :=
  match sends s with
  | [] => (s, 0)
  | r :: rest => ({| sends := rest; receives := receives s |}, r)
  end.

Definition receive (s : state) : state * Z * AVPacket :=
  match receives s with
  | [] => (s, EAGAIN, blank)
  | (r, p) :: rest => ({| sends := sends s; receives := rest |}, r, p)
  end.

(** Opening fails with [EINVAL] on a context without a picture size (as
    libavcodec does) and answers [open_ret] otherwise. *)
Definition open (open_ret : Z) (s : state) (c : AVCodecContext) : state * Z :=
  if (height c <=? 0) || (width c <=? 0) then (s, EINVAL) else (s, open_ret).

Definition lib (bits : option Z) (open_ret : Z) (m : Mem) : Libav :=
  {| Enc := state;
     AVPixFmtDescriptor := Z;
     av_pix_fmt_desc_get := fun _ => bits;
     av_get_bits_per_pixel := fun d => d;
     avcodec_open2 := open open_ret;
     av_frame_alloc := fun s => (s, true);
     sws_getContext := fun s _ => (s, true);
     avcodec_send_frame := send;
     avcodec_receive_packet := receive;
     memory := fun _ => m;
     publish_fn := fun _ => true |}.

Definition start (bits : option Z) (open_ret : Z) (m : Mem)
           (ss : list Z) (rs : list (Z * AVPacket))
  : World (lib bits open_ret m) :=
  {| this := fresh;
     encoder := {| sends := ss; receives := rs |} : Enc (lib bits open_ret m);
     heap_overrun := false |}.

End Script.

(** ** Sample data for the examples *)

Module Sample.

(** A memory holding the given byte regions, zero elsewhere. *)
Fixpoint mem_of (regions : list (Z * list byte)) (a : Z) : byte :=
  match regions with
  | [] => x00
  | (base, bs) :: rest =>
      if (base <=? a) && (a <? base + Z.of_nat (length bs))
      then nth (Z.to_nat (a - base)) bs x00
      else mem_of rest a
  end.

(** A 4-byte payload at the start of an 8-byte buffer at address 4096. *)
Definition payload : list byte := [x00; x00; x01; x40].
Definition storage : list byte := payload ++ [xaa; xbb; xcc; xdd].

(** Three side-data payloads of 4, 16 and 0 bytes. *)
Definition side0 : list byte := [x11; x22; x33; x44].
Definition side1 : list byte :=
  [xa0; xa1; xa2; xa3; xa4; xa5; xa6; xa7;
   xa8; xa9; xaa; xab; xac; xad; xae; xaf].

(** The packet struct lives at 8192 with its member [data] at 8216; the
    side-data array lives at 12288, 24 bytes per element, the member
    [data] first.  The memory holds the payloads and the object
    representation of the members from each [data] member on. *)
Definition memory : Mem :=
  mem_of
    [(4096, storage);
     (8216, Bytes.of_int64 4096 ++ Bytes.of_int 4 ++ Bytes.of_int 0
              ++ Bytes.of_int 1);
     (16384, side0);
     (16400, side1);
     (12288, Bytes.of_int64 16384 ++ Bytes.of_int64 4 ++ Bytes.of_int 1
               ++ Bytes.of_int 0);
     (12312, Bytes.of_int64 16400 ++ Bytes.of_int64 16 ++ Bytes.of_int 8
               ++ Bytes.of_int 0);
     (12336, Bytes.of_int64 16416 ++ Bytes.of_int64 0 ++ Bytes.of_int 5
               ++ Bytes.of_int 0)].

(** A key frame without side data. *)
Definition keyframe : AVPacket :=
  {| buf := Some {| buffer_data := 4096; buffer_size := 8 |};
     pts := 0;
     dts := 0;
     data := 4096;
     size := 4;
     stream_index := 0;
     flags := 1;
     side_data := [];
     duration := 1;
     pos := -1;
     data_ref := 8216 |}.

(** The same packet with three side-data entries of sizes 4, 16, 0. *)
Definition with_side_data : AVPacket :=
  {| buf := buf keyframe;
     pts := pts keyframe;
     dts := dts keyframe;
     data := data keyframe;
     size := size keyframe;
     stream_index := stream_index keyframe;
     flags := flags keyframe;
     side_data :=
       [ {| sd_data := 16384; sd_size := 4; sd_type := 1;
            sd_data_ref := 12288 |};
         {| sd_data := 16400; sd_size := 16; sd_type := 8;
            sd_data_ref := 12312 |};
         {| sd_data := 16416; sd_size := 0; sd_type := 5;
            sd_data_ref := 12336 |} ];
     duration := duration keyframe;
     pos := pos keyframe;
     data_ref := data_ref keyframe |}.

Definition image (h w : Z) : Msg.Image :=
  {| Msg.header := "camera"; Msg.height := h; Msg.width := w;
     Msg.data := [] |}.

(** libav with a working RGB24 descriptor (24 bits per pixel) and an
    encoder that opens. *)
Definition libav : Libav := Script.lib (Some 24) 0 memory.

(** The same with an encoder that refuses to open. *)
Definition libav_closed : Libav := Script.lib (Some 24) Script.ENOMEM memory.

(** A fresh publisher on an encoder that accepts every frame at once and
    has one packet ready. *)
Definition fresh_world : World libav :=
  Script.start (Some 24) 0 memory [] [(0, keyframe)].

(** The same with no packet ready. *)
Definition idle_world : World libav :=
  Script.start (Some 24) 0 memory [] [].

(** The publisher after a first call on a 64 x 64 frame. *)
Definition configured_world : World libav :=
  world (publish 2 (image 64 64) fresh_world).

(** A fresh publisher on an encoder that is not ready at first, gives one
    packet for the first frame and two for the second. *)
Definition busy_world : World libav :=
  Script.start (Some 24) 0 memory
    [Script.EAGAIN]
    [(0, keyframe); (Script.EAGAIN, Script.blank);
     (0, with_side_data); (0, keyframe)].

(** A fresh publisher on the encoder that refuses to open. *)
Definition closed_world : World libav_closed :=
  Script.start (Some 24) Script.ENOMEM memory [] [].

(** The configured publisher on an encoder that answers the next
    submissions with end-of-stream, invalid-argument, out-of-memory and
    not-ready before it accepts. *)
Definition stubborn_world : World libav :=
  {| this := this configured_world;
     encoder :=
       {| Script.sends :=
            [Script.AVERROR_EOF; Script.EINVAL; Script.ENOMEM; Script.EAGAIN];
          Script.receives := [] |} : Enc libav;
     heap_overrun := heap_overrun configured_world |}.

Definition rgb_frame (h w : Z) : Frame.AVFrame :=
  {| Frame.width := w; Frame.height := h;
     Frame.format := AV_PIX_FMT_RGB24;
     Frame.pts := Rescale.AV_NOPTS_VALUE |}.

Definition yuv_frame (h w t : Z) : Frame.AVFrame :=
  {| Frame.width := w; Frame.height := h;
     Frame.format := AV_PIX_FMT_YUV420P;
     Frame.pts := t |}.

End Sample.

(** ** The length the envelope is meant to have

    Written after the field list of the wire format: five 32-bit fields
    (buffer size, payload size, stream index, flags, side-data count),
    four 64-bit fields (pts, dts, duration, pos), the buffer, the payload
    and, per side-data entry, two 32-bit fields and the entry's bytes. *)
Definition envelope_length (b : AVBufferRef) (p : AVPacket) : Z :=
  4 + buffer_size b + 4 + size p + 8 + 8 + 4 + 4 + 4
  + fold_right (fun sd acc => 4 + 4 + sd_size sd + acc) 0 (side_data p)
  + 8 + 8.

(** The bytes the copies of lines 321-380 read, in the order of the
    copies: what the cursor-driven writer lays down one after the other. *)
Definition written_side_data (m : Mem) (sd : AVPacketSideData) : list byte :=
  Bytes.of_int (sd_size sd) ++ Bytes.of_int (sd_type sd)
    ++ load m (sd_data_ref sd) (sd_size sd).

Definition written (m : Mem) (b : AVBufferRef) (p : AVPacket) : list byte :=
  Bytes.of_int (buffer_size b)
    ++ load m (buffer_data b) (buffer_size b)
    ++ Bytes.of_int (size p)
    ++ load m (data_ref p) (size p)
    ++ Bytes.of_int64 (pts p)
    ++ Bytes.of_int64 (dts p)
    ++ Bytes.of_int (stream_index p)
    ++ Bytes.of_int (flags p)
    ++ Bytes.of_int (side_data_elems p)
    ++ flat_map (written_side_data m) (side_data p)
    ++ Bytes.of_int64 (duration p)
    ++ Bytes.of_int64 (pos p).

(** The sizes of a packet are lengths, and its envelope fits an [int]. *)
Definition sizes_ok (b : AVBufferRef) (p : AVPacket) : Prop :=
  0 <= buffer_size b
  /\ 0 <= size p
  /\ Forall (fun sd => 0 <= sd_size sd) (side_data p)
  /\ envelope_length b p < 2 ^ 31.

(** The writer [w] over a vector of [N] bytes has laid down the bytes
    [s] (as long as the cursor has not wrapped around). *)
Definition laid (N : nat) (s : list byte) (w : Envelope.Writer) : Prop :=
  Z.of_nat (length s) < 2 ^ 31 ->
  Envelope.index_data_compressed w = Z.of_nat (length s)
  /\ Envelope.compressed_data w = firstn N (s ++ repeat x00 N)
  /\ Envelope.overrun w = (N <? length s)%nat.

(** A configured session: the guard is set, and both working frames and
    the scaling context exist. *)
Definition configured (p : H265Publisher) : Prop :=
  height (context_ p) <> 0
  /\ avInFrame_ p <> None
  /\ avOutFrame_ p <> None
  /\ swsCtx_ p <> None.

(** The time base of a session is the one the configuration block
    sets as soon as the input frame exists. *)
Definition timed (p : H265Publisher) : Prop :=
  avInFrame_ p = None
  \/ time_base (context_ p) = {| num := 1; den := 30 |}.

(** ** Vocabulary for event traces *)

Definition is_config_event (e : Event) : bool :=
  match e with
  | Open _ | FrameAlloc | SwsGetContext _ => true
  | _ => false
  end.

Definition is_send (e : Event) : bool :=
  match e with
  | SendFrame _ _ => true
  | _ => false
  end.

(** One received packet together with the envelope written for it. *)
Definition drained_events (message : Msg.Image)
           (ps : list (Z * AVPacket * Envelope.Writer)) : list Event :=
  flat_map
    (fun x =>
       [ReceivePacket (fst (fst x)) (snd (fst x));
        PublishFn (compressed_of message (snd x))])
    ps.

(** Every packet the drain loop publishes was received with a
    non-negative result just before, and its envelope is the
    serialization of the rescaled packet. *)
Definition drained_ok (tb : AVRational)
           (x : Z * AVPacket * Envelope.Writer) : Prop :=
  0 <= fst (fst x)
  /\ exists m,
      Envelope.serialize m (rescale_packet tb (snd (fst x))) = Some (snd x).

(** The working frame without its timestamp. *)
Definition untimed (f : option Frame.AVFrame) : option Frame.AVFrame :=
  option_map (fun x => Frame.set_pts x 0) f.

(** The messages handed to the publish function, in order. *)
Fixpoint published (evs : list Event) : list Msg.CompressedImage :=
  match evs with
  | [] => []
  | PublishFn c :: rest => c :: published rest
  | _ :: rest => published rest
  end.

(** The packets received with a non-negative result, in order. *)
Fixpoint received (evs : list Event) : list AVPacket :=
  match evs with
  | [] => []
  | ReceivePacket ret p :: rest =>
      if ret >=? 0 then p :: received rest else received rest
  | _ :: rest => received rest
  end.

(** The deliveries of a trace: every message handed to the publish
    function right after a packet was received, with that packet. *)
Fixpoint deliveries (evs : list Event)
  : list (AVPacket * Msg.CompressedImage) :=
  match evs with
  | [] => []
  | ReceivePacket _ p :: rest =>
      match rest with
      | PublishFn c :: _ => (p, c) :: deliveries rest
      | _ => deliveries rest
      end
  | _ :: rest => deliveries rest
  end.




(** Events other than a receive or a message. *)
Definition is_traffic (e : Event) : bool :=
  match e with
  | ReceivePacket _ _ | PublishFn _ => true
  | _ => false
  end.

(** The packets the drain loop publishes, with their messages. *)
Definition delivered (message : Msg.Image)
           (ps : list (Z * AVPacket * Envelope.Writer))
  : list (AVPacket * Msg.CompressedImage) :=
  map (fun x => (snd (fst x), compressed_of message (snd x))) ps.

(** The messages, the packets and the deliveries of a call: the packets
    [ps] were received and published; [thrown] is a last packet whose
    message made the publish function throw, [owed] a last packet
    received with a non-negative result and not published. *)
Definition traffic (L : Libav) (message : Msg.Image) (r : Run L)
           (ps : list (Z * AVPacket * Envelope.Writer))
           (owed : list AVPacket)
           (thrown : list (AVPacket * Msg.CompressedImage)) : Prop :=
  let tb := time_base (context_ (this (world r))) in
  Forall (drained_ok tb) ps
  /\ deliveries (events r) = delivered message ps ++ thrown
  /\ published (events r) = map snd (delivered message ps ++ thrown)
  /\ received (events r) = map fst (delivered message ps ++ thrown) ++ owed
  /\ (length thrown + length owed <= 1)%nat
  /\ (exit r = Returned \/ exit r = Spinning -> thrown = [] /\ owed = [])
  /\ (exit r = Faulted ->
      thrown = [] /\ (ps = [] /\ owed = [] \/ length owed = 1%nat))
  /\ (exit r = Threw -> (length thrown + length owed = 1)%nat)
  /\ Forall (fun d =>
               exists ret env,
                 drained_ok tb (ret, fst d, env)
                 /\ snd d = compressed_of message env)
            thrown
  /\ (avInFrame_ (this (world r)) = None -> ps = [] /\ thrown = []).

(** ** Calls from several threads

    The events of several threads, each tagged with its thread, in the
    order in which they happen. *)










(** ** Reading an envelope back

    The inverse of the [memcpy] of an [int] or [int64_t] into the
    vector: the value whose little-endian object representation lies at
    an offset of the bytes. *)
Module Readback.

(** The number a little-endian byte string stands for. *)
Definition le_value (bs : list byte) : Z :=
  fold_right (fun b acc => Z.of_N (Byte.to_N b) + 256 * acc) 0 bs.

(** The [n] bytes at offset [off]. *)
Definition field (off n : nat) (bs : list byte) : list byte :=
  firstn n (skipn off bs).

(** The [int] at offset [off]. *)
Definition read_int (off : nat) (bs : list byte) : Z :=
  Int.to_int (le_value (field off 4 bs)).

(** The [int64_t] at offset [off]. *)
Definition read_int64 (off : nat) (bs : list byte) : Z :=
  Int.to_int64 (le_value (field off 8 bs)).

End Readback.

(** ** Pacing and geometry *)

(** [frameIdx] stays within the frame rate. *)
Definition paced (p : H265Publisher) : Prop :=
  0 <= frameIdx p <= 30
  /\ (avInFrame_ p = None \/ num (framerate (context_ p)) = 30).

(** The working objects agree with the context.  An input frame exists
    only with the guard set, and has the context's size; a scaling
    context or an output frame exists only with an input frame, and
    works on the context's size.  Nothing says that the three exist
    together: the block stores what the allocations return. *)
Definition coherent (p : H265Publisher) : Prop :=
  (forall i,
      avInFrame_ p = Some i ->
      height (context_ p) <> 0
      /\ Frame.width i = width (context_ p)
      /\ Frame.height i = height (context_ p)
      /\ Frame.format i = AV_PIX_FMT_RGB24)
  /\ (forall s,
         swsCtx_ p = Some s ->
         avInFrame_ p <> None
         /\ srcW s = width (context_ p) /\ srcH s = height (context_ p)
         /\ dstW s = width (context_ p) /\ dstH s = height (context_ p)
         /\ srcFormat s = AV_PIX_FMT_RGB24
         /\ dstFormat s = AV_PIX_FMT_RGB0)
  /\ (forall o,
         avOutFrame_ p = Some o ->
         avInFrame_ p <> None
         /\ Frame.width o = width (context_ p)
         /\ Frame.height o = height (context_ p)
         /\ Frame.format o = AV_PIX_FMT_YUV420P).

(** ** Encoders that never let a loop end *)
Module Stalled.

(** An encoder that answers every submission with [AVERROR(EAGAIN)]. *)
Definition refusing : Libav :=
  {| Enc := Script.state;
     AVPixFmtDescriptor := Z;
     av_pix_fmt_desc_get := fun _ => Some 24;
     av_get_bits_per_pixel := fun d => d;
     avcodec_open2 := Script.open 0;
     av_frame_alloc := fun s => (s, true);
     sws_getContext := fun s _ => (s, true);
     avcodec_send_frame := fun s _ => (s, Script.EAGAIN);
     avcodec_receive_packet := Script.receive;
     memory := fun _ => Sample.memory;
     publish_fn := fun _ => true |}.


(** The publisher of [Sample.configured_world] on another encoder. *)
Definition world_on (L : Libav) (e : Enc L) : World L :=
  {| this := this Sample.configured_world;
     encoder := e;
     heap_overrun := false |}.

(** An encoder state without scripted answers. *)
Definition idle : Script.state :=
  {| Script.sends := []; Script.receives := [] |}.

End Stalled.

(** ** Libraries and packets off the beaten track *)
Module Corner.

(** A library whose allocator answers after a script: the successive
    answers of [av_frame_alloc] and [sws_getContext], [true] once the
    script is used up. *)
Definition pop (s : Script.state * list bool)
  : (Script.state * list bool) * bool :=
  match snd s with
  | [] => (s, true)
  | a :: rest => ((fst s, rest), a)
  end.

Definition scarce : Libav :=
  {| Enc := (Script.state * list bool)%type;
     AVPixFmtDescriptor := Z;
     av_pix_fmt_desc_get := fun _ => Some 24;
     av_get_bits_per_pixel := fun d => d;
     avcodec_open2 :=
       fun s c => ((fst (Script.open 0 (fst s) c), snd s),
                   snd (Script.open 0 (fst s) c));
     av_frame_alloc := pop;
     sws_getContext := fun s _ => pop s;
     avcodec_send_frame :=
       fun s f => ((fst (Script.send (fst s) f), snd s),
                   snd (Script.send (fst s) f));
     avcodec_receive_packet :=
       fun s => ((fst (fst (Script.receive (fst s))), snd s),
                 snd (fst (Script.receive (fst s))),
                 snd (Script.receive (fst s)));
     memory := fun _ => Sample.memory;
     publish_fn := fun _ => true |}.

(** A fresh publisher on [scarce] with the given allocator script. *)
Definition scarce_world (answers : list bool) : World scarce :=
  {| this := fresh;
     encoder := (Stalled.idle, answers) : Enc scarce;
     heap_overrun := false |}.



(** [Sample.keyframe] with other timestamps. *)
Definition stamped (t d : Z) : AVPacket :=
  {| buf := buf Sample.keyframe;
     pts := t;
     dts := d;
     data := data Sample.keyframe;
     size := size Sample.keyframe;
     stream_index := stream_index Sample.keyframe;
     flags := flags Sample.keyframe;
     side_data := side_data Sample.keyframe;
     duration := duration Sample.keyframe;
     pos := pos Sample.keyframe;
     data_ref := data_ref Sample.keyframe |}.

(** A fresh publisher on an encoder that has a packet with pts 7 and
    dts 5 and a packet without timestamps ready. *)
Definition stamped_world : World Sample.libav :=
  Script.start (Some 24) 0 Sample.memory []
    [(0, stamped 7 5);
     (0, stamped Rescale.AV_NOPTS_VALUE Rescale.AV_NOPTS_VALUE)].



(** [Sample.libav] with an encoder that opens exactly on a picture size
    [av_image_check_size2] accepts. *)
Definition strict : Libav :=
  {| Enc := Script.state;
     AVPixFmtDescriptor := Z;
     av_pix_fmt_desc_get := fun _ => Some 24;
     av_get_bits_per_pixel := fun d => d;
     avcodec_open2 :=
       fun s c =>
         (s, if av_image_check_size2 (width c) (height c)
             then 0 else Script.EINVAL);
     av_frame_alloc := fun s => (s, true);
     sws_getContext := fun s _ => (s, true);
     avcodec_send_frame := Script.send;
     avcodec_receive_packet := Script.receive;
     memory := fun _ => Sample.memory;
     publish_fn := fun _ => true |}.

(** A fresh publisher on [strict] with one packet ready. *)
Definition strict_world : World strict :=
  {| this := fresh;
     encoder :=
       {| Script.sends := []; Script.receives := [(0, Sample.keyframe)] |}
       : Enc strict;
     heap_overrun := false |}.

(** A frame of 2^31 + 64 rows. *)
Definition tall_image : Msg.Image := Sample.image (2 ^ 31 + 64) 64.

End Corner.

(** ** Construction (lines 58-75) *)

(** What the constructor asks of libavcodec: the H.265 encoder, if there
    is one, and a context for it, if it can be allocated, together with
    the encoder state behind that context. *)
Record Codecs (L : Libav) : Type := {
  AVCodec : Type;
  avcodec_find_encoder : option AVCodec;
  avcodec_alloc_context3 : AVCodec -> option (AVCodecContext * Enc L)
}.

Section Construction.

Variable L : Libav.
Variable C : Codecs L.

(** The whole object: [codec_] ([None] is the null pointer), whether
    [context_] is the null pointer, the members [publish] works on, and
    the lines written to [std::cerr].  While [context_null] holds, the
    [context_] and the encoder of [members] stand for nothing. *)
Record Constructed : Type := {
  codec_ : option (AVCodec C);
  context_null : bool;
  members : World L;
  cerr : list string
}.

(** [H265Publisher::H265Publisher()], run on the object as the member
    initialisers leave it. *)
Definition construct (o : Constructed) : Constructed :=
  match avcodec_find_encoder C with
  | None =>
      {| codec_ := None;
         context_null := context_null o;
         members := members o;
         cerr := cerr o ++ ["Codec with specified id not found"%string] |}
  | Some codec =>
      match avcodec_alloc_context3 C codec with
      | None =>
          {| codec_ := Some codec;
             context_null := true;
             members := members o;
             cerr := cerr o ++ ["Can't allocate video codec context"%string] |}
      | Some (ctx, e) =>
          {| codec_ := Some codec;
             context_null := false;
             members :=
               {| this :=
                    {| context_ := ctx;
                       avInFrame_ := avInFrame_ (this (members o));
                       avOutFrame_ := avOutFrame_ (this (members o));
                       swsCtx_ := swsCtx_ (this (members o));
                       frameCount_ := frameCount_ (this (members o));
                       frameIdx := frameIdx (this (members o)) |};
                  encoder := e;
                  heap_overrun := heap_overrun (members o) |};
             cerr := cerr o |}
      end
  end.

(** [publish] on the whole object: line 113 reads
    [this->context_->height] right after line 110 has taken the lock,
    whether [context_] is null or not. *)
Definition publish_on (fuel : nat) (message : Msg.Image) (o : Constructed)
  : Exit * Constructed * list Event :=
  if context_null o
  then (Faulted, o, [Lock])
  else
    let r := publish fuel message (members o) in
    (exit r,
     {| codec_ := codec_ o; context_null := false;
        members := world r; cerr := cerr o |},
     events r).

End Construction.

(** ** Advertising and parameters (lines 81-104 and 393-413) *)

(** [getTransportName]. *)
Definition getTransportName : string := "h265".

Module Text.

(** [std::string::substr(pos)]: the rest of the string from [pos] on;
    [None] is [std::out_of_range], thrown when [pos] is past the end. *)
Definition substr (s : string) (pos : nat) : option string :=
  if (pos <=? String.length s)%nat
  then Some (substring pos (String.length s - pos) s)
  else None.

(** [std::replace(s.begin(), s.end(), old, new)]. *)
Fixpoint replace (old new : ascii) (s : string) : string :=
  match s with
  | EmptyString => EmptyString
  | String c rest =>
      String (if Ascii.eqb c old then new else c) (replace old new rest)
  end.

(** Whether a character occurs in a string. *)
Fixpoint occurs (c : ascii) (s : string) : bool :=
  match s with
  | EmptyString => false
  | String d rest => Ascii.eqb d c || occurs c rest
  end.

End Text.

(** The result of [declare_parameter]: the value the parameter got, or
    one of the exceptions it throws. *)
Inductive Declared (V : Type) : Type :=
| Value (v : V)
| ParameterAlreadyDeclared
| OtherException.

Arguments ParameterAlreadyDeclared {V}.
Arguments OtherException {V}.

(** What the plugin asks of rclcpp's node and of its base class.
    [base_advertiseImpl] is
    [image_transport::SimplePublisherPlugin::advertiseImpl], which
    creates the publisher on the node: it gives the node as it leaves it
    and tells whether it returned ([false]: it threw).  [get_parameter]
    answers [None] for [ParameterNotDeclaredException]. *)
Record Rclcpp : Type := {
  Node : Type;
  ParameterValue : Type;
  ParameterDescriptor : Type;
  descriptor_name : ParameterDescriptor -> string;
  get_effective_namespace : Node -> string;
  base_advertiseImpl : Node -> string -> Node * bool;
  declare_parameter :
    Node -> string -> ParameterValue -> ParameterDescriptor
    -> Node * Declared ParameterValue;
  get_parameter : Node -> string -> option ParameterValue
}.

Section Parameters.

Variable R : Rclcpp.

(** The members [declareParameter] reads of a [ParameterDefinition]. *)
Record ParameterDefinition : Type := {
  defaultValue : ParameterValue R;
  descriptor : ParameterDescriptor R
}.

(** The members the two functions use: [node_] ([None] is the null
    pointer) and [parameters_]. *)
Record Plugin : Type := {
  node_ : option (Node R);
  parameters_ : list string
}.

(** How a call ends: normally, with an exception leaving the function,
    or on the null [node_]. *)
Inductive Ending : Type :=
| Normal
| Thrown
| NullNode.

(** Lines 96-99: the local [param_base_name]; [ns_len] is a [uint]. *)
Definition param_base_name (effective_namespace base_topic : string)
  : option string :=
  let ns_len :=
    Z.to_nat (Z.of_nat (String.length effective_namespace) mod 2 ^ 32) in
  option_map (Text.replace "/" ".") (Text.substr base_topic ns_len).

(** [advertiseImpl] (lines 86-104): [node_] is set first; then the base
    class advertises, on the same node, with the topic, [custom_qos] and
    [options] handed on as they came; then the parameter base name is
    computed from the namespace of the node.  Either step can throw.
    The loop over the parameter definitions is commented out, so the
    name is dropped. *)
Definition advertiseImpl (node : Node R) (base_topic : string) (o : Plugin)
  : Ending * Plugin :=
  let (node1, returned) := base_advertiseImpl R node base_topic in
  let o1 := {| node_ := Some node1; parameters_ := parameters_ o |} in
  if returned then
    match param_base_name (get_effective_namespace R node1) base_topic with
    | Some _ => (Normal, o1)
    | None => (Thrown, o1)
    end
  else (Thrown, o1).

(** Line 399: the name under which a definition is declared. *)
Definition param_name (base_name : string) (definition : ParameterDefinition)
  : string :=
  (base_name ++ "." ++ getTransportName ++ "."
     ++ descriptor_name R (descriptor definition))%string.

(** [declareParameter] (lines 393-413). *)
Definition declareParameter (base_name : string)
           (definition : ParameterDefinition) (o : Plugin)
  : Ending * Plugin :=
  let name := param_name base_name definition in
  let parameters := parameters_ o ++ [name] in
  match node_ o with
  | None => (NullNode, {| node_ := None; parameters_ := parameters |})
  | Some n =>
      let (n1, declared) :=
        declare_parameter R n name (defaultValue definition)
                          (descriptor definition) in
      let o1 := {| node_ := Some n1; parameters_ := parameters |} in
      match declared with
      | Value _ => (Normal, o1)
      | ParameterAlreadyDeclared =>
          match get_parameter R n1 name with
          | Some _ => (Normal, o1)
          | None => (Thrown, o1)
          end
      | OtherException => (Thrown, o1)
      end
  end.

End Parameters.

(** A node that keeps its parameters in a list, for the examples:
    declaring a name that is present answers
    [ParameterAlreadyDeclared]. *)
Module Registry.

Fixpoint lookup (n : list (string * Z)) (name : string) : option Z :=
  match n with
  | [] => None
  | (k, v) :: rest => if String.eqb k name then Some v else lookup rest name
  end.

Definition declare (n : list (string * Z)) (name : string) (v : Z)
           (d : string) : list (string * Z) * Declared Z :=
  match lookup n name with
  | Some _ => (n, ParameterAlreadyDeclared)
  | None => ((name, v) :: n, Value v)
  end.

Definition rclcpp (ns : string) : Rclcpp :=
  {| Node := list (string * Z);
     ParameterValue := Z;
     ParameterDescriptor := string;
     descriptor_name := fun d => d;
     get_effective_namespace := fun _ => ns;
     base_advertiseImpl := fun n _ => (n, true);
     declare_parameter := declare;
     get_parameter := lookup |}.

End Registry.

(** A libavcodec that finds the encoder and cannot allocate its context,
    and an object whose members are those of [Sample.fresh_world], for
    the examples. *)
Module Unallocated.

Definition codecs : Codecs Sample.libav :=
  {| AVCodec := unit;
     avcodec_find_encoder := Some tt;
     avcodec_alloc_context3 := fun _ => None |}.

Definition object : Constructed codecs :=
  {| codec_ := None;
     context_null := true;
     members := Sample.fresh_world;
     cerr := [] |}.

End Unallocated.

(** ** A descriptor of another depth *)
Module Deep.

(** libav with an RGB24 descriptor of 32 bits per pixel, and a fresh
    publisher on it. *)
Definition libav : Libav := Script.lib (Some 32) 0 Sample.memory.

Definition fresh_world : World libav :=
  Script.start (Some 32) 0 Sample.memory [] [(0, Sample.keyframe)].

End Deep.

(** * Properties *)

(** The size conditions of a concrete packet, by evaluation. *)
Ltac sizes_by_evaluation :=
  unfold sizes_ok; simpl;
  repeat split; try lia; repeat constructor; simpl; lia.

(** An exit cannot be two things. *)
Ltac absurd_exit :=
  match goal with
  | H : _ = _ \/ _ = _ |- _ => destruct H; discriminate
  end.


(** ** Machine integers, bytes and memory *)

Lemma to_int_id z : Int.is_int z -> Int.to_int z = z.
Proof.
  unfold Int.is_int, Int.to_int. intros H.
  rewrite Z.mod_small by lia. lia.
Qed.

Lemma to_int64_id z : Int.is_int64 z -> Int.to_int64 z = z.
Proof.
  unfold Int.is_int64, Int.to_int64. intros H.
  rewrite Z.mod_small by lia. lia.
Qed.

Lemma le_bytes_length n z : length (Bytes.le_bytes n z) = n.
Proof. unfold Bytes.le_bytes. now rewrite length_map, length_seq. Qed.

Lemma of_int_length z : length (Bytes.of_int z) = 4%nat.
Proof. apply le_bytes_length. Qed.

Lemma of_int64_length z : length (Bytes.of_int64 z) = 8%nat.
Proof. apply le_bytes_length. Qed.

Lemma load_length m addr n : length (load m addr n) = Z.to_nat n.
Proof. unfold load. now rewrite length_map, length_seq. Qed.

(** ** Events of one call *)

Section Loops.

Variable L : Libav.

(** The retry loop sends the same frame at every turn, goes on after
    every result other than 0 and stops at the first 0. *)
Lemma send_loop_events fuel f fr :
  forall e idx,
  exists rets,
    snd (send_loop L fuel f fr e idx) = map (SendFrame f) rets
    /\ Forall (fun r => r <> 0) (removelast rets)
    /\ (if fst (fst (fst (send_loop L fuel f fr e idx)))
        then rets <> [] /\ last rets 1 = 0
        else Forall (fun r => r <> 0) rets /\ length rets = fuel).
Proof.
  induction fuel as [|n IH]; intros e idx; simpl.
  - exists []. simpl. repeat split; constructor.
  - destruct (avcodec_send_frame L e f) as [e1 ret] eqn:Hs.
    destruct (Z.eqb_spec ret 0) as [->|Hne].
    + exists [0]. simpl. repeat split; try constructor. discriminate.
    + destruct (IH e1 idx) as (rets & Hev & Hinit & Hend).
      destruct (send_loop L n f fr e1 idx) as [[[ended e2] idx2] evs].
      simpl in *. subst evs.
      exists (ret :: rets). simpl. split; [reflexivity|]. split.
      * destruct rets; constructor; assumption.
      * destruct ended.
        -- destruct Hend as [Hnil Hlast]. split; [discriminate|].
           destruct rets; [contradiction | exact Hlast].
        -- destruct Hend as [Hall Hlen]. split.
           ++ constructor; assumption.
           ++ now rewrite Hlen.
Qed.

(** An envelope is written exactly when [serialize] gives it. *)
Lemma outcome_written (m : Mem) (p : AVPacket) (env : Envelope.Writer) :
  Envelope.outcome m p = Envelope.Written env <->
  Envelope.serialize m p = Some env.
Proof.
  unfold Envelope.serialize.
  destruct (Envelope.outcome m p); split; intros H;
    try discriminate; inversion H; reflexivity.
Qed.

(** The drain loop publishes each packet it receives with a non-negative
    result at once, and stops at the first packet it cannot publish or
    at the first negative result. *)
Lemma drain_loop_events fuel message tb :
  forall e ovr,
  exists ps tail,
    snd (drain_loop L fuel message tb e ovr)
    = drained_events message ps ++ tail
    /\ Forall (drained_ok tb) ps
    /\ match fst (fst (fst (drain_loop L fuel message tb e ovr))) with
       | Returned => exists ret p, tail = [ReceivePacket ret p] /\ ret < 0
       | Faulted => exists ret p, tail = [ReceivePacket ret p] /\ 0 <= ret
       | Threw =>
           exists ret p,
             0 <= ret
             /\ (tail = [ReceivePacket ret p]
                 \/ exists env,
                     drained_ok tb (ret, p, env)
                     /\ tail = [ReceivePacket ret p;
                                PublishFn (compressed_of message env)])
       | Spinning => tail = [] /\ length ps = fuel
       end.
Proof.
  induction fuel as [|n IH]; intros e ovr; simpl.
  - exists [], []. simpl. repeat split; constructor.
  - destruct (avcodec_receive_packet L e) as [[e1 ret] p] eqn:Hr.
    destruct (Z.geb_spec ret 0) as [Hge|Hlt].
    + destruct (Envelope.outcome (memory L e1) (rescale_packet tb p))
        as [env| |] eqn:Hser.
      * assert (Hok1 : drained_ok tb (ret, p, env)).
        { split; simpl; [lia|]. exists (memory L e1).
          apply outcome_written. exact Hser. }
        destruct (publish_fn L (compressed_of message env)).
        -- destruct (IH e1 (ovr || Envelope.overrun env))
             as (ps & tail & Hev & Hok & Hx).
           destruct (drain_loop L n message tb e1
                                (ovr || Envelope.overrun env))
             as [[[x e2] ovr2] evs].
           simpl in *. subst evs.
           exists ((ret, p, env) :: ps), tail. simpl.
           split; [reflexivity|]. split.
           ++ constructor; assumption.
           ++ destruct x; try assumption.
              destruct Hx as [Ht Hl]. split; [assumption|]. now rewrite Hl.
        -- exists [], [ReceivePacket ret p;
                       PublishFn (compressed_of message env)]. simpl.
           split; [reflexivity|]. split; [constructor|].
           exists ret, p. split; [lia|]. right. exists env.
           split; [exact Hok1 | reflexivity].
      * exists [], [ReceivePacket ret p]. simpl.
        split; [reflexivity|]. split; [constructor|].
        exists ret, p. split; [lia|]. left. reflexivity.
      * exists [], [ReceivePacket ret p]. simpl.
        split; [reflexivity|]. split; [constructor|].
        exists ret, p. split; [reflexivity | lia].
    + exists [], [ReceivePacket ret p]. simpl.
      split; [reflexivity|]. split; [constructor|].
      exists ret, p. split; [reflexivity | lia].
Qed.

(** *** Fuel

    Once a loop has ended within its fuel, more fuel changes nothing:
    the result is the result of the loop itself. *)

Lemma send_loop_more fuel k f fr :
  forall e idx,
    fst (fst (fst (send_loop L fuel f fr e idx))) = true ->
    send_loop L (fuel + k) f fr e idx = send_loop L fuel f fr e idx.
Proof.
  induction fuel as [|n IH]; intros e idx; simpl.
  - discriminate.
  - destruct (avcodec_send_frame L e f) as [e1 ret].
    destruct (ret =? 0); [reflexivity|].
    intros Hend. rewrite IH; [reflexivity|].
    destruct (send_loop L n f fr e1 idx) as [[[ended e2] idx2] evs].
    exact Hend.
Qed.

Lemma drain_loop_more fuel k message tb :
  forall e ovr,
    fst (fst (fst (drain_loop L fuel message tb e ovr))) <> Spinning ->
    drain_loop L (fuel + k) message tb e ovr
    = drain_loop L fuel message tb e ovr.
Proof.
  induction fuel as [|n IH]; intros e ovr; simpl.
  - congruence.
  - destruct (avcodec_receive_packet L e) as [[e1 ret] p].
    destruct (ret >=? 0); [|reflexivity].
    destruct (Envelope.outcome (memory L e1) (rescale_packet tb p))
      as [env| |]; [|reflexivity|reflexivity].
    destruct (publish_fn L (compressed_of message env)); [|reflexivity].
    intros Hx. rewrite IH; [reflexivity|].
    destruct (drain_loop L n message tb e1 (ovr || Envelope.overrun env))
      as [[[x e2] ovr2] evs].
    exact Hx.
Qed.

End Loops.

Section Calls.

Variable L : Libav.

(** Without one of its three working objects [encode] dies at once. *)
Lemma encode_cases fuel message (w : World L) :
  (exists inF sws outF,
      avInFrame_ (this w) = Some inF
      /\ swsCtx_ (this w) = Some sws
      /\ avOutFrame_ (this w) = Some outF)
  \/ encode fuel message w = {| exit := Faulted; world := w; events := [] |}.
Proof.
  unfold encode. cbv zeta.
  destruct (avInFrame_ (this w)) as [inF|]; [|now right].
  destruct (swsCtx_ (this w)) as [sws|]; [|now right].
  destruct (avOutFrame_ (this w)) as [outF|]; [|now right].
  left. exists inF, sws, outF. repeat split.
Qed.

(** Encoding never touches the context, the input frame or the scaling
    context; of the output frame it changes the timestamp only. *)
Lemma encode_keeps fuel message (w : World L) :
  let r := encode fuel message w in
  context_ (this (world r)) = context_ (this w)
  /\ avInFrame_ (this (world r)) = avInFrame_ (this w)
  /\ swsCtx_ (this (world r)) = swsCtx_ (this w)
  /\ untimed (avOutFrame_ (this (world r))) = untimed (avOutFrame_ (this w)).
Proof.
  cbv zeta.
  destruct (encode_cases fuel message w)
    as [(inF & sws & outF & Hin & Hsws & Hout) | ->].
  2: { simpl. auto. }
  unfold encode. cbv zeta. rewrite Hin, Hsws, Hout.
  destruct (avcodec_send_frame L (encoder w) _) as [e0 ret0].
  destruct (send_loop L fuel _ _ e0 _) as [[[ended e1] idx] sends].
  destruct ended.
  - destruct (drain_loop L fuel message _ e1 _) as [[[x e2] ovr] drained].
    simpl. auto.
  - simpl. auto.
Qed.

(** With its working objects in place, a call to [encode] stamps the
    output frame with the frame counter and increments the counter. *)
Lemma encode_counts fuel message (w : World L) inF sws outF :
  avInFrame_ (this w) = Some inF ->
  swsCtx_ (this w) = Some sws ->
  avOutFrame_ (this w) = Some outF ->
  let r := encode fuel message w in
  frameCount_ (this (world r)) = frameCount_ (this w) + 1
  /\ avOutFrame_ (this (world r))
     = Some (Frame.set_pts outF (frameCount_ (this w))).
Proof.
  intros Hin Hsws Hout. unfold encode. cbv zeta. rewrite Hin, Hsws, Hout.
  destruct (avcodec_send_frame L (encoder w) _) as [e0 ret0].
  destruct (send_loop L fuel _ _ e0 _) as [[[ended e1] idx] sends].
  destruct ended; simpl.
  - destruct (drain_loop L fuel message _ e1 _) as [[[x e2] ovr] drained].
    simpl. auto.
  - auto.
Qed.

(** The events of [encode] on a publisher with its working objects: the
    frame stamped with the counter is sent once before the loop, then
    once per turn of the retry loop; packets are received and published
    only after the last send. *)
Lemma encode_events fuel message (w : World L) inF sws outF :
  avInFrame_ (this w) = Some inF ->
  swsCtx_ (this w) = Some sws ->
  avOutFrame_ (this w) = Some outF ->
  let f := Frame.set_pts outF (frameCount_ (this w)) in
  let r := encode fuel message w in
  exists ret0 rets rest,
    events r = SendFrame f ret0 :: map (SendFrame f) rets ++ rest
    /\ ret0 = snd (avcodec_send_frame L (encoder w) f)
    /\ Forall (fun x => x <> 0) (removelast rets)
    /\ ((exit r = Spinning /\ rest = []
         /\ Forall (fun x => x <> 0) rets /\ length rets = fuel)
        \/ (rets <> [] /\ last rets 1 = 0
            /\ exists ps tail,
                rest = drained_events message ps ++ tail
                /\ Forall (drained_ok (time_base (context_ (this w)))) ps
                /\ match exit r with
                   | Returned =>
                       exists ret p,
                         tail = [ReceivePacket ret p; Unlock] /\ ret < 0
                   | Faulted =>
                       exists ret p,
                         tail = [ReceivePacket ret p] /\ 0 <= ret
                   | Threw =>
                       exists ret p,
                         0 <= ret
                         /\ (tail = [ReceivePacket ret p; Unlock]
                             \/ exists env,
                                 drained_ok (time_base (context_ (this w)))
                                            (ret, p, env)
                                 /\ tail
                                    = [ReceivePacket ret p;
                                       PublishFn (compressed_of message env);
                                       Unlock])
                   | Spinning => tail = [] /\ length ps = fuel
                   end)).
Proof.
  intros Hin Hsws Hout f. unfold encode. cbv zeta.
  rewrite Hin, Hsws, Hout. fold f.
  destruct (avcodec_send_frame L (encoder w) f) as [e0 ret0] eqn:Hs0.
  destruct (send_loop_events L fuel f
              (num (framerate (context_ (this w)))) e0 (frameIdx (this w)))
    as (rets & Hev & Hinit & Hend).
  destruct (send_loop L fuel f _ e0 _) as [[[ended e1] idx] sends].
  simpl in Hev, Hend. subst sends.
  destruct ended.
  - destruct Hend as [Hnil Hlast].
    destruct (drain_loop_events L fuel message
                (time_base (context_ (this w))) e1 (heap_overrun w))
      as (ps & tail & Hd & Hok & Hx).
    destruct (drain_loop L fuel message _ e1 _) as [[[x e2] ovr] drained].
    simpl in Hd, Hx. subst drained. cbn [exit events].
    exists ret0, rets.
    exists ((drained_events message ps ++ tail)
              ++ match x with
                 | Returned | Threw => [Unlock]
                 | Faulted | Spinning => []
                 end).
    split; [now rewrite app_assoc|]. split; [reflexivity|].
    split; [assumption|]. right. split; [assumption|]. split; [assumption|].
    exists ps.
    exists (tail ++ match x with
                    | Returned | Threw => [Unlock]
                    | Faulted | Spinning => []
                    end).
    split; [now rewrite app_assoc|]. split; [assumption|].
    destruct x.
    + destruct Hx as (ret & p & -> & Hneg). exists ret, p. now split.
    + destruct Hx as (ret & p & -> & Hpos). exists ret, p.
      rewrite app_nil_r. now split.
    + destruct Hx as (ret & p & Hpos & [-> | (env & Hok1 & ->)]);
        exists ret, p; (split; [assumption|]).
      * now left.
      * right. exists env. now split.
    + destruct Hx as [-> Hl]. now split.
  - destruct Hend as [Hall Hlen]. cbn [exit events].
    exists ret0, rets, []. rewrite app_nil_r.
    split; [reflexivity|]. split; [reflexivity|]. split; [assumption|].
    left. repeat split; assumption.
Qed.

(** Received packets and published envelopes are not submissions. *)
Lemma drained_events_no_send message ps :
  Forall (fun e => is_send e = false) (drained_events message ps).
Proof.
  induction ps as [|x ps IH]; simpl; repeat constructor; assumption.
Qed.

Lemma drained_events_no_config message ps :
  Forall (fun e => is_config_event e = false) (drained_events message ps).
Proof.
  induction ps as [|x ps IH]; simpl; repeat constructor; assumption.
Qed.

Lemma last_zero_not_all_nonzero (rets : list Z) :
  rets <> [] -> last rets 1 = 0 -> ~ Forall (fun x => x <> 0) rets.
Proof.
  induction rets as [|r rets IH]; [congruence|].
  intros _ Hlast Hall. inversion Hall as [|? ? Hr Hrest]; subst.
  destruct rets as [|r' rets'].
  - simpl in Hlast. contradiction.
  - apply IH; [discriminate | exact Hlast | exact Hrest].
Qed.

(** What follows the submissions of [encode] holds no submission and no
    configuration event. *)
Lemma encode_rest fuel message (w : World L) inF sws outF :
  avInFrame_ (this w) = Some inF ->
  swsCtx_ (this w) = Some sws ->
  avOutFrame_ (this w) = Some outF ->
  exists ret0 rets rest,
    events (encode fuel message w)
    = SendFrame (Frame.set_pts outF (frameCount_ (this w))) ret0
        :: map (SendFrame (Frame.set_pts outF (frameCount_ (this w)))) rets
        ++ rest
    /\ Forall (fun e => is_send e = false) rest
    /\ Forall (fun e => is_config_event e = false) rest.
Proof.
  intros Hin Hsws Hout.
  destruct (encode_events fuel message w Hin Hsws Hout)
    as (ret0 & rets & rest & Hev & _ & _ & Hcases).
  exists ret0, rets, rest. split; [exact Hev|].
  destruct Hcases as [(_ & -> & _) | (_ & _ & ps & tail & -> & _ & Hx)].
  - split; constructor.
  - assert (Ht : Forall (fun e => is_send e = false) tail
                 /\ Forall (fun e => is_config_event e = false) tail).
    { destruct (exit (encode fuel message w)).
      - destruct Hx as (ret & p & -> & _). split; repeat constructor.
      - destruct Hx as (ret & p & -> & _). split; repeat constructor.
      - destruct Hx as (ret & p & _ & [-> | (env & _ & ->)]);
          split; repeat constructor.
      - destruct Hx as [-> _]. split; constructor. }
    destruct Ht as [Hs Hc]. split; apply Forall_app; split;
      try assumption;
      [apply drained_events_no_send | apply drained_events_no_config].
Qed.

(** Apart from the picture size, [avcodec_open2] leaves the context as
    it finds it. *)
Lemma ff_set_dimensions_keeps (c : AVCodecContext) :
  pix_fmt (ff_set_dimensions c) = pix_fmt c
  /\ codec_type (ff_set_dimensions c) = codec_type c
  /\ time_base (ff_set_dimensions c) = time_base c
  /\ framerate (ff_set_dimensions c) = framerate c
  /\ gop_size (ff_set_dimensions c) = gop_size c
  /\ thread_count (ff_set_dimensions c) = thread_count c
  /\ max_b_frames (ff_set_dimensions c) = max_b_frames c
  /\ sw_pix_fmt (ff_set_dimensions c) = sw_pix_fmt c
  /\ refs (ff_set_dimensions c) = refs c
  /\ priv_data (ff_set_dimensions c) = priv_data c.
Proof.
  unfold ff_set_dimensions.
  destruct (av_image_check_size2 (width c) (height c)); repeat split.
Qed.

(** A picture size is either left as it is or replaced by 0 x 0. *)
Lemma ff_set_dimensions_size (c : AVCodecContext) :
  (av_image_check_size2 (width c) (height c) = true
   /\ ff_set_dimensions c = c)
  \/ (av_image_check_size2 (width c) (height c) = false
      /\ width (ff_set_dimensions c) = 0
      /\ height (ff_set_dimensions c) = 0).
Proof.
  unfold ff_set_dimensions.
  destruct (av_image_check_size2 (width c) (height c)).
  - left. split; reflexivity.
  - right. repeat split.
Qed.

(** With the guard set, [publish] is the lock followed by [encode]. *)
Lemma publish_guarded fuel message (w : World L) :
  height (context_ (this w)) <> 0 ->
  publish fuel message w
  = {| exit := exit (encode fuel message w);
       world := world (encode fuel message w);
       events := Lock :: events (encode fuel message w) |}.
Proof.
  intros Hh. unfold publish.
  destruct (Z.eqb_spec (height (context_ (this w))) 0); [contradiction|].
  reflexivity.
Qed.

(** What the configuration block leaves behind: the context carries the
    assignments of lines 115-151, with the picture size as
    [avcodec_open2] leaves it when the block gets that far. *)
Lemma configure_spec message (w : World L) :
  let go := fst (fst (configure message w)) in
  let w1 := snd (fst (configure message w)) in
  let cfg := snd (configure message w) in
  context_ (this w1)
  = (if pixel_format_ok L
     then ff_set_dimensions (configure_context message (context_ (this w)))
     else configure_context message (context_ (this w)))
  /\ frameCount_ (this w1) = frameCount_ (this w)
  /\ frameIdx (this w1) = frameIdx (this w)
  /\ Forall (fun e => is_config_event e = true) cfg
  /\ (if go
      then pixel_format_ok L = true
           /\ 0 <= snd (avcodec_open2 L (encoder w)
                          (configure_context message (context_ (this w))))
           /\ In (Open (snd (avcodec_open2 L (encoder w)
                          (configure_context message (context_ (this w))))))
                 cfg
      else avInFrame_ (this w1) = avInFrame_ (this w)
           /\ avOutFrame_ (this w1) = avOutFrame_ (this w)
           /\ swsCtx_ (this w1) = swsCtx_ (this w)
           /\ (forall c, ~ In (PublishFn c) cfg)
           /\ (pixel_format_ok L = false
               \/ snd (avcodec_open2 L (encoder w)
                         (configure_context message (context_ (this w))))
                  < 0)).
Proof.
  unfold configure. cbv zeta.
  destruct (pixel_format_ok L) eqn:Hpf; simpl.
  2: { repeat split; auto. }
  destruct (avcodec_open2 L (encoder w) _) as [e ret] eqn:Ho.
  destruct (Z.ltb_spec ret 0) as [Hlt|Hge]; simpl.
  - repeat split; auto; try (intros c [Hc | []]; discriminate).
  - destruct (av_frame_alloc L e) as [e1 in_ok].
    destruct in_ok; simpl.
    + destruct (sws_getContext L e1 _) as [e2 sws_ok].
      destruct (av_frame_alloc L e2) as [e3 out_ok]. simpl.
      repeat split; auto; repeat constructor.
    + repeat split; auto; repeat constructor.
Qed.

(** When the block is left at its end with all three allocations
    answered, the working objects are in place, with the frame's size on
    the input side and the context's on the output side. *)
Lemma configure_allocated message (w : World L) :
  (forall e, snd (av_frame_alloc L e) = true) ->
  (forall e c, snd (sws_getContext L e c) = true) ->
  fst (fst (configure message w)) = true ->
  let w1 := snd (fst (configure message w)) in
  exists inF sws outF,
    avInFrame_ (this w1) = Some inF
    /\ swsCtx_ (this w1) = Some sws
    /\ avOutFrame_ (this w1) = Some outF
    /\ Frame.width inF = Int.to_int (Msg.width message)
    /\ Frame.height inF = Int.to_int (Msg.height message)
    /\ outF = {| Frame.width := width (context_ (this w1));
                 Frame.height := height (context_ (this w1));
                 Frame.format := AV_PIX_FMT_YUV420P;
                 Frame.pts := Rescale.AV_NOPTS_VALUE |}.
Proof.
  intros Hfa Hsw. unfold configure. cbv zeta.
  destruct (pixel_format_ok L); simpl; [|discriminate].
  destruct (avcodec_open2 L (encoder w) _) as [e ret].
  destruct (ret <? 0); simpl; [discriminate|].
  pose proof (Hfa e) as Hin.
  destruct (av_frame_alloc L e) as [e1 in_ok]. simpl in Hin. subst in_ok.
  simpl.
  match goal with
  | |- context [sws_getContext L e1 ?c] =>
      pose proof (Hsw e1 c) as Hs;
      destruct (sws_getContext L e1 c) as [e2 sws_ok]
  end.
  simpl in Hs. subst sws_ok.
  pose proof (Hfa e2) as Hout.
  destruct (av_frame_alloc L e2) as [e3 out_ok]. simpl in Hout. subst out_ok.
  simpl. intros _.
  eexists. eexists. eexists. repeat split.
  unfold ff_set_dimensions.
  destruct (av_image_check_size2 _ _); reflexivity.
Qed.

(** The output frame the block stores is made after the context. *)
Lemma configure_out_frame message (w : World L) (o : Frame.AVFrame) :
  avOutFrame_ (this w) = None ->
  avOutFrame_ (this (snd (fst (configure message w)))) = Some o ->
  o = {| Frame.width := width (context_ (this (snd (fst (configure message w)))));
         Frame.height :=
           height (context_ (this (snd (fst (configure message w)))));
         Frame.format := AV_PIX_FMT_YUV420P;
         Frame.pts := Rescale.AV_NOPTS_VALUE |}.
Proof.
  intros Hnone. unfold configure. cbv zeta.
  destruct (pixel_format_ok L); simpl; [|congruence].
  destruct (avcodec_open2 L (encoder w) _) as [e ret].
  destruct (ret <? 0); simpl; [congruence|].
  destruct (av_frame_alloc L e) as [e1 in_ok].
  destruct in_ok; simpl; [|congruence].
  destruct (sws_getContext L e1 _) as [e2 sws_ok].
  destruct (av_frame_alloc L e2) as [e3 out_ok].
  destruct out_ok; simpl; [|discriminate].
  intros Ho. injection Ho as <-.
  unfold ff_set_dimensions.
  destruct (av_image_check_size2 _ _); reflexivity.
Qed.

(** Encoding emits no configuration event. *)
Lemma encode_no_config fuel message (w : World L) :
  Forall (fun e => is_config_event e = false)
         (events (encode fuel message w)).
Proof.
  destruct (encode_cases fuel message w)
    as [(inF & sws & outF & Hin & Hsws & Hout) | ->].
  2: { constructor. }
  destruct (encode_rest fuel message w Hin Hsws Hout)
    as (ret0 & rets & rest & Hev & _ & Hc).
  rewrite Hev. constructor; [reflexivity|].
  apply Forall_app. split; [|exact Hc].
  apply Forall_forall. intros e He.
  apply in_map_iff in He. destruct He as (x & <- & _). reflexivity.
Qed.

(** A call that finds the guard set leaves the configuration as it is. *)
Lemma publish_keeps fuel message (w : World L) :
  height (context_ (this w)) <> 0 ->
  let r := publish fuel message w in
  context_ (this (world r)) = context_ (this w)
  /\ avInFrame_ (this (world r)) = avInFrame_ (this w)
  /\ swsCtx_ (this (world r)) = swsCtx_ (this w)
  /\ untimed (avOutFrame_ (this (world r))) = untimed (avOutFrame_ (this w))
  /\ Forall (fun e => is_config_event e = false) (events r).
Proof.
  intros Hh r. subst r. rewrite (publish_guarded fuel message w Hh).
  cbn [world events].
  destruct (encode_keeps fuel message w) as (Hc & Hi & Hs & Ho).
  repeat split; try assumption.
  constructor; [reflexivity | apply encode_no_config].
Qed.

(** All submissions of a call to [encode] carry the frame counter the
    call found, and the counter goes up by one exactly when the call
    submits. *)
Lemma encode_pts fuel message (w : World L) :
  let r := encode fuel message w in
  (forall f ret, In (SendFrame f ret) (events r) ->
                 Frame.pts f = frameCount_ (this w))
  /\ frameCount_ (this (world r))
     = frameCount_ (this w) + (if existsb is_send (events r) then 1 else 0).
Proof.
  cbv zeta.
  destruct (encode_cases fuel message w)
    as [(inF & sws & outF & Hin & Hsws & Hout) | ->].
  2: { simpl. split; [contradiction | lia]. }
  destruct (encode_counts fuel message w Hin Hsws Hout) as [Hcount _].
  destruct (encode_rest fuel message w Hin Hsws Hout)
    as (ret0 & rets & rest & Hev & Hns & _).
  rewrite Hev, Hcount. split; [|reflexivity].
  intros f ret [Heq | Hin'].
  - inversion Heq; subst. reflexivity.
  - apply in_app_or in Hin'. destruct Hin' as [Hm | Hr].
    + apply in_map_iff in Hm. destruct Hm as (x & Heq & _).
      inversion Heq; subst. reflexivity.
    + exfalso. rewrite Forall_forall in Hns.
      specialize (Hns _ Hr). discriminate.
Qed.

(** The same for [publish]. *)
Lemma publish_pts fuel message (w : World L) :
  let r := publish fuel message w in
  (forall f ret, In (SendFrame f ret) (events r) ->
                 Frame.pts f = frameCount_ (this w))
  /\ frameCount_ (this (world r))
     = frameCount_ (this w) + (if existsb is_send (events r) then 1 else 0).
Proof.
  unfold publish.
  destruct (Z.eqb_spec (height (context_ (this w))) 0) as [Hz|Hnz].
  - pose proof (configure_spec message w) as Hc. cbv zeta in Hc.
    destruct (configure message w) as [[go w1] cfg]. simpl in Hc.
    destruct Hc as (_ & Hfc & _ & Hcfg & _).
    assert (Hns : existsb is_send cfg = false).
    { clear -Hcfg. induction Hcfg as [|e l He _ IH]; [reflexivity|].
      simpl. rewrite IH. destruct e; try discriminate; reflexivity. }
    assert (Hnin : forall f ret, ~ In (SendFrame f ret) cfg).
    { intros f ret Hin. rewrite Forall_forall in Hcfg.
      specialize (Hcfg _ Hin). discriminate. }
    destruct go; cbn [events world].
    + destruct (encode_pts fuel message w1) as [Hs Hcount].
      simpl. rewrite existsb_app, Hns. simpl. rewrite <- Hfc. split.
      * intros f ret [Heq | Hin]; [discriminate|].
        apply in_app_or in Hin. destruct Hin as [Hin | Hin].
        -- exfalso. exact (Hnin _ _ Hin).
        -- exact (Hs _ _ Hin).
      * exact Hcount.
    + simpl. rewrite existsb_app, Hns. simpl. split; [|lia].
      intros f ret [Heq | Hin]; [discriminate|].
      apply in_app_or in Hin. destruct Hin as [Hin | [Heq | []]].
      * exfalso. exact (Hnin _ _ Hin).
      * discriminate.
  - cbn [events world]. destruct (encode_pts fuel message w) as [Hs Hcount].
    simpl. split; [|exact Hcount].
    intros f ret [Heq | Hin]; [discriminate | exact (Hs _ _ Hin)].
Qed.

(** A call on a configured session starts by submitting the frame
    stamped with the counter, leaves the session configured and
    increments the counter. *)
Lemma publish_configured fuel message (w : World L) :
  configured (this w) ->
  let r := publish fuel message w in
  configured (this (world r))
  /\ frameCount_ (this (world r)) = frameCount_ (this w) + 1
  /\ exists f ret rest,
      events r = Lock :: SendFrame f ret :: rest
      /\ Frame.pts f = frameCount_ (this w).
Proof.
  intros (Hh & Hin & Hout & Hsws) r. subst r.
  rewrite (publish_guarded fuel message w Hh). cbn [world events].
  destruct (avInFrame_ (this w)) as [inF|] eqn:Ein; [|congruence].
  destruct (avOutFrame_ (this w)) as [outF|] eqn:Eout; [|congruence].
  destruct (swsCtx_ (this w)) as [sws|] eqn:Esws; [|congruence].
  destruct (encode_keeps fuel message w) as (Hc & Hi & Hs & _).
  destruct (encode_counts fuel message w Ein Esws Eout) as [Hcount Hof].
  destruct (encode_events fuel message w Ein Esws Eout)
    as (ret0 & rets & rest & Hev & _).
  split; [|split].
  - unfold configured. rewrite Hc, Hi, Hs, Hof, Ein, Esws.
    repeat split; congruence.
  - exact Hcount.
  - rewrite Hev. eexists. eexists. eexists. split; reflexivity.
Qed.

(** Over a sequence of returned calls on a configured session the
    counter goes up by the number of calls. *)
Lemma publish_all_configured fuel :
  forall (messages : list Msg.Image) (w : World L),
    configured (this w) ->
    exit (publish_all fuel messages w) = Returned ->
    configured (this (world (publish_all fuel messages w)))
    /\ frameCount_ (this (world (publish_all fuel messages w)))
       = frameCount_ (this w) + Z.of_nat (length messages).
Proof.
  induction messages as [|message rest IH]; intros w Hcfg; simpl.
  - intros _. split; [assumption | lia].
  - destruct (publish_configured fuel message w Hcfg) as (Hcfg' & Hcount & _).
    destruct (exit (publish fuel message w)) eqn:Hx; cbn [exit world];
      try (rewrite Hx; discriminate).
    intros Hall. destruct (IH _ Hcfg' Hall) as [Hc Hn].
    split; [assumption|]. rewrite Hn, Hcount. lia.
Qed.

(** A call that has ended within its fuel does the same with more
    fuel. *)
Lemma encode_more fuel k message (w : World L) :
  exit (encode fuel message w) <> Spinning ->
  encode (fuel + k) message w = encode fuel message w.
Proof.
  unfold encode. cbv zeta.
  destruct (avInFrame_ (this w)) as [inF|]; [|reflexivity].
  destruct (swsCtx_ (this w)) as [sws|]; [|reflexivity].
  destruct (avOutFrame_ (this w)) as [outF|]; [|reflexivity].
  destruct (avcodec_send_frame L (encoder w) _) as [e0 ret0].
  pose proof (send_loop_more L fuel k
                (Frame.set_pts outF (frameCount_ (this w)))
                (num (framerate (context_ (this w)))) e0 (frameIdx (this w)))
    as Hs.
  destruct (send_loop L fuel _ _ e0 _) as [[[ended e1] idx] sends].
  destruct ended; simpl fst in Hs.
  - rewrite (Hs eq_refl).
    pose proof (drain_loop_more L fuel k message
                  (time_base (context_ (this w))) e1 (heap_overrun w)) as Hd.
    destruct (drain_loop L fuel message _ e1 _) as [[[x e2] ovr] drained].
    simpl in Hd. cbn [exit]. intros Hx. rewrite (Hd Hx). reflexivity.
  - cbn [exit]. congruence.
Qed.

Lemma publish_more fuel k message (w : World L) :
  exit (publish fuel message w) <> Spinning ->
  publish (fuel + k) message w = publish fuel message w.
Proof.
  unfold publish.
  destruct (height (context_ (this w)) =? 0).
  - destruct (configure message w) as [[go w1] cfg].
    destruct go; [|reflexivity].
    cbn [exit]. intros Hx. now rewrite (encode_more fuel k message w1 Hx).
  - cbn [exit]. intros Hx. now rewrite (encode_more fuel k message w Hx).
Qed.

End Calls.

(** ** The submit protocol *)

(** C10.  On a call with a configured session (guard set, working frames
    and scaling context allocated) the frame stamped with the frame
    counter is handed to the encoder once before the retry loop, whatever
    that first result is, and then once more per turn of the retry loop,
    which always takes at least one turn: two submissions of the same
    frame at least.  The loop goes on after every result other than 0: as
    long as the encoder answers with non-zero results the call keeps
    sending and never leaves the loop.  With both frames and a null
    scaling context the process dies in [sws_scale] before anything is
    sent. *)
Theorem frame_is_sent_twice :
  forall (L : Libav) (fuel : nat) (message : Msg.Image) (w : World L)
         (inF outF : Frame.AVFrame),
    height (context_ (this w)) <> 0 ->
    avInFrame_ (this w) = Some inF ->
    avOutFrame_ (this w) = Some outF ->
    let f := Frame.set_pts outF (frameCount_ (this w)) in
    let r := publish (S fuel) message w in
    (swsCtx_ (this w) <> None ->
     exists ret0 ret1 rets rest,
       events r
       = Lock :: SendFrame f ret0 :: SendFrame f ret1
           :: map (SendFrame f) rets ++ rest
       /\ ret0 = snd (avcodec_send_frame L (encoder w) f)
       /\ Frame.pts f = frameCount_ (this w)
       /\ Forall (fun e => is_send e = false) rest
       /\ Forall (fun x => x <> 0) (removelast (ret1 :: rets))
       /\ (Forall (fun x => x <> 0) (ret1 :: rets) ->
           exit r = Spinning /\ rest = []
           /\ length (ret1 :: rets) = S fuel))
    /\ (swsCtx_ (this w) = None ->
        exit r = Faulted /\ events r = [Lock]).
Proof.
  intros L fuel message w inF outF Hh Hin Hout f r.
  subst r. rewrite (publish_guarded (S fuel) message w Hh). cbn [events exit].
  split.
  2: { intros Hnone. unfold encode. cbv zeta. rewrite Hin, Hnone.
       split; reflexivity. }
  intros Hsome.
  destruct (swsCtx_ (this w)) as [sws|] eqn:Hsws; [clear Hsome|congruence].
  destruct (encode_events (S fuel) message w Hin Hsws Hout)
    as (ret0 & rets & rest & Hev & Hret0 & Hinit & Hcases).
  fold f in Hev, Hret0. rewrite Hev.
  destruct rets as [|ret1 rets].
  - exfalso. destruct Hcases as [(_ & _ & _ & Hlen) | (Hnil & _)].
    + discriminate Hlen.
    + now apply Hnil.
  - exists ret0, ret1, rets, rest.
    split; [reflexivity|]. split; [assumption|]. split; [reflexivity|].
    destruct Hcases as [(Hx & Hrest & Hall & Hlen)
                       | (Hnil & Hlast & ps & tail & Hrest & Hok & Hx)].
    + subst rest. split; [constructor|]. split; [assumption|].
      intros _. repeat split; assumption.
    + split.
      * subst rest. apply Forall_app. split.
        -- apply drained_events_no_send.
        -- destruct (exit (encode (S fuel) message w)).
           ++ destruct Hx as (ret & p & -> & _). repeat constructor.
           ++ destruct Hx as (ret & p & -> & _). repeat constructor.
           ++ destruct Hx as (ret & p & _ & [-> | (env & _ & ->)]);
                repeat constructor.
           ++ destruct Hx as [-> _]. constructor.
      * split; [assumption|].
        intros Hall. exfalso.
        exact (last_zero_not_all_nonzero Hnil Hlast Hall).
Qed.

(** ** Lazy configuration *)

(** C5.  Once the guard is set (the stored height is not 0), every later
    call skips the configuration block: over any sequence of calls the
    context keeps all its fields (width, height, pixel format, time base,
    frame rate, gop size, thread count, max B-frames, refs, preset and
    crf), the input frame and the scaling context are the ones allocated
    before, the output frame changes in its timestamp only, and no call
    opens the encoder, allocates a frame or creates a scaling context. *)
Theorem configuration_is_kept :
  forall (L : Libav) (fuel : nat) (messages : list Msg.Image) (w : World L),
    height (context_ (this w)) <> 0 ->
    let r := publish_all fuel messages w in
    context_ (this (world r)) = context_ (this w)
    /\ avInFrame_ (this (world r)) = avInFrame_ (this w)
    /\ swsCtx_ (this (world r)) = swsCtx_ (this w)
    /\ untimed (avOutFrame_ (this (world r))) = untimed (avOutFrame_ (this w))
    /\ Forall (fun e => is_config_event e = false) (events r).
Proof.
  intros L fuel messages.
  induction messages as [|message rest IH]; intros w Hh; simpl.
  - repeat split; constructor.
  - destruct (publish_keeps fuel message w Hh) as (Hc & Hi & Hs & Ho & He).
    destruct (exit (publish fuel message w)) eqn:Hx.
    + assert (Hh' : height (context_ (this (world (publish fuel message w)))) <> 0)
        by (rewrite Hc; exact Hh).
      destruct (IH (world (publish fuel message w)) Hh')
        as (Hc' & Hi' & Hs' & Ho' & He').
      cbn [world events].
      split; [congruence|]. split; [congruence|]. split; [congruence|].
      split; [congruence|]. apply Forall_app. split; assumption.
    + repeat split; assumption.
    + repeat split; assumption.
    + repeat split; assumption.
Qed.

(** ** Timestamps *)

(** Rescaling a non-negative value by [b / b] with rounding to nearest
    gives the value back. *)
Lemma rescale_nonneg_same (a b : Z) :
  0 <= a <= Int.INT64_MAX ->
  0 < b ->
  Rescale.rescale_nonneg a b b Rescale.AV_ROUND_NEAR_INF = a.
Proof.
  intros Ha Hb. unfold Rescale.rescale_nonneg, Rescale.round_term.
  rewrite Z.eqb_refl.
  assert (Hr : 0 <= Z.quot b 2 < b).
  { rewrite Z.quot_div_nonneg by lia. split.
    - apply Z.div_pos; lia.
    - apply Z.div_lt_upper_bound; lia. }
  assert (Hq : Z.quot (a * b + Z.quot b 2) b = a).
  { rewrite Z.quot_div_nonneg by nia.
    rewrite Z.div_add_l by lia. rewrite Z.div_small by lia. lia. }
  destruct ((b <=? Int.INT_MAX) && (b <=? Int.INT_MAX)).
  - destruct (a <=? Int.INT_MAX); [exact Hq|].
    assert (Hrem : 0 <= Z.rem a b < b) by (apply Z.rem_bound_pos; lia).
    assert (Ha2 : Z.quot (Z.rem a b * b + Z.quot b 2) b = Z.rem a b).
    { rewrite Z.quot_div_nonneg by nia.
      rewrite Z.div_add_l by lia. rewrite Z.div_small by lia. lia. }
    rewrite Ha2.
    assert (Hdecomp : a = b * Z.quot a b + Z.rem a b)
      by (apply Z.quot_rem'; lia).
    assert (Had : 0 <= Z.quot a b) by (apply Z.quot_pos; lia).
    assert (Hle : Z.quot a b <= Z.quot (Int.INT64_MAX - Z.rem a b) b).
    { rewrite (Z.quot_div_nonneg (Int.INT64_MAX - Z.rem a b)) by lia.
      apply Z.div_le_lower_bound; [lia|]. lia. }
    replace (Z.quot a b >? Z.quot (Int.INT64_MAX - Z.rem a b) b) with false.
    + rewrite andb_false_r. lia.
    + symmetry. rewrite Z.gtb_ltb. apply Z.ltb_ge. exact Hle.
  - rewrite Hq.
    replace (a >? Int.INT64_MAX) with false; [reflexivity|].
    symmetry. rewrite Z.gtb_ltb. apply Z.ltb_ge. lia.
Qed.

(** [av_rescale_rnd a b b] leaves every [int64_t] other than [INT64_MIN]
    as it is. *)
Lemma av_rescale_rnd_same (a b : Z) :
  Int.is_int64 a ->
  a <> Int.INT64_MIN ->
  0 < b ->
  Rescale.av_rescale_rnd a b b Rescale.AV_ROUND_NEAR_INF = a.
Proof.
  unfold Int.is_int64. intros Ha Hmin Hb. unfold Rescale.av_rescale_rnd.
  assert (H63 : 2 ^ 63 = 9223372036854775808) by reflexivity.
  unfold Int.INT64_MIN in Hmin.
  replace (b <=? 0) with false by (symmetry; apply Z.leb_gt; lia).
  replace (b <? 0) with false by (symmetry; apply Z.ltb_ge; lia).
  simpl orb. cbv iota.
  destruct (Z.ltb_spec a 0) as [Hneg|Hpos].
  - replace (Z.max a (- Int.INT64_MAX)) with a
      by (unfold Int.INT64_MAX; lia).
    change (Z.lxor Rescale.AV_ROUND_NEAR_INF
              (Z.land (Z.shiftr Rescale.AV_ROUND_NEAR_INF 1) 1))
      with Rescale.AV_ROUND_NEAR_INF.
    rewrite rescale_nonneg_same by (unfold Int.INT64_MAX; lia).
    rewrite to_int64_id by (unfold Int.is_int64; lia). lia.
  - apply rescale_nonneg_same; [unfold Int.INT64_MAX; lia | assumption].
Qed.

(** The guarded rescale of lines 290-304 is the identity whenever the
    time base has a positive numerator and denominator product. *)
Lemma scale_timestamp_same (tb : AVRational) (ts : Z) :
  0 < num tb * den tb < 2 ^ 63 ->
  Int.is_int64 ts ->
  Rescale.scale_timestamp tb ts = ts.
Proof.
  intros Htb Hts. unfold Rescale.scale_timestamp.
  destruct (Z.eqb_spec ts Rescale.AV_NOPTS_VALUE) as [He|Hne]; simpl.
  - reflexivity.
  - unfold Rescale.av_rescale_q.
    rewrite to_int64_id by (unfold Int.is_int64; lia).
    apply av_rescale_rnd_same; [assumption | exact Hne | lia].
Qed.

(** From a fresh publisher on, whenever the working frames exist the
    time base is 1/30: this is the time base of every drain. *)
Lemma publish_timed (L : Libav) fuel message (w : World L) :
  timed (this w) -> timed (this (world (publish fuel message w))).
Proof.
  intros Ht. unfold publish.
  destruct (height (context_ (this w)) =? 0).
  - pose proof (configure_spec message w) as Hc. cbv zeta in Hc.
    destruct (configure message w) as [[go w1] cfg]. simpl in Hc.
    destruct Hc as (Hctx & _).
    assert (Htb : time_base (context_ (this w1)) = {| num := 1; den := 30 |}).
    { rewrite Hctx. destruct (pixel_format_ok L); [|reflexivity].
      destruct (ff_set_dimensions_keeps
                  (configure_context message (context_ (this w))))
        as (_ & _ & -> & _). reflexivity. }
    destruct go; cbn [world].
    + destruct (encode_keeps fuel message w1) as (Hk & _).
      right. rewrite Hk. exact Htb.
    + right. exact Htb.
  - cbn [world].
    destruct (encode_keeps fuel message w) as (Hk & Hi & _).
    destruct Ht as [Hn | Htb].
    + left. now rewrite Hi.
    + right. now rewrite Hk.
Qed.

Lemma publish_all_timed (L : Libav) fuel :
  forall (messages : list Msg.Image) (w : World L),
    timed (this w) -> timed (this (world (publish_all fuel messages w))).
Proof.
  induction messages as [|message rest IH]; intros w Ht; simpl.
  - assumption.
  - pose proof (publish_timed fuel message w Ht) as Ht'.
    destruct (exit (publish fuel message w)); cbn [world];
      [apply IH|..]; assumption.
Qed.

Lemma fresh_timed : timed fresh.
Proof. left. reflexivity. Qed.

(** ** The envelope *)

Lemma to_int_add_l (a b : Z) : Int.to_int (Int.to_int a + b) = Int.to_int (a + b).
Proof.
  unfold Int.to_int.
  replace ((a + 2 ^ 31) mod 2 ^ 32 - 2 ^ 31 + b + 2 ^ 31)
    with ((a + 2 ^ 31) mod 2 ^ 32 + b) by lia.
  rewrite Zplus_mod_idemp_l. f_equal. f_equal. lia.
Qed.

Lemma blit_length (dst src : list byte) (k : nat) :
  length (Envelope.blit dst k src) = length dst.
Proof.
  unfold Envelope.blit.
  rewrite !length_app, !length_firstn, length_skipn. lia.
Qed.

Lemma firstn_repeat (x : byte) (j n : nat) :
  (j <= n)%nat -> firstn j (repeat x n) = repeat x j.
Proof.
  revert n. induction j as [|j IH]; intros n Hle; [reflexivity|].
  destruct n as [|n]; [lia|]. simpl. f_equal. apply IH. lia.
Qed.

Lemma skipn_repeat (x : byte) (j n : nat) :
  skipn j (repeat x n) = repeat x (n - j).
Proof.
  revert n. induction j as [|j IH]; intros n.
  - now rewrite Nat.sub_0_r.
  - destruct n as [|n]; [reflexivity|]. simpl. apply IH.
Qed.

(** Copying [src] right behind the bytes [s] already laid down in a
    vector of [N] bytes lays down [s ++ src], cut at [N]. *)
Lemma blit_behind (s src : list byte) :
  forall N M : nat,
    (N <= M)%nat ->
    Envelope.blit (firstn N (s ++ repeat x00 M)) (length s) src
    = firstn N ((s ++ src) ++ repeat x00 M).
Proof.
  induction s as [|a s IH]; intros N M Hle.
  - simpl. rewrite (firstn_repeat x00 Hle). unfold Envelope.blit. simpl.
    rewrite repeat_length, Nat.sub_0_r, skipn_repeat.
    rewrite firstn_app. f_equal.
    rewrite firstn_repeat by lia. reflexivity.
  - destruct N as [|N]; [reflexivity|].
    simpl. specialize (IH N M ltac:(lia)).
    unfold Envelope.blit in *. simpl. f_equal. exact IH.
Qed.

Lemma laid_step (N : nat) (s src : list byte) (w : Envelope.Writer) (n : Z) :
  laid N s w ->
  n = Z.of_nat (length src) ->
  laid N (s ++ src) (Envelope.advance n (Envelope.memcpy src w)).
Proof.
  intros H Hn Hb. rewrite length_app in Hb.
  destruct H as (Hi & Hd & Ho); [lia|].
  assert (Hlen : length (Envelope.compressed_data w) = N).
  { rewrite Hd, length_firstn, length_app, repeat_length. lia. }
  unfold Envelope.advance, Envelope.memcpy. simpl. split; [|split].
  - rewrite Hi, Hn, length_app, Nat2Z.inj_add.
    apply to_int_id. unfold Int.is_int. lia.
  - rewrite Hi, Nat2Z.id, Hd. apply blit_behind. lia.
  - rewrite Ho, Hi, Hlen, length_app.
    destruct (Nat.ltb_spec N (length s));
      destruct (Nat.ltb_spec N (length s + length src));
      destruct (Nat.eqb_spec (length src) 0);
      destruct (Z.ltb_spec (Z.of_nat (length s)) 0);
      destruct (Z.ltb_spec (Z.of_nat N)
                           (Z.of_nat (length s) + Z.of_nat (length src)));
      simpl; try reflexivity; lia.
Qed.

Lemma write_side_data_laid (N : nat) (m : Mem) :
  forall (l : list AVPacketSideData) (s : list byte) (w : Envelope.Writer),
    Forall (fun sd => 0 <= sd_size sd) l ->
    laid N s w ->
    laid N (s ++ flat_map (written_side_data m) l)
         (fold_left (Envelope.write_side_data m) l w).
Proof.
  induction l as [|sd l IH]; intros s w Hpos Hw; cbn [flat_map fold_left].
  - now rewrite app_nil_r.
  - inversion Hpos as [|? ? Hsd Hrest]; subst.
    rewrite app_assoc. apply IH; [assumption|].
    unfold Envelope.write_side_data, written_side_data.
    rewrite !app_assoc.
    apply laid_step; [apply laid_step; [apply laid_step|]|].
    + assumption.
    + now rewrite of_int_length.
    + now rewrite of_int_length.
    + rewrite load_length. lia.
Qed.

Lemma written_side_data_length (m : Mem) (l : list AVPacketSideData) :
  Forall (fun sd => 0 <= sd_size sd) l ->
  Z.of_nat (length (flat_map (written_side_data m) l))
  = fold_right (fun sd acc => 4 + 4 + sd_size sd + acc) 0 l.
Proof.
  induction 1 as [|sd l Hsd Hrest IH]; [reflexivity|].
  cbn [flat_map fold_right]. unfold written_side_data at 1.
  rewrite !length_app, !of_int_length, load_length. lia.
Qed.

Lemma written_length (m : Mem) (b : AVBufferRef) (p : AVPacket) :
  sizes_ok b p ->
  Z.of_nat (length (written m b p)) = envelope_length b p.
Proof.
  intros (Hb & Hp & Hsd & _). unfold written, envelope_length.
  rewrite !length_app, !of_int_length, !of_int64_length, !load_length.
  rewrite !Nat2Z.inj_add, (written_side_data_length m Hsd).
  unfold side_data_elems. lia.
Qed.

(** The cursor-driven writer lays down the bytes of [written], cut at
    the size the vector was given, and its cursor ends at their number. *)
Lemma write_packet_written (m : Mem) (b : AVBufferRef) (p : AVPacket) :
  sizes_ok b p ->
  let w := Envelope.write_packet m b p in
  let N := Z.to_nat (Envelope.size_data b p) in
  Envelope.compressed_data w = firstn N (written m b p ++ repeat x00 N)
  /\ Envelope.index_data_compressed w = envelope_length b p
  /\ Envelope.overrun w = (N <? length (written m b p))%nat.
Proof.
  intros Hok w N.
  pose proof (written_length m Hok) as Hlen.
  destruct Hok as (Hb & Hp & Hsd & Hfit).
  assert (Hlaid : laid N (written m b p) w).
  { subst w. unfold Envelope.write_packet, written. cbv zeta.
    fold N.
    set (w0 := Envelope.resize (Envelope.size_data b p)).
    assert (H0 : laid N [] w0).
    { intros _. subst w0. unfold Envelope.resize. simpl.
      repeat split. subst N. now rewrite firstn_all2 by (rewrite repeat_length; lia). }
    change (Bytes.of_int (buffer_size b) ++ ?rest)
      with ([] ++ Bytes.of_int (buffer_size b) ++ rest).
    rewrite !app_assoc.
    repeat (first
      [ exact H0
      | apply write_side_data_laid; [exact Hsd|]
      | apply laid_step;
        [| first [ now rewrite of_int_length
                 | now rewrite of_int64_length
                 | rewrite load_length; lia ] ] ]). }
  destruct Hlaid as (Hi & Hd & Ho); [lia|].
  rewrite Hi, Hlen. repeat split; assumption.
Qed.

(** The size the vector is given: the fields' total less four bytes, plus
    one byte per side-data entry. *)
Lemma size_data_value (b : AVBufferRef) (p : AVPacket) :
  Envelope.size_data b p
  = Int.to_int (envelope_length b p - 4 + side_data_elems p).
Proof.
  unfold Envelope.size_data, envelope_length.
  set (x := 4 + buffer_size b + 8 + 8 + size p + 4 + 4 + 4
            + side_data_elems p + 8 + 8).
  assert (H : forall l y,
             fold_left
               (fun acc sd =>
                  Int.to_int (acc + (sd_size sd + Envelope.sizeof_int
                                     + Envelope.sizeof_int)))
               l (Int.to_int y)
             = Int.to_int
                 (y + fold_right (fun sd acc => 4 + 4 + sd_size sd + acc) 0 l)).
  { induction l as [|sd l IH]; intros y; cbn [fold_left fold_right].
    - f_equal. lia.
    - rewrite to_int_add_l, IH. f_equal.
      unfold Envelope.sizeof_int. lia. }
  rewrite H. f_equal. subst x. lia.
Qed.

(** The vector keeps the size it was resized to. *)
Lemma put_length (src : list byte) (n : Z) (w : Envelope.Writer) :
  length (Envelope.compressed_data
            (Envelope.advance n (Envelope.memcpy src w)))
  = length (Envelope.compressed_data w).
Proof. unfold Envelope.advance, Envelope.memcpy. simpl. apply blit_length. Qed.

Lemma write_packet_length (m : Mem) (b : AVBufferRef) (p : AVPacket) :
  length (Envelope.compressed_data (Envelope.write_packet m b p))
  = Z.to_nat (Envelope.size_data b p).
Proof.
  assert (Hfold : forall l w,
             length (Envelope.compressed_data
                       (fold_left (Envelope.write_side_data m) l w))
             = length (Envelope.compressed_data w)).
  { induction l as [|sd l IH]; intros w; cbn [fold_left]; [reflexivity|].
    rewrite IH. unfold Envelope.write_side_data.
    now rewrite !put_length. }
  unfold Envelope.write_packet. cbv zeta.
  rewrite !put_length, Hfold, !put_length.
  unfold Envelope.resize. simpl. apply repeat_length.
Qed.

Lemma envelope_length_min (b : AVBufferRef) (p : AVPacket) :
  sizes_ok b p -> 52 <= envelope_length b p.
Proof.
  intros (Hb & Hp & Hsd & _). unfold envelope_length.
  assert (Hsum : 0 <= fold_right (fun sd acc => 4 + 4 + sd_size sd + acc) 0
                                 (side_data p)).
  { clear -Hsd. induction Hsd as [|sd l Hs _ IH]; cbn [fold_right]; lia. }
  lia.
Qed.

(** Some copy runs past the end of the vector exactly when the packet has
    fewer than four side-data entries. *)
Lemma overrun_below_four_entries (m : Mem) (b : AVBufferRef) (p : AVPacket) :
  sizes_ok b p ->
  envelope_length b p - 4 + side_data_elems p < 2 ^ 31 ->
  Envelope.overrun (Envelope.write_packet m b p) = (side_data_elems p <? 4).
Proof.
  intros Hok Hfit.
  destruct (write_packet_written m Hok) as (_ & _ & Ho).
  pose proof (written_length m Hok) as Hlen.
  rewrite Ho, size_data_value.
  pose proof (envelope_length_min Hok) as Hpos.
  assert (Helems : 0 <= side_data_elems p)
    by (unfold side_data_elems; lia).
  destruct (Z.ltb_spec (side_data_elems p) 4) as [Hlt|Hge].
  - apply Nat.ltb_lt.
    assert (Hn : Int.to_int (envelope_length b p - 4 + side_data_elems p)
                 < envelope_length b p).
    { unfold Int.to_int.
      destruct (Z.le_gt_cases 0 (envelope_length b p - 4 + side_data_elems p)).
      - rewrite Z.mod_small; lia.
      - replace (envelope_length b p - 4 + side_data_elems p + 2 ^ 31)
          with (2 ^ 31 + (envelope_length b p - 4 + side_data_elems p)) by lia.
        rewrite Z.mod_small; lia. }
    lia.
  - apply Nat.ltb_ge.
    rewrite to_int_id by (unfold Int.is_int; lia). lia.
Qed.

Lemma field_at (A B R : list byte) (N : nat) :
  (length A + length B <= N)%nat ->
  firstn (length B) (skipn (length A) (firstn N (A ++ B ++ R))) = B.
Proof.
  intros Hle.
  rewrite firstn_app, (firstn_all2 A) by lia.
  rewrite skipn_app, skipn_all, Nat.sub_diag. simpl.
  rewrite firstn_firstn, Nat.min_l by lia.
  rewrite firstn_app, firstn_all, Nat.sub_diag. simpl.
  apply app_nil_r.
Qed.

(** For every packet the payload field of the envelope, behind the
    buffer size, the buffer and the payload size, holds the bytes found
    at the address of the member [data]. *)
Lemma payload_field_general (m : Mem) (b : AVBufferRef) (p : AVPacket) :
  sizes_ok b p ->
  envelope_length b p - 4 + side_data_elems p < 2 ^ 31 ->
  firstn (Z.to_nat (size p))
         (skipn (Z.to_nat (4 + buffer_size b + 4))
                (Envelope.compressed_data (Envelope.write_packet m b p)))
  = load m (data_ref p) (size p).
Proof.
  intros Hok Hfit.
  destruct (write_packet_written m Hok) as (Hd & _ & _).
  pose proof (written_length m Hok) as Hlen.
  destruct Hok as (Hb & Hp & Hsd & Hfits).
  rewrite Hd. unfold written.
  set (A := Bytes.of_int (buffer_size b)
              ++ load m (buffer_data b) (buffer_size b)
              ++ Bytes.of_int (size p)).
  set (B := load m (data_ref p) (size p)).
  match goal with
  | |- context [B ++ ?r] => set (R := r)
  end.
  assert (HA : length A = Z.to_nat (4 + buffer_size b + 4)).
  { subst A. rewrite !length_app, !of_int_length, load_length. lia. }
  assert (HB : length B = Z.to_nat (size p))
    by (subst B; apply load_length).
  rewrite <- HA, <- HB.
  replace ((Bytes.of_int (buffer_size b)
              ++ load m (buffer_data b) (buffer_size b)
              ++ Bytes.of_int (size p) ++ B ++ R)
             ++ repeat x00 (Z.to_nat (Envelope.size_data b p)))
    with (A ++ B ++ (R ++ repeat x00 (Z.to_nat (Envelope.size_data b p))))
    by (subst A; now rewrite <- !app_assoc).
  apply field_at.
  rewrite HA, HB, size_data_value.
  assert (Hsum : 0 <= fold_right (fun sd acc => 4 + 4 + sd_size sd + acc) 0
                                 (side_data p)).
  { clear -Hsd. induction Hsd as [|sd l Hs _ IH]; cbn [fold_right]; lia. }
  assert (Helems : 0 <= side_data_elems p)
    by (unfold side_data_elems; lia).
  unfold envelope_length in *.
  rewrite to_int_id by (unfold Int.is_int; lia). lia.
Qed.

(** A packet with a buffer and sane sizes has an envelope, and the vector
    is given the fields' total less four bytes plus one byte per
    side-data entry. *)
Lemma serialize_sized (m : Mem) (b : AVBufferRef) (p : AVPacket) :
  buf p = Some b ->
  sizes_ok b p ->
  envelope_length b p - 4 + side_data_elems p < 2 ^ 31 ->
  Envelope.serialize m p = Some (Envelope.write_packet m b p)
  /\ Envelope.size_data b p = envelope_length b p - 4 + side_data_elems p.
Proof.
  intros Hbuf Hok Hfit.
  pose proof (envelope_length_min Hok) as Hmin.
  assert (Helems : 0 <= side_data_elems p)
    by (unfold side_data_elems; lia).
  assert (Hsize : Envelope.size_data b p
                  = envelope_length b p - 4 + side_data_elems p).
  { rewrite size_data_value. apply to_int_id. unfold Int.is_int. lia. }
  split; [|exact Hsize].
  assert (Hcopies : Envelope.copies_ok b p = true).
  { destruct Hok as (Hb & Hs & Hsd & _). unfold Envelope.copies_ok.
    apply andb_true_intro. split.
    - apply andb_true_intro. split; apply Z.leb_le; assumption.
    - apply forallb_forall. intros sd Hin. apply Z.leb_le.
      rewrite Forall_forall in Hsd. exact (Hsd sd Hin). }
  unfold Envelope.serialize, Envelope.outcome. rewrite Hbuf, Hsize, Hcopies.
  destruct (Z.ltb_spec (envelope_length b p - 4 + side_data_elems p) 0);
    [lia | reflexivity].
Qed.

(** C1.  For every packet with sane sizes the payload field of the
    envelope, which follows the payload size, holds the bytes found at the
    address of the member [data], not the bytes the member points to.  On
    [Sample.keyframe] (4 payload bytes 00 00 01 40 at address 4096, the
    member [data] at address 8216) the field, at offset 16, holds the low
    bytes of the pointer and not the payload. *)
Theorem payload_field_holds_pointer_bytes :
  (forall (m : Mem) (b : AVBufferRef) (p : AVPacket),
      buf p = Some b ->
      sizes_ok b p ->
      envelope_length b p - 4 + side_data_elems p < 2 ^ 31 ->
      exists env,
        Envelope.serialize m p = Some env
        /\ firstn (Z.to_nat (size p))
                  (skipn (Z.to_nat (4 + buffer_size b + 4))
                         (Envelope.compressed_data env))
           = load m (data_ref p) (size p))
  /\ exists env,
      Envelope.serialize Sample.memory Sample.keyframe = Some env
      /\ firstn 4 (skipn 16 (Envelope.compressed_data env))
         = load Sample.memory (data_ref Sample.keyframe)
                (size Sample.keyframe)
      /\ load Sample.memory (data_ref Sample.keyframe) (size Sample.keyframe)
         = firstn 4 (Bytes.of_int64 (data Sample.keyframe))
      /\ load Sample.memory (data Sample.keyframe) (size Sample.keyframe)
         = Sample.payload
      /\ firstn 4 (skipn 16 (Envelope.compressed_data env)) <> Sample.payload.
Proof.
  split.
  - intros m b p Hbuf Hok Hfit.
    destruct (serialize_sized m Hbuf Hok Hfit) as [Hser _].
    exists (Envelope.write_packet m b p). split; [exact Hser|].
    apply payload_field_general; assumption.
  - eexists. split; [vm_compute; reflexivity|].
    split; [vm_compute; reflexivity|].
    split; [vm_compute; reflexivity|].
    split; [vm_compute; reflexivity|].
    vm_compute. discriminate.
Qed.

(** C2.  For every packet with sane sizes the cursor ends at the total of
    the fields, but the vector was resized to that total less four bytes
    plus one byte per side-data entry, so some copy runs past its end
    whenever there are fewer than four entries.  On [Sample.keyframe]
    (buffer of 8 bytes, payload of 4, no side data) the fields add up to
    64 bytes and the vector has 60: the last copy runs 4 bytes past its
    end and the envelope is the first 60 of the 64 bytes. *)
Theorem vector_is_shorter_than_the_fields :
  (forall (m : Mem) (b : AVBufferRef) (p : AVPacket),
      buf p = Some b ->
      sizes_ok b p ->
      envelope_length b p - 4 + side_data_elems p < 2 ^ 31 ->
      exists env,
        Envelope.serialize m p = Some env
        /\ Envelope.index_data_compressed env = envelope_length b p
        /\ Z.of_nat (length (Envelope.compressed_data env))
           = envelope_length b p - 4 + side_data_elems p
        /\ Envelope.overrun env = (side_data_elems p <? 4))
  /\ exists b env,
      buf Sample.keyframe = Some b
      /\ Envelope.serialize Sample.memory Sample.keyframe = Some env
      /\ envelope_length b Sample.keyframe = 64
      /\ Envelope.index_data_compressed env = 64
      /\ Envelope.size_data b Sample.keyframe = 60
      /\ length (Envelope.compressed_data env) = 60%nat
      /\ Envelope.overrun env = true
      /\ Envelope.compressed_data env
         = firstn 60 (written Sample.memory b Sample.keyframe).
Proof.
  split.
  - intros m b p Hbuf Hok Hfit.
    destruct (serialize_sized m Hbuf Hok Hfit) as [Hser Hsize].
    pose proof (envelope_length_min Hok) as Hmin.
    assert (Helems : 0 <= side_data_elems p)
      by (unfold side_data_elems; lia).
    exists (Envelope.write_packet m b p). split; [exact Hser|].
    destruct (write_packet_written m Hok) as (_ & Hi & _).
    split; [exact Hi|]. split.
    + rewrite write_packet_length, Hsize. lia.
    + apply overrun_below_four_entries; assumption.
  - eexists. eexists. split; [reflexivity|].
    repeat split; vm_compute; reflexivity.
Qed.

(** C6.  For every packet with sane sizes the envelope is the sequence
    [written], cut at the size of the vector: its side-data region is the
    count followed, entry by entry in the original order, by the size, the
    type and then [size] bytes read at the address of the entry's member
    [data].  On [Sample.with_side_data] (entries of 4, 16 and 0 bytes) the
    region starts at offset 44 with the count 3, and the first entry
    follows with its size 4 and its type 1; but the 4 bytes after them are
    the low bytes of the pointer, not the entry's payload 11 22 33 44, and
    the 16 bytes of the second entry are the pointer and the size member,
    not its payload. *)
Theorem side_data_bytes_are_pointer_bytes :
  (forall (m : Mem) (b : AVBufferRef) (p : AVPacket),
      buf p = Some b ->
      sizes_ok b p ->
      envelope_length b p - 4 + side_data_elems p < 2 ^ 31 ->
      exists env,
        Envelope.serialize m p = Some env
        /\ Envelope.compressed_data env
           = firstn (Z.to_nat (envelope_length b p - 4 + side_data_elems p))
                    (written m b p
                       ++ repeat x00
                            (Z.to_nat (envelope_length b p - 4
                                       + side_data_elems p))))
  /\ exists env e0 e1 e2,
      Envelope.serialize Sample.memory Sample.with_side_data = Some env
      /\ side_data Sample.with_side_data = [e0; e1; e2]
      /\ firstn 4 (skipn 44 (Envelope.compressed_data env)) = Bytes.of_int 3
      /\ firstn 4 (skipn 48 (Envelope.compressed_data env))
         = Bytes.of_int (sd_size e0)
      /\ firstn 4 (skipn 52 (Envelope.compressed_data env))
         = Bytes.of_int (sd_type e0)
      /\ firstn 4 (skipn 56 (Envelope.compressed_data env))
         = firstn 4 (Bytes.of_int64 (sd_data e0))
      /\ load Sample.memory (sd_data e0) (sd_size e0) = Sample.side0
      /\ firstn 4 (skipn 56 (Envelope.compressed_data env)) <> Sample.side0
      /\ firstn 16 (skipn 68 (Envelope.compressed_data env))
         = Bytes.of_int64 (sd_data e1) ++ Bytes.of_int64 (sd_size e1)
      /\ load Sample.memory (sd_data e1) (sd_size e1) = Sample.side1
      /\ firstn 16 (skipn 68 (Envelope.compressed_data env)) <> Sample.side1.
Proof.
  split.
  - intros m b p Hbuf Hok Hfit.
    destruct (serialize_sized m Hbuf Hok Hfit) as [Hser Hsize].
    exists (Envelope.write_packet m b p). split; [exact Hser|].
    destruct (write_packet_written m Hok) as (Hd & _ & _).
    rewrite Hsize in Hd. exact Hd.
  - eexists. eexists. eexists. eexists.
    split; [vm_compute; reflexivity|].
    split; [reflexivity|].
    repeat split; try (vm_compute; reflexivity); vm_compute; discriminate.
Qed.

(** ** Configuration failures *)

(** The private options after the configuration block. *)
Lemma configure_context_options (message : Msg.Image) (c : AVCodecContext) :
  av_opt_get (priv_data (configure_context message c)) "preset"
  = Some "ultrafast"%string
  /\ av_opt_get (priv_data (configure_context message c)) "crf"
     = Some "35"%string.
Proof. split; reflexivity. Qed.

(** Whatever way the configuration block ends, the context it leaves
    carries the frame's dimensions, unless [avcodec_open2] was reached
    and found them invalid: the assignments of lines 115-116 come before
    every test and no [return] takes them back. *)
Lemma configure_sets_guard (L : Libav) (message : Msg.Image) (w : World L) :
  let c := context_ (this (snd (fst (configure message w)))) in
  let valid :=
    av_image_check_size2 (Int.to_int (Msg.width message))
                         (Int.to_int (Msg.height message)) in
  (pixel_format_ok L = false \/ valid = true ->
   height c = Int.to_int (Msg.height message)
   /\ width c = Int.to_int (Msg.width message))
  /\ (pixel_format_ok L = true -> valid = false ->
      height c = 0 /\ width c = 0).
Proof.
  cbv zeta. destruct (configure_spec message w) as (Hc & _).
  rewrite Hc.
  destruct (ff_set_dimensions_size
              (configure_context message (context_ (this w))))
    as [[Hv Hsame] | (Hv & Hw0 & Hh0)];
    cbn [width height configure_context] in Hv.
  - rewrite Hsame. split.
    + intros _. destruct (pixel_format_ok L); split; reflexivity.
    + intros _ Hv'. congruence.
  - split.
    + intros [Hpf | Hv']; [|congruence]. rewrite Hpf. split; reflexivity.
    + intros Hpf _. rewrite Hpf. split; assumption.
Qed.

(** C3.  A first frame of 63 x 63.  Whatever libav answers, the call
    leaves the context with height 63 and width 63, so these dimensions
    are retained and the guard is set; the publisher has no test of the
    parity and leaves the matter to [avcodec_open2].  With an encoder
    that refuses to open, the call returns, but the next call finds the
    guard set and runs into the frames that were never allocated.  With an
    encoder that opens, the call opens it, allocates the working frames
    with the odd dimensions and submits the frame. *)
Theorem odd_frame_is_configured :
  (forall (L : Libav) (fuel : nat) (e : Enc L),
      height (context_ (this (world (publish fuel (Sample.image 63 63)
                {| this := fresh; encoder := e; heap_overrun := false |}))))
      = 63
      /\ width (context_ (this (world (publish fuel (Sample.image 63 63)
                {| this := fresh; encoder := e; heap_overrun := false |}))))
         = 63)
  /\ (events (publish 2 (Sample.image 63 63) Sample.closed_world)
      = [Lock; Open Script.ENOMEM; Unlock]
      /\ height (context_ (this (world (publish 2 (Sample.image 63 63)
                                                Sample.closed_world))))
         = 63
      /\ exit (publish 2 (Sample.image 63 63)
                 (world (publish 2 (Sample.image 63 63) Sample.closed_world)))
         = Faulted)
  /\ exit (publish 2 (Sample.image 63 63) Sample.idle_world) = Returned
  /\ In (Open 0) (events (publish 2 (Sample.image 63 63) Sample.idle_world))
  /\ avInFrame_ (this (world (publish 2 (Sample.image 63 63)
                                      Sample.idle_world)))
     = Some (Sample.rgb_frame 63 63)
  /\ In (SendFrame (Sample.yuv_frame 63 63 0) 0)
        (events (publish 2 (Sample.image 63 63) Sample.idle_world)).
Proof.
  split.
  - intros L fuel e.
    set (w := {| this := fresh; encoder := e; heap_overrun := false |}).
    unfold publish.
    replace (height (context_ (this w)) =? 0) with true by reflexivity.
    destruct (configure_sets_guard (Sample.image 63 63) w) as [Hvalid _].
    destruct (Hvalid (or_intror eq_refl)) as [Hh Hw].
    destruct (configure (Sample.image 63 63) w) as [[go w1] cfg].
    simpl in Hh, Hw.
    destruct go; cbn [world].
    + destruct (encode_keeps fuel (Sample.image 63 63) w1) as (Hc & _).
      rewrite Hc, Hh, Hw. split; reflexivity.
    + rewrite Hh, Hw. split; reflexivity.
  - split.
    + vm_compute. repeat split; reflexivity.
    + vm_compute. repeat split; auto 10.
Qed.

(** C4.  A call whose configuration block takes one of its [return]s
    returns without publishing anything and without allocating a frame,
    but it leaves the stored height at the frame's height; only when
    [avcodec_open2] was reached and found the picture size invalid has
    the library put the height back to 0.  With an encoder that refuses
    to open, the first call on a 64 x 64 frame leaves the stored height
    at 64 and no working frame; the second call therefore skips the
    configuration block and runs into the input frame that was never
    allocated. *)
Theorem failed_configuration_sets_the_guard :
  (forall (L : Libav) (fuel : nat) (message : Msg.Image) (w : World L),
      height (context_ (this w)) = 0 ->
      fst (fst (configure message w)) = false ->
      exit (publish fuel message w) = Returned
      /\ (forall c, ~ In (PublishFn c) (events (publish fuel message w)))
      /\ (pixel_format_ok L = false
          \/ av_image_check_size2 (Int.to_int (Msg.width message))
                                  (Int.to_int (Msg.height message)) = true ->
          height (context_ (this (world (publish fuel message w))))
          = Int.to_int (Msg.height message))
      /\ (pixel_format_ok L = true ->
          av_image_check_size2 (Int.to_int (Msg.width message))
                               (Int.to_int (Msg.height message)) = false ->
          height (context_ (this (world (publish fuel message w)))) = 0)
      /\ avInFrame_ (this (world (publish fuel message w)))
         = avInFrame_ (this w))
  /\ height (context_ (this Sample.closed_world)) = 0
  /\ exit (publish 2 (Sample.image 64 64) Sample.closed_world) = Returned
  /\ events (publish 2 (Sample.image 64 64) Sample.closed_world)
     = [Lock; Open Script.ENOMEM; Unlock]
  /\ height (context_ (this (world (publish 2 (Sample.image 64 64)
                                            Sample.closed_world))))
     = 64
  /\ avInFrame_ (this (world (publish 2 (Sample.image 64 64)
                                      Sample.closed_world)))
     = None
  /\ exit (publish 2 (Sample.image 64 64)
             (world (publish 2 (Sample.image 64 64) Sample.closed_world)))
     = Faulted
  /\ events (publish 2 (Sample.image 64 64)
               (world (publish 2 (Sample.image 64 64) Sample.closed_world)))
     = [Lock].
Proof.
  split.
  - intros L fuel message w Hh Hgo.
    destruct (configure_sets_guard message w) as [Hvalid Hinvalid].
    pose proof (configure_spec message w) as Hc. cbv zeta in Hc.
    unfold publish. rewrite Hh. simpl Z.eqb. cbv iota.
    destruct (configure message w) as [[go w1] cfg].
    simpl in Hgo, Hvalid, Hinvalid, Hc. subst go.
    destruct Hc as (_ & _ & _ & Hcfg & Hin & _).
    cbn [exit events world].
    split; [reflexivity|]. split; [|split; [|split]].
    + intros c [Heq | Hc]; [discriminate|].
      apply in_app_or in Hc. destruct Hc as [Hc | [Heq | []]].
      * rewrite Forall_forall in Hcfg. specialize (Hcfg _ Hc). discriminate.
      * discriminate.
    + intros Hv. exact (proj1 (Hvalid Hv)).
    + intros Hpf Hv. exact (proj1 (Hinvalid Hpf Hv)).
    + exact Hin.
  - vm_compute. repeat split; reflexivity.
Qed.

(** ** Presentation timestamps *)

(** C7, as the code has it.  Every submission of a call carries the
    value the frame counter had when the call began, and the counter goes
    up by one exactly in the calls that submit (a call that returns from
    the configuration block, or faults before submitting, leaves it
    unchanged).  Hence on a configured session the call that follows N
    returned calls submits with the counter's initial value plus N.  A
    64 x 64 first frame on a fresh publisher, when the descriptor test
    passes and the encoder opens, leaves the context with width 64, height
    64 and pixel format YUV420P and, when the frames and the scaling
    context are allocated, is submitted with pts 0; in any case it is
    submitted with pts 0 or the process dies, on a null frame or scaling
    context, before anything is sent.  Nothing is said about the packets
    drained: they are the encoder's. *)
Theorem pts_is_the_frame_counter :
  (forall (L : Libav) (fuel : nat) (message : Msg.Image) (w : World L),
      let r := publish fuel message w in
      (forall f ret, In (SendFrame f ret) (events r) ->
                     Frame.pts f = frameCount_ (this w))
      /\ frameCount_ (this (world r))
         = frameCount_ (this w)
           + (if existsb is_send (events r) then 1 else 0))
  /\ (forall (L : Libav) (fuel : nat) (messages : list Msg.Image)
             (message : Msg.Image) (w : World L),
         configured (this w) ->
         exit (publish_all fuel messages w) = Returned ->
         let r := publish fuel message (world (publish_all fuel messages w)) in
         exists f ret rest,
           events r = Lock :: SendFrame f ret :: rest
           /\ Frame.pts f
              = frameCount_ (this w) + Z.of_nat (length messages))
  /\ (forall (L : Libav) (fuel : nat) (e : Enc L) (hdr : string)
             (pixels : list byte),
         let message :=
           {| Msg.header := hdr; Msg.height := 64; Msg.width := 64;
              Msg.data := pixels |} in
         let w := {| this := fresh; encoder := e; heap_overrun := false |} in
         pixel_format_ok L = true ->
         0 <= snd (avcodec_open2 L e (configure_context message default_context)) ->
         let r := publish fuel message w in
         width (context_ (this (world r))) = 64
         /\ height (context_ (this (world r))) = 64
         /\ pix_fmt (context_ (this (world r))) = AV_PIX_FMT_YUV420P
         /\ ((forall s, snd (av_frame_alloc L s) = true) ->
             (forall s c, snd (sws_getContext L s c) = true) ->
             exists ret,
               In (SendFrame {| Frame.width := 64; Frame.height := 64;
                                Frame.format := AV_PIX_FMT_YUV420P;
                                Frame.pts := 0 |} ret)
                  (events r))
         /\ ((exists ret,
                 In (SendFrame {| Frame.width := 64; Frame.height := 64;
                                  Frame.format := AV_PIX_FMT_YUV420P;
                                  Frame.pts := 0 |} ret)
                    (events r))
             \/ (exit r = Faulted
                 /\ forall f ret, ~ In (SendFrame f ret) (events r)))).
Proof.
  split; [|split].
  - intros L fuel message w. apply publish_pts.
  - intros L fuel messages message w Hcfg Hx r. subst r.
    destruct (publish_all_configured fuel messages w Hcfg Hx) as [Hcfg' Hn].
    destruct (publish_configured fuel message _ Hcfg')
      as (_ & _ & f & ret & rest & Hev & Hpts).
    exists f, ret, rest. split; [exact Hev|]. now rewrite Hpts, Hn.
  - intros L fuel e hdr pixels message w Hpf Hopen r. subst r.
    assert (Hgo : fst (fst (configure message w)) = true).
    { unfold configure. cbv zeta. rewrite Hpf. simpl negb. cbv iota.
      change (context_ (this w)) with default_context.
      change (encoder w) with e.
      destruct (avcodec_open2 L e (configure_context message default_context))
        as [e1 ret1].
      simpl in Hopen.
      destruct (Z.ltb_spec ret1 0) as [Hlt|Hge]; [lia|].
      destruct (av_frame_alloc L e1) as [e2 in_ok].
      destruct in_ok; simpl; [|reflexivity].
      destruct (sws_getContext L e2 _) as [e3 sws_ok].
      destruct (av_frame_alloc L e3) as [e4 out_ok]. reflexivity. }
    pose proof (configure_spec message w) as Hc. cbv zeta in Hc.
    pose proof (configure_allocated message w) as Ha. cbv zeta in Ha.
    pose proof (fun o => @configure_out_frame L message w o) as Ho.
    unfold publish.
    replace (height (context_ (this w)) =? 0) with true by reflexivity.
    destruct (configure message w) as [[go w1] cfg].
    simpl in Hgo, Hc, Ha, Ho. subst go.
    destruct Hc as (Hctx & Hfc & Hc0).
    rewrite Hpf in Hctx.
    assert (Hctx' : context_ (this w1)
                    = configure_context message default_context).
    { rewrite Hctx. reflexivity. }
    destruct (encode_keeps fuel message w1) as (Hk & _).
    cbn [world events]. rewrite Hk, Hctx'.
    split; [reflexivity|]. split; [reflexivity|]. split; [reflexivity|].
    assert (Hsent : forall inF sws outF,
               avInFrame_ (this w1) = Some inF ->
               swsCtx_ (this w1) = Some sws ->
               avOutFrame_ (this w1) = Some outF ->
               exists ret,
                 In (SendFrame {| Frame.width := 64; Frame.height := 64;
                                  Frame.format := AV_PIX_FMT_YUV420P;
                                  Frame.pts := 0 |} ret)
                    (Lock :: cfg ++ events (encode fuel message w1))).
    { intros inF sws outF Hin Hsws Hout.
      destruct (encode_events fuel message w1 Hin Hsws Hout)
        as (ret0 & rets & rest & Hev & _).
      exists ret0. right. apply in_or_app. right.
      rewrite Hev. left. rewrite (Ho outF eq_refl Hout), Hctx', Hfc.
      reflexivity. }
    split.
    + intros Hfa Hsw.
      destruct (Ha Hfa Hsw eq_refl)
        as (inF & sws & outF & Hin & Hsws & Hout & _).
      exact (Hsent inF sws outF Hin Hsws Hout).
    + destruct (encode_cases fuel message w1)
        as [(inF & sws & outF & Hin & Hsws & Hout) | Henc].
      * left. exact (Hsent inF sws outF Hin Hsws Hout).
      * right. rewrite Henc. cbn [exit events]. split; [reflexivity|].
        intros f ret [Hc | Hc]; [discriminate|].
        rewrite app_nil_r in Hc. destruct Hc0 as (_ & Hcfg & _).
        rewrite Forall_forall in Hcfg. specialize (Hcfg _ Hc). discriminate.
Qed.

(** C7 as stated fails on two runs with the scripted encoder.  First, a
    single 64 x 64 frame on a fresh publisher: the frame is submitted with
    pts 0, but the encoder has no packet ready, so the call returns
    without any received or published packet.  Second, a first frame of
    height 0 for which the encoder does not open: that call returns
    without submitting, and the next call, the one numbered 1, submits
    its frame with pts 0. *)
Lemma first_call_may_drain_nothing :
  (exit (publish 2 (Sample.image 64 64) Sample.idle_world) = Returned
   /\ In (SendFrame (Sample.yuv_frame 64 64 0) 0)
         (events (publish 2 (Sample.image 64 64) Sample.idle_world))
   /\ (forall ret p,
          In (ReceivePacket ret p)
             (events (publish 2 (Sample.image 64 64) Sample.idle_world)) ->
          ret < 0)
   /\ (forall c,
          ~ In (PublishFn c)
               (events (publish 2 (Sample.image 64 64) Sample.idle_world))))
  /\ exit (publish 2 (Sample.image 0 64) Sample.idle_world) = Returned
  /\ events (publish 2 (Sample.image 0 64) Sample.idle_world)
     = [Lock; Open Script.EINVAL; Unlock]
  /\ exit (publish 2 (Sample.image 64 64)
             (world (publish 2 (Sample.image 0 64) Sample.idle_world)))
     = Returned
  /\ In (SendFrame (Sample.yuv_frame 64 64 0) 0)
        (events (publish 2 (Sample.image 64 64)
                   (world (publish 2 (Sample.image 0 64) Sample.idle_world)))).
Proof.
  split.
  - vm_compute. split; [reflexivity|]. split; [auto 10|]. split.
    + intros ret p H.
      repeat (destruct H as [H|H]; [try discriminate H|]);
        try contradiction.
      inversion H; subst. reflexivity.
    + intros c H.
      repeat (destruct H as [H|H]; [try discriminate H|]);
        try contradiction.
  - vm_compute. repeat split; auto 10.
Qed.

(** ** Instances *)

(** On [Sample.stubborn_world] the frame with pts 1 is sent five times:
    once before the loop, where the end-of-stream answer is dropped, and
    once per turn of the loop until the encoder answers 0. *)
Lemma frame_is_sent_twice_witness :
  height (context_ (this Sample.stubborn_world)) <> 0
  /\ avInFrame_ (this Sample.stubborn_world) = Some (Sample.rgb_frame 64 64)
  /\ avOutFrame_ (this Sample.stubborn_world)
     = Some (Sample.yuv_frame 64 64 0)
  /\ swsCtx_ (this Sample.stubborn_world)
     = Some {| srcW := 64; srcH := 64; srcFormat := AV_PIX_FMT_RGB24;
               dstW := 64; dstH := 64; dstFormat := AV_PIX_FMT_RGB0 |}
  /\ (exists ret0 ret1 rets rest,
         events (publish 5 (Sample.image 64 64) Sample.stubborn_world)
         = Lock :: SendFrame (Sample.yuv_frame 64 64 1) ret0
             :: SendFrame (Sample.yuv_frame 64 64 1) ret1
             :: map (SendFrame (Sample.yuv_frame 64 64 1)) rets ++ rest)
  /\ events (publish 5 (Sample.image 64 64) Sample.stubborn_world)
     = [Lock;
        SendFrame (Sample.yuv_frame 64 64 1) Script.AVERROR_EOF;
        SendFrame (Sample.yuv_frame 64 64 1) Script.EINVAL;
        SendFrame (Sample.yuv_frame 64 64 1) Script.ENOMEM;
        SendFrame (Sample.yuv_frame 64 64 1) Script.EAGAIN;
        SendFrame (Sample.yuv_frame 64 64 1) 0;
        ReceivePacket Script.EAGAIN Script.blank;
        Unlock].
Proof.
  assert (Hh : height (context_ (this Sample.stubborn_world)) <> 0)
    by (vm_compute; discriminate).
  assert (Hin : avInFrame_ (this Sample.stubborn_world)
                = Some (Sample.rgb_frame 64 64))
    by (vm_compute; reflexivity).
  assert (Hout : avOutFrame_ (this Sample.stubborn_world)
                 = Some (Sample.yuv_frame 64 64 0))
    by (vm_compute; reflexivity).
  assert (Hsws : swsCtx_ (this Sample.stubborn_world)
                 = Some {| srcW := 64; srcH := 64;
                           srcFormat := AV_PIX_FMT_RGB24;
                           dstW := 64; dstH := 64;
                           dstFormat := AV_PIX_FMT_RGB0 |})
    by (vm_compute; reflexivity).
  split; [exact Hh|]. split; [exact Hin|]. split; [exact Hout|].
  split; [exact Hsws|]. split.
  - assert (Hsome : swsCtx_ (this Sample.stubborn_world) <> None)
      by (rewrite Hsws; discriminate).
    destruct (proj1 (frame_is_sent_twice 4 (Sample.image 64 64)
                       Sample.stubborn_world Hh Hin Hout) Hsome)
      as (ret0 & ret1 & rets & rest & Hev & _).
    exists ret0, ret1, rets, rest. exact Hev.
  - vm_compute. reflexivity.
Defined.

(** The configuration of [Sample.configured_world] survives two more
    calls, the second with another geometry. *)
Lemma configuration_is_kept_witness :
  height (context_ (this Sample.configured_world)) <> 0
  /\ context_ (this (world (publish_all 2
                     [Sample.image 64 64; Sample.image 32 48]
                     Sample.configured_world)))
     = context_ (this Sample.configured_world)
  /\ Forall (fun e => is_config_event e = false)
            (events (publish_all 2 [Sample.image 64 64; Sample.image 32 48]
                                 Sample.configured_world)).
Proof.
  assert (Hh : height (context_ (this Sample.configured_world)) <> 0)
    by (vm_compute; discriminate).
  split; [exact Hh|].
  destruct (configuration_is_kept 2 [Sample.image 64 64; Sample.image 32 48]
              Sample.configured_world Hh)
    as (Hc & _ & _ & _ & He).
  split; [exact Hc | exact He].
Defined.

(** The third call on [Sample.configured_world] submits with pts 3, and
    the first call on [Sample.fresh_world] configured width 64. *)
Lemma pts_is_the_frame_counter_witness :
  configured (this Sample.configured_world)
  /\ exit (publish_all 2 [Sample.image 64 64; Sample.image 64 64]
                       Sample.configured_world)
     = Returned
  /\ (exists f ret rest,
         events (publish 2 (Sample.image 64 64)
                   (world (publish_all 2
                             [Sample.image 64 64; Sample.image 64 64]
                             Sample.configured_world)))
         = Lock :: SendFrame f ret :: rest
         /\ Frame.pts f = frameCount_ (this Sample.configured_world) + 2)
  /\ pixel_format_ok Sample.libav = true
  /\ 0 <= snd (avcodec_open2 Sample.libav (encoder Sample.fresh_world)
                 (configure_context (Sample.image 64 64) default_context))
  /\ width (context_ (this (world (publish 2 (Sample.image 64 64)
                                           Sample.fresh_world))))
     = 64.
Proof.
  assert (Hcfg : configured (this Sample.configured_world)).
  { unfold configured. vm_compute. repeat split; discriminate. }
  assert (Hx : exit (publish_all 2 [Sample.image 64 64; Sample.image 64 64]
                                 Sample.configured_world)
               = Returned)
    by (vm_compute; reflexivity).
  assert (Hpf : pixel_format_ok Sample.libav = true) by reflexivity.
  assert (Hopen : 0 <= snd (avcodec_open2 Sample.libav
                              (encoder Sample.fresh_world)
                              (configure_context (Sample.image 64 64)
                                                 default_context)))
    by (vm_compute; discriminate).
  split; [exact Hcfg|]. split; [exact Hx|]. split.
  - exact (proj1 (proj2 pts_is_the_frame_counter)
             Sample.libav 2%nat [Sample.image 64 64; Sample.image 64 64]
             (Sample.image 64 64) Sample.configured_world Hcfg Hx).
  - split; [exact Hpf|]. split; [exact Hopen|].
    exact (proj1 (proj2 (proj2 pts_is_the_frame_counter)
                    Sample.libav 2%nat (encoder Sample.fresh_world)
                    "camera"%string [] Hpf Hopen)).
Defined.

(** The payload field of the envelope of [Sample.with_side_data]. *)
Lemma payload_field_holds_pointer_bytes_witness :
  exists env,
    Envelope.serialize Sample.memory Sample.with_side_data = Some env
    /\ firstn (Z.to_nat (size Sample.with_side_data))
              (skipn (Z.to_nat (4 + 8 + 4)) (Envelope.compressed_data env))
       = load Sample.memory (data_ref Sample.with_side_data)
              (size Sample.with_side_data).
Proof.
  assert (Hok : sizes_ok {| buffer_data := 4096; buffer_size := 8 |}
                         Sample.with_side_data)
    by sizes_by_evaluation.
  assert (Hfit : envelope_length {| buffer_data := 4096; buffer_size := 8 |}
                                 Sample.with_side_data
                 - 4 + side_data_elems Sample.with_side_data < 2 ^ 31)
    by (simpl; lia).
  exact (proj1 payload_field_holds_pointer_bytes
           Sample.memory {| buffer_data := 4096; buffer_size := 8 |}
           Sample.with_side_data eq_refl Hok Hfit).
Defined.

(** The vector of [Sample.with_side_data], three entries, is one byte
    short. *)
Lemma vector_is_shorter_than_the_fields_witness :
  exists env,
    Envelope.serialize Sample.memory Sample.with_side_data = Some env
    /\ Envelope.index_data_compressed env
       = envelope_length {| buffer_data := 4096; buffer_size := 8 |}
                         Sample.with_side_data
    /\ Z.of_nat (length (Envelope.compressed_data env))
       = envelope_length {| buffer_data := 4096; buffer_size := 8 |}
                         Sample.with_side_data
         - 4 + side_data_elems Sample.with_side_data
    /\ Envelope.overrun env = (side_data_elems Sample.with_side_data <? 4).
Proof.
  assert (Hok : sizes_ok {| buffer_data := 4096; buffer_size := 8 |}
                         Sample.with_side_data)
    by sizes_by_evaluation.
  assert (Hfit : envelope_length {| buffer_data := 4096; buffer_size := 8 |}
                                 Sample.with_side_data
                 - 4 + side_data_elems Sample.with_side_data < 2 ^ 31)
    by (simpl; lia).
  exact (proj1 vector_is_shorter_than_the_fields
           Sample.memory {| buffer_data := 4096; buffer_size := 8 |}
           Sample.with_side_data eq_refl Hok Hfit).
Defined.

(** The envelope of [Sample.with_side_data] is the cut of [written]. *)
Lemma side_data_bytes_are_pointer_bytes_witness :
  exists env,
    Envelope.serialize Sample.memory Sample.with_side_data = Some env
    /\ Envelope.compressed_data env
       = firstn (Z.to_nat
                   (envelope_length {| buffer_data := 4096; buffer_size := 8 |}
                                    Sample.with_side_data
                    - 4 + side_data_elems Sample.with_side_data))
                (written Sample.memory
                         {| buffer_data := 4096; buffer_size := 8 |}
                         Sample.with_side_data
                   ++ repeat x00
                        (Z.to_nat
                           (envelope_length
                              {| buffer_data := 4096; buffer_size := 8 |}
                              Sample.with_side_data
                            - 4 + side_data_elems Sample.with_side_data))).
Proof.
  assert (Hok : sizes_ok {| buffer_data := 4096; buffer_size := 8 |}
                         Sample.with_side_data)
    by sizes_by_evaluation.
  assert (Hfit : envelope_length {| buffer_data := 4096; buffer_size := 8 |}
                                 Sample.with_side_data
                 - 4 + side_data_elems Sample.with_side_data < 2 ^ 31)
    by (simpl; lia).
  exact (proj1 side_data_bytes_are_pointer_bytes
           Sample.memory {| buffer_data := 4096; buffer_size := 8 |}
           Sample.with_side_data eq_refl Hok Hfit).
Defined.

(** The first call on [Sample.closed_world] takes the [return] of line
    171. *)
Lemma failed_configuration_sets_the_guard_witness :
  height (context_ (this Sample.closed_world)) = 0
  /\ fst (fst (configure (Sample.image 64 64) Sample.closed_world)) = false
  /\ height (context_ (this (world (publish 2 (Sample.image 64 64)
                                            Sample.closed_world))))
     = Int.to_int (Msg.height (Sample.image 64 64)).
Proof.
  assert (Hh : height (context_ (this Sample.closed_world)) = 0)
    by reflexivity.
  assert (Hgo : fst (fst (configure (Sample.image 64 64) Sample.closed_world))
                = false)
    by (vm_compute; reflexivity).
  split; [exact Hh|]. split; [exact Hgo|].
  exact (proj1 (proj2 (proj2
           (proj1 failed_configuration_sets_the_guard
                  Sample.libav_closed 2%nat (Sample.image 64 64)
                  Sample.closed_world Hh Hgo)))
           (or_intror eq_refl)).
Defined.

(** * Further properties of the code *)

Lemma byte_of_Z_value (z : Z) :
  Z.of_N (Byte.to_N (Bytes.byte_of_Z z)) = z mod 256.
Proof.
  unfold Bytes.byte_of_Z.
  assert (Hb : 0 <= z mod 256 < 256) by (apply Z.mod_pos_bound; lia).
  destruct (Byte.of_N (Z.to_N (z mod 256))) as [b|] eqn:Hof.
  - apply Byte.to_of_N in Hof. rewrite Hof. apply Z2N.id. lia.
  - apply Byte.of_N_None_iff in Hof. lia.
Qed.

Lemma le_bytes_succ (n : nat) (z : Z) :
  Bytes.le_bytes (S n) z
  = Bytes.byte_of_Z z :: Bytes.le_bytes n (Z.shiftr z 8).
Proof.
  unfold Bytes.le_bytes. rewrite <- cons_seq. cbn [map].
  f_equal. rewrite <- seq_shift, map_map. apply map_ext. intros i.
  f_equal. rewrite Z.shiftr_shiftr by lia. f_equal. lia.
Qed.

Lemma le_value_le_bytes (n : nat) :
  forall z, Readback.le_value (Bytes.le_bytes n z) = z mod 2 ^ (8 * Z.of_nat n).
Proof.
  induction n as [|n IH]; intros z.
  - simpl. now rewrite Z.mod_1_r.
  - rewrite le_bytes_succ. cbn [Readback.le_value fold_right].
    fold (Readback.le_value (Bytes.le_bytes n (Z.shiftr z 8))).
    rewrite IH, byte_of_Z_value, Z.shiftr_div_pow2 by lia.
    replace (8 * Z.of_nat (S n)) with (8 + 8 * Z.of_nat n) by lia.
    rewrite Z.pow_add_r by lia.
    change (2 ^ 8) with 256.
    rewrite Z.rem_mul_r by lia. reflexivity.
Qed.

Lemma to_int_mod (z : Z) : Int.to_int (z mod 2 ^ 32) = Int.to_int z.
Proof.
  unfold Int.to_int. now rewrite Zplus_mod_idemp_l.
Qed.

Lemma to_int64_mod (z : Z) : Int.to_int64 (z mod 2 ^ 64) = Int.to_int64 z.
Proof.
  unfold Int.to_int64. now rewrite Zplus_mod_idemp_l.
Qed.

Lemma field_mid (A B R : list byte) (off n : nat) :
  off = length A -> n = length B ->
  Readback.field off n (A ++ B ++ R) = B.
Proof.
  intros -> ->. unfold Readback.field.
  rewrite skipn_app, skipn_all, Nat.sub_diag. simpl.
  rewrite firstn_app, firstn_all, Nat.sub_diag. simpl. apply app_nil_r.
Qed.

Lemma field_cut (off n N : nat) (l : list byte) :
  (off + n <= N)%nat ->
  Readback.field off n (firstn N l) = Readback.field off n l.
Proof.
  intros Hle. unfold Readback.field.
  rewrite skipn_firstn_comm, firstn_firstn, Nat.min_l by lia. reflexivity.
Qed.

Lemma read_int_of_int (z : Z) (off : nat) (bs : list byte) :
  Readback.field off 4 bs = Bytes.of_int z ->
  Readback.read_int off bs = Int.to_int z.
Proof.
  intros H. unfold Readback.read_int. rewrite H.
  unfold Bytes.of_int. rewrite le_value_le_bytes.
  change (2 ^ (8 * Z.of_nat 4)) with (2 ^ 32). apply to_int_mod.
Qed.

Lemma read_int64_of_int64 (z : Z) (off : nat) (bs : list byte) :
  Readback.field off 8 bs = Bytes.of_int64 z ->
  Readback.read_int64 off bs = Int.to_int64 z.
Proof.
  intros H. unfold Readback.read_int64. rewrite H.
  unfold Bytes.of_int64. rewrite le_value_le_bytes.
  change (2 ^ (8 * Z.of_nat 8)) with (2 ^ 64). apply to_int64_mod.
Qed.

Lemma read_int_field (z : Z) (off : nat) (bs : list byte) :
  Int.is_int z ->
  Readback.field off 4 bs = Bytes.of_int z ->
  Readback.read_int off bs = z.
Proof.
  intros Hz H. rewrite (read_int_of_int _ _ H). now apply to_int_id.
Qed.

Lemma read_int64_field (z : Z) (off : nat) (bs : list byte) :
  Int.is_int64 z ->
  Readback.field off 8 bs = Bytes.of_int64 z ->
  Readback.read_int64 off bs = z.
Proof.
  intros Hz H. rewrite (read_int64_of_int64 _ _ H). now apply to_int64_id.
Qed.

Lemma side_data_sum_min (l : list AVPacketSideData) :
  Forall (fun sd => 0 <= sd_size sd) l ->
  8 * Z.of_nat (length l)
  <= fold_right (fun sd acc => 4 + 4 + sd_size sd + acc) 0 l.
Proof.
  induction 1 as [|sd l Hs _ IH]; cbn [fold_right length]; lia.
Qed.

(** The size the vector is given, for sizes that fit. *)
Lemma size_data_fitting (b : AVBufferRef) (p : AVPacket) :
  sizes_ok b p ->
  envelope_length b p - 4 + side_data_elems p < 2 ^ 31 ->
  Envelope.size_data b p = envelope_length b p - 4 + side_data_elems p.
Proof.
  intros Hok Hfit.
  pose proof (envelope_length_min Hok) as Hmin.
  assert (Helems : 0 <= side_data_elems p)
    by (unfold side_data_elems; lia).
  rewrite size_data_value. apply to_int_id. unfold Int.is_int. lia.
Qed.

(** The fields of the vector that [write_packet] leaves, each at the
    offset the cursor had when it was copied. *)
Lemma write_packet_fields (m : Mem) (b : AVBufferRef) (p : AVPacket) :
  sizes_ok b p ->
  envelope_length b p - 4 + side_data_elems p < 2 ^ 31 ->
  let d := Envelope.compressed_data (Envelope.write_packet m b p) in
  let nb := Z.to_nat (buffer_size b) in
  let np := Z.to_nat (size p) in
  Readback.read_int 0 d = buffer_size b
  /\ Readback.field 4 nb d = load m (buffer_data b) (buffer_size b)
  /\ Readback.read_int (4 + nb) d = size p
  /\ (Int.is_int64 (pts p) -> Readback.read_int64 (8 + nb + np) d = pts p)
  /\ (Int.is_int64 (dts p) -> Readback.read_int64 (16 + nb + np) d = dts p)
  /\ (Int.is_int (stream_index p) ->
      Readback.read_int (24 + nb + np) d = stream_index p)
  /\ (Int.is_int (flags p) -> Readback.read_int (28 + nb + np) d = flags p)
  /\ Readback.read_int (32 + nb + np) d = side_data_elems p
  /\ (Int.is_int64 (duration p) ->
      Readback.read_int64 (Z.to_nat (envelope_length b p - 16)) d
      = duration p).
Proof.
  intros Hok Hfit.
  pose proof (size_data_fitting Hok Hfit) as Hsize.
  destruct (write_packet_written m Hok) as (Hd & _ & _).
  pose proof (written_length m Hok) as Hlen.
  pose proof (envelope_length_min Hok) as Hmin.
  destruct Hok as (Hb & Hp & Hsd & Hfits).
  pose proof (side_data_sum_min Hsd) as Hsum.
  pose proof (written_side_data_length m Hsd) as Hsdlen.
  assert (Helems : 0 <= side_data_elems p <= envelope_length b p - 52).
  { unfold side_data_elems, envelope_length in *. lia. }
  cbv zeta. rewrite Hd, Hsize.
  set (N := Z.to_nat (envelope_length b p - 4 + side_data_elems p)).
  set (c1 := Bytes.of_int (buffer_size b)).
  set (c2 := load m (buffer_data b) (buffer_size b)).
  set (c3 := Bytes.of_int (size p)).
  set (c4 := load m (data_ref p) (size p)).
  set (c5 := Bytes.of_int64 (pts p)).
  set (c6 := Bytes.of_int64 (dts p)).
  set (c7 := Bytes.of_int (stream_index p)).
  set (c8 := Bytes.of_int (flags p)).
  set (c9 := Bytes.of_int (side_data_elems p)).
  set (c10 := flat_map (written_side_data m) (side_data p)).
  set (c11 := Bytes.of_int64 (duration p)).
  set (c12 := Bytes.of_int64 (pos p)).
  set (Z0 := repeat x00 N).
  assert (Hw : written m b p
               = c1 ++ c2 ++ c3 ++ c4 ++ c5 ++ c6 ++ c7 ++ c8 ++ c9
                    ++ c10 ++ c11 ++ c12) by reflexivity.
  assert (L1 : length c1 = 4%nat) by apply of_int_length.
  assert (L2 : length c2 = Z.to_nat (buffer_size b)) by apply load_length.
  assert (L3 : length c3 = 4%nat) by apply of_int_length.
  assert (L4 : length c4 = Z.to_nat (size p)) by apply load_length.
  assert (L5 : length c5 = 8%nat) by apply of_int64_length.
  assert (L6 : length c6 = 8%nat) by apply of_int64_length.
  assert (L7 : length c7 = 4%nat) by apply of_int_length.
  assert (L8 : length c8 = 4%nat) by apply of_int_length.
  assert (L9 : length c9 = 4%nat) by apply of_int_length.
  assert (L11 : length c11 = 8%nat) by apply of_int64_length.
  assert (L12 : length c12 = 8%nat) by apply of_int64_length.
  assert (L10 : Z.of_nat (length c10) = envelope_length b p - 52
                                        - buffer_size b - size p).
  { subst c10. rewrite Hsdlen. unfold envelope_length. lia. }
  assert (HN : (Z.to_nat (envelope_length b p) - 8 <= N)%nat)
    by (subst N; lia).
  rewrite Hw.
  assert (Hfield : forall A B R off n,
             (c1 ++ c2 ++ c3 ++ c4 ++ c5 ++ c6 ++ c7 ++ c8 ++ c9 ++ c10
                 ++ c11 ++ c12) ++ Z0 = A ++ B ++ R ->
             off = length A -> n = length B -> (off + n <= N)%nat ->
             Readback.field off n
               (firstn N ((c1 ++ c2 ++ c3 ++ c4 ++ c5 ++ c6 ++ c7 ++ c8 ++ c9
                              ++ c10 ++ c11 ++ c12) ++ Z0)) = B).
  { intros A B R off n Heq Hoff Hn Hle.
    rewrite field_cut by exact Hle. rewrite Heq.
    apply field_mid; assumption. }
  split.
  { apply read_int_field; [unfold Int.is_int; lia|].
    eapply (Hfield [] c1); [now rewrite <- !app_assoc | reflexivity | | ];
      rewrite ?length_app; simpl; lia. }
  split.
  { eapply (Hfield c1 c2); [now rewrite <- !app_assoc | | | ];
      rewrite ?length_app; simpl; lia. }
  split.
  { apply read_int_field; [unfold Int.is_int; lia|].
    eapply (Hfield (c1 ++ c2) c3); [now rewrite <- !app_assoc | | | ];
      rewrite ?length_app; simpl; lia. }
  split.
  { intros Hpts. apply read_int64_field; [exact Hpts|].
    eapply (Hfield (c1 ++ c2 ++ c3 ++ c4) c5);
      [now rewrite <- !app_assoc | | | ]; rewrite ?length_app; simpl; lia. }
  split.
  { intros Hdts. apply read_int64_field; [exact Hdts|].
    eapply (Hfield (c1 ++ c2 ++ c3 ++ c4 ++ c5) c6);
      [now rewrite <- !app_assoc | | | ]; rewrite ?length_app; simpl; lia. }
  split.
  { intros Hsi. apply read_int_field; [exact Hsi|].
    eapply (Hfield (c1 ++ c2 ++ c3 ++ c4 ++ c5 ++ c6) c7);
      [now rewrite <- !app_assoc | | | ]; rewrite ?length_app; simpl; lia. }
  split.
  { intros Hfl. apply read_int_field; [exact Hfl|].
    eapply (Hfield (c1 ++ c2 ++ c3 ++ c4 ++ c5 ++ c6 ++ c7) c8);
      [now rewrite <- !app_assoc | | | ]; rewrite ?length_app; simpl; lia. }
  split.
  { apply read_int_field; [unfold Int.is_int; lia|].
    eapply (Hfield (c1 ++ c2 ++ c3 ++ c4 ++ c5 ++ c6 ++ c7 ++ c8) c9);
      [now rewrite <- !app_assoc | | | ]; rewrite ?length_app; simpl; lia. }
  intros Hdur. apply read_int64_field; [exact Hdur|].
  eapply (Hfield (c1 ++ c2 ++ c3 ++ c4 ++ c5 ++ c6 ++ c7 ++ c8 ++ c9 ++ c10)
                 c11);
    [now rewrite <- !app_assoc | | | ]; rewrite ?length_app; simpl; lia.
Qed.

(** The envelope round trip of lines 311-380 for the fields that are
    copied from the right place: the buffer size, the buffer bytes, the
    payload size, [pts], [dts], [stream_index], [flags], the number of
    side-data entries and [duration] can each be read back from the
    vector at the offset the cursor had, whatever bytes the payload and
    side-data regions hold and although the vector is short at its
    end. *)
Theorem envelope_fields_read_back :
  forall (m : Mem) (b : AVBufferRef) (p : AVPacket),
    buf p = Some b ->
    sizes_ok b p ->
    envelope_length b p - 4 + side_data_elems p < 2 ^ 31 ->
    Int.is_int64 (pts p) ->
    Int.is_int64 (dts p) ->
    Int.is_int (stream_index p) ->
    Int.is_int (flags p) ->
    Int.is_int64 (duration p) ->
    exists env,
      Envelope.serialize m p = Some env
      /\ let d := Envelope.compressed_data env in
         let nb := Z.to_nat (buffer_size b) in
         let np := Z.to_nat (size p) in
         Readback.read_int 0 d = buffer_size b
         /\ Readback.field 4 nb d = load m (buffer_data b) (buffer_size b)
         /\ Readback.read_int (4 + nb) d = size p
         /\ Readback.read_int64 (8 + nb + np) d = pts p
         /\ Readback.read_int64 (16 + nb + np) d = dts p
         /\ Readback.read_int (24 + nb + np) d = stream_index p
         /\ Readback.read_int (28 + nb + np) d = flags p
         /\ Readback.read_int (32 + nb + np) d = side_data_elems p
         /\ Readback.read_int64 (Z.to_nat (envelope_length b p - 16)) d
            = duration p.
Proof.
  intros m b p Hbuf Hok Hfit Hpts Hdts Hsi Hfl Hdur.
  destruct (serialize_sized m Hbuf Hok Hfit) as [Hser _].
  exists (Envelope.write_packet m b p). split; [exact Hser|].
  destruct (write_packet_fields m Hok Hfit)
    as (H1 & H2 & H3 & H4 & H5 & H6 & H7 & H8 & H9).
  cbv zeta. split; [exact H1|]. split; [exact H2|]. split; [exact H3|].
  split; [exact (H4 Hpts)|]. split; [exact (H5 Hdts)|].
  split; [exact (H6 Hsi)|]. split; [exact (H7 Hfl)|].
  split; [exact H8 | exact (H9 Hdur)].
Qed.

(** The vector that line 311 sizes is short by four bytes less the
    number of side-data entries, and [pos] is written last, so only [pos]
    can be cut: everything before it is in the vector as written; with
    fewer than four side-data entries the vector ends with the first
    bytes of [pos] only, and with four or more [pos] is whole and can be
    read back, followed by zero bytes that no field accounts for. *)
Theorem only_pos_is_cut :
  forall (m : Mem) (b : AVBufferRef) (p : AVPacket),
    buf p = Some b ->
    sizes_ok b p ->
    envelope_length b p - 4 + side_data_elems p < 2 ^ 31 ->
    Int.is_int64 (pos p) ->
    exists env,
      Envelope.serialize m p = Some env
      /\ let d := Envelope.compressed_data env in
         let k := Z.to_nat (envelope_length b p - 8) in
         firstn k d = firstn k (written m b p)
         /\ (side_data_elems p < 4 ->
             skipn k d
             = firstn (Z.to_nat (4 + side_data_elems p))
                      (Bytes.of_int64 (pos p)))
         /\ (4 <= side_data_elems p ->
             d = written m b p
                   ++ repeat x00 (Z.to_nat (side_data_elems p - 4))
             /\ Readback.read_int64 k d = pos p).
Proof.
  intros m b p Hbuf Hok Hfit Hpos.
  destruct (serialize_sized m Hbuf Hok Hfit) as [Hser Hsize].
  exists (Envelope.write_packet m b p). split; [exact Hser|].
  destruct (write_packet_written m Hok) as (Hd & _ & _).
  pose proof (written_length m Hok) as Hlen.
  pose proof (envelope_length_min Hok) as Hmin.
  assert (Helems : 0 <= side_data_elems p)
    by (unfold side_data_elems; lia).
  cbv zeta. rewrite Hd, Hsize.
  set (N := Z.to_nat (envelope_length b p - 4 + side_data_elems p)).
  set (k := Z.to_nat (envelope_length b p - 8)).
  remember (Bytes.of_int64 (pos p)) as c12 eqn:Hc12.
  assert (L12 : length c12 = 8%nat) by (subst c12; apply of_int64_length).
  assert (HW : exists W, written m b p = W ++ c12 /\ length W = k).
  { unfold written. eexists. split.
    - rewrite !app_assoc, Hc12. reflexivity.
    - unfold written in Hlen. rewrite !app_assoc in Hlen.
      rewrite length_app, of_int64_length in Hlen. subst k. lia. }
  destruct HW as (W & HW & HWlen).
  rewrite HW. split; [|split].
  - rewrite firstn_firstn, Nat.min_l by (subst k N; lia).
    rewrite <- !app_assoc, !firstn_app, HWlen, Nat.sub_diag. reflexivity.
  - intros Hlt.
    rewrite skipn_firstn_comm, <- app_assoc, skipn_app.
    rewrite skipn_all2 by lia. rewrite HWlen, Nat.sub_diag. simpl.
    replace (N - k)%nat with (Z.to_nat (4 + side_data_elems p))
      by (subst N k; lia).
    rewrite firstn_app, L12.
    replace (Z.to_nat (4 + side_data_elems p) - 8)%nat with 0%nat by lia.
    simpl. apply app_nil_r.
  - intros Hge.
    assert (Hall : firstn N ((W ++ c12) ++ repeat x00 N)
                   = (W ++ c12) ++ repeat x00 (Z.to_nat (side_data_elems p - 4))).
    { rewrite firstn_app, firstn_all2
        by (rewrite length_app; subst N k; lia).
      f_equal. rewrite length_app, HWlen, L12.
      replace (N - (k + 8))%nat with (Z.to_nat (side_data_elems p - 4))
        by (subst N k; lia).
      apply firstn_repeat. subst N. lia. }
    rewrite Hall. split; [reflexivity|].
    apply read_int64_field; [exact Hpos|].
    rewrite <- app_assoc, <- Hc12. apply field_mid; [now rewrite HWlen | now rewrite L12].
Qed.

(** ** Messages and packets *)



(** Events other than a receive or a message leave the three lists as
    they are. *)
Lemma quiet_events (l1 l2 : list Event) :
  Forall (fun e => is_traffic e = false) l1 ->
  published (l1 ++ l2) = published l2
  /\ received (l1 ++ l2) = received l2
  /\ deliveries (l1 ++ l2) = deliveries l2.
Proof.
  induction 1 as [|e l1 He _ IH]; [auto|].
  destruct e; try discriminate; simpl; exact IH.
Qed.

Lemma sends_quiet (f : Frame.AVFrame) (rets : list Z) :
  Forall (fun e => is_traffic e = false) (map (SendFrame f) rets).
Proof. induction rets; simpl; constructor; auto. Qed.

Lemma config_quiet (cfg : list Event) :
  Forall (fun e => is_config_event e = true) cfg ->
  Forall (fun e => is_traffic e = false) cfg.
Proof.
  induction 1 as [|e cfg He _ IH]; constructor; [|exact IH].
  destruct e; try discriminate; reflexivity.
Qed.

Lemma drained_traffic message tb
      (ps : list (Z * AVPacket * Envelope.Writer)) (tail : list Event) :
  Forall (drained_ok tb) ps ->
  published (drained_events message ps ++ tail)
  = map snd (delivered message ps) ++ published tail
  /\ received (drained_events message ps ++ tail)
     = map fst (delivered message ps) ++ received tail
  /\ deliveries (drained_events message ps ++ tail)
     = delivered message ps ++ deliveries tail.
Proof.
  induction 1 as [|x ps [Hret _] _ (IH1 & IH2 & IH3)]; [auto|].
  simpl. destruct (Z.geb_spec (fst (fst x)) 0); [|lia].
  simpl. now rewrite IH1, IH2, IH3.
Qed.

Section Traffic.

Variable L : Libav.

(** The traffic of a call to [encode]. *)
Lemma encode_traffic fuel message (w : World L) :
  exists ps owed thrown,
    traffic message (encode fuel message w) ps owed thrown.
Proof.
  unfold traffic. cbv zeta.
  destruct (encode_keeps fuel message w) as (Hk & Hi & _).
  rewrite Hk, Hi. clear Hk Hi.
  destruct (encode_cases fuel message w)
    as [(inF & sws & outF & Hin & Hsws & Hout) | ->].
  2: { exists [], [], []. simpl. repeat split; auto; discriminate. }
  destruct (encode_events fuel message w Hin Hsws Hout)
    as (ret0 & rets & rest & Hev & _ & _ & Hcases).
  rewrite Hev.
  change (SendFrame (Frame.set_pts outF (frameCount_ (this w))) ret0
            :: map (SendFrame (Frame.set_pts outF (frameCount_ (this w))))
                   rets ++ rest)
    with (map (SendFrame (Frame.set_pts outF (frameCount_ (this w))))
              (ret0 :: rets) ++ rest).
  destruct (quiet_events rest
              (sends_quiet (Frame.set_pts outF (frameCount_ (this w)))
                           (ret0 :: rets)))
    as (-> & -> & ->).
  destruct Hcases as [(Hx & -> & _) | (_ & _ & ps & tail & -> & Hok & Hx)].
  - exists [], [], []. simpl. rewrite Hx.
    repeat split; auto; discriminate.
  - destruct (drained_traffic message tail Hok) as (-> & -> & ->).
    destruct (exit (encode fuel message w)).
    + destruct Hx as (ret & p & -> & Hneg).
      exists ps, [], []. simpl.
      destruct (Z.geb_spec ret 0); [lia|].
      rewrite !app_nil_r. repeat split; auto; try discriminate; congruence.
    + destruct Hx as (ret & p & -> & Hpos).
      exists ps, [p], []. simpl.
      destruct (Z.geb_spec ret 0); [|lia].
      rewrite !app_nil_r.
      repeat split; auto; try discriminate; try absurd_exit; congruence.
    + destruct Hx as (ret & p & Hpos & [-> | (env & Hok1 & ->)]).
      * exists ps, [p], []. simpl.
        destruct (Z.geb_spec ret 0); [|lia].
        rewrite !app_nil_r.
        repeat split; auto; try discriminate; try absurd_exit; congruence.
      * exists ps, [], [(p, compressed_of message env)]. simpl.
        destruct (Z.geb_spec ret 0); [|lia].
        rewrite !map_app. simpl. rewrite !app_nil_r.
        split; [assumption|]. split; [reflexivity|].
        split; [reflexivity|]. split; [reflexivity|].
        split; [auto|]. split; [intros [Hc | Hc]; discriminate|].
        split; [discriminate|]. split; [reflexivity|]. split.
        -- constructor; [|constructor]. exists ret, env. split; auto.
        -- congruence.
    + destruct Hx as [-> _].
      exists ps, [], []. simpl.
      rewrite !app_nil_r. repeat split; auto; try discriminate; congruence.
Qed.

(** The same for [publish]: the configuration block adds nothing. *)
Lemma publish_traffic fuel message (w : World L) :
  exists ps owed thrown,
    traffic message (publish fuel message w) ps owed thrown.
Proof.
  unfold traffic, publish. cbv zeta.
  destruct (height (context_ (this w)) =? 0).
  - pose proof (configure_spec message w) as Hc. cbv zeta in Hc.
    destruct (configure message w) as [[go w1] cfg]. simpl in Hc.
    destruct Hc as (_ & _ & _ & Hcfg & _).
    pose proof (config_quiet Hcfg) as Hq.
    destruct go; cbn [exit events world].
    + change (Lock :: cfg ++ events (encode fuel message w1))
        with ((Lock :: cfg) ++ events (encode fuel message w1)).
      destruct (quiet_events (events (encode fuel message w1))
                  (Forall_cons Lock (eq_refl : is_traffic Lock = false) Hq))
        as (-> & -> & ->).
      apply encode_traffic.
    + change (Lock :: cfg ++ [Unlock]) with ((Lock :: cfg) ++ [Unlock]).
      destruct (quiet_events [Unlock]
                  (Forall_cons Lock (eq_refl : is_traffic Lock = false) Hq))
        as (-> & -> & ->).
      exists [], [], []. simpl. repeat split; auto; discriminate.
  - cbn [exit events world deliveries published received].
    apply encode_traffic.
Qed.

End Traffic.

(** Every message handed to the publish function carries the header of
    the image and the format h265, and follows the receive of the packet
    it was made of.  A call that returns, or is still in a loop, has
    published every packet it received with a non-negative result; a
    call in which the process dies has received nothing, or one packet
    more than it published; a call that throws has received as many
    packets as it published (the publish function threw) or one more
    ([resize] threw). *)
Theorem one_message_per_packet :
  forall (L : Libav) (fuel : nat) (message : Msg.Image) (w : World L),
    let r := publish fuel message w in
    Forall (fun c => Msg.c_header c = Msg.header message
                     /\ Msg.c_format c = "h265"%string)
           (published (events r))
    /\ map snd (deliveries (events r)) = published (events r)
    /\ (exit r = Returned \/ exit r = Spinning ->
        map fst (deliveries (events r)) = received (events r))
    /\ (exit r = Faulted ->
        (received (events r) = [] /\ published (events r) = [])
        \/ length (received (events r))
           = S (length (published (events r))))
    /\ (exit r = Threw ->
        length (received (events r)) = length (published (events r))
        \/ length (received (events r))
           = S (length (published (events r))))
    /\ (length (published (events r)) <= length (received (events r))
        <= S (length (published (events r))))%nat.
Proof.
  intros L fuel message w r.
  destruct (publish_traffic fuel message w)
    as (ps & owed & thrown & _ & Hd & Hp & Hr & Hlen & Hend & Hfault
        & Hthrew & Hthrown & _).
  fold r in Hd, Hp, Hr, Hend, Hfault, Hthrew.
  rewrite Hd, Hp, Hr.
  split; [|split; [reflexivity|]].
  - apply Forall_forall. intros c Hc. apply in_map_iff in Hc.
    destruct Hc as ([p c'] & <- & Hin). simpl.
    apply in_app_or in Hin. destruct Hin as [Hin | Hin].
    + unfold delivered in Hin. apply in_map_iff in Hin.
      destruct Hin as (x & Hx & _). inversion Hx. split; reflexivity.
    + rewrite Forall_forall in Hthrown.
      destruct (Hthrown _ Hin) as (ret & env & _ & Hc').
      simpl in Hc'. subst c'. split; reflexivity.
  - rewrite !length_app, !length_map, !length_app.
    split; [|split; [|split]].
    + intros Hx. destruct (Hend Hx) as [-> ->]. now rewrite !app_nil_r.
    + intros Hx. destruct (Hfault Hx) as [-> [[-> ->] | Ho]].
      * left. split; reflexivity.
      * right. simpl. lia.
    + intros Hx. specialize (Hthrew Hx).
      destruct owed as [|o owed]; simpl in *; [left | right]; lia.
    + lia.
Qed.

(** * Timestamps in the envelope, and the order of calls *)

(** ** Timestamps in the envelope *)

(** With a time base of positive terms the guarded rescale leaves a
    packet as it is. *)
Lemma rescale_packet_same (tb : AVRational) (p : AVPacket) :
  0 < num tb * den tb < 2 ^ 63 ->
  Int.is_int64 (pts p) ->
  Int.is_int64 (dts p) ->
  rescale_packet tb p = p.
Proof.
  intros Htb Hp Hd. unfold rescale_packet.
  rewrite (scale_timestamp_same tb Htb Hp), (scale_timestamp_same tb Htb Hd).
  destruct p; reflexivity.
Qed.

(** C8.  The rescale of lines 290-304 goes from the context's time base
    to the same time base, so it changes nothing whenever that time base
    has positive terms: an unset timestamp is skipped by the guard and
    any other [int64_t] value is mapped to itself.  From a fresh
    publisher on, whenever a call gets as far as the drain loop the time
    base is the 1/30 of the configuration block.  Hence, in every call of
    every sequence of calls, each message handed to the publish function
    follows the receive of a packet and is made of the envelope of that
    packet as the encoder gave it, and the pts and dts read back from
    the message, at the offsets behind the buffer and the payload, are
    the ones the encoder assigned. *)
Theorem rescale_is_identity :
  (forall (tb : AVRational) (ts : Z),
      0 < num tb -> 0 < den tb ->
      Int.is_int (num tb) -> Int.is_int (den tb) ->
      Int.is_int64 ts ->
      Rescale.scale_timestamp tb Rescale.AV_NOPTS_VALUE
      = Rescale.AV_NOPTS_VALUE
      /\ Rescale.scale_timestamp tb ts = ts)
  /\ (forall (L : Libav) (fuel : nat) (messages : list Msg.Image)
             (message : Msg.Image) (w : World L),
         timed (this w) ->
         let r := publish fuel message (world (publish_all fuel messages w)) in
         map snd (deliveries (events r)) = published (events r)
         /\ (deliveries (events r) <> [] ->
             time_base (context_ (this (world r)))
             = {| num := 1; den := 30 |})
         /\ forall (p : AVPacket) (c : Msg.CompressedImage),
             In (p, c) (deliveries (events r)) ->
             Int.is_int64 (pts p) ->
             Int.is_int64 (dts p) ->
             (exists m env,
                 Envelope.serialize m p = Some env
                 /\ c = compressed_of message env)
             /\ forall b,
                 buf p = Some b ->
                 sizes_ok b p ->
                 envelope_length b p - 4 + side_data_elems p < 2 ^ 31 ->
                 Readback.read_int64
                   (8 + Z.to_nat (buffer_size b) + Z.to_nat (size p))
                   (Msg.c_data c)
                 = pts p
                 /\ Readback.read_int64
                      (16 + Z.to_nat (buffer_size b) + Z.to_nat (size p))
                      (Msg.c_data c)
                    = dts p).
Proof.
  split.
  - intros tb ts Hn Hd Hni Hdi Hts.
    assert (Htb : 0 < num tb * den tb < 2 ^ 63).
    { unfold Int.is_int in Hni, Hdi. split; [nia|].
      assert (num tb * den tb <= 2 ^ 31 * 2 ^ 31) by nia. lia. }
    split.
    + unfold Rescale.scale_timestamp. now rewrite Z.eqb_refl.
    + exact (scale_timestamp_same tb Htb Hts).
  - intros L fuel messages message w Ht r.
    pose proof (publish_all_timed fuel messages w Ht) as Ht1.
    pose proof (publish_timed fuel message _ Ht1) as Ht2.
    fold r in Ht2.
    destruct (publish_traffic fuel message (world (publish_all fuel messages w)))
      as (ps & owed & thrown & Hok & Hdl & Hp & _ & _ & _ & _ & _ & Hthrown
          & Hnull).
    fold r in Hok, Hdl, Hp, Hthrown, Hnull.
    assert (Htb : deliveries (events r) <> [] ->
                  time_base (context_ (this (world r)))
                  = {| num := 1; den := 30 |}).
    { intros Hne. destruct Ht2 as [Hnone | Htb]; [|exact Htb].
      exfalso. apply Hne. destruct (Hnull Hnone) as [-> ->].
      rewrite Hdl. reflexivity. }
    split; [now rewrite Hdl, Hp|]. split; [exact Htb|].
    intros p c Hin Hpts Hdts.
    assert (Hne : deliveries (events r) <> []).
    { intros Hnil. rewrite Hnil in Hin. exact Hin. }
    specialize (Htb Hne).
    assert (Hdr : exists ret env,
               drained_ok (time_base (context_ (this (world r))))
                          (ret, p, env)
               /\ c = compressed_of message env).
    { rewrite Hdl in Hin. apply in_app_or in Hin.
      destruct Hin as [Hin | Hin].
      - unfold delivered in Hin. apply in_map_iff in Hin.
        destruct Hin as ([[ret p'] env] & Hx & Hin).
        simpl in Hx. inversion Hx; subst.
        rewrite Forall_forall in Hok.
        exists ret, env. split; [exact (Hok _ Hin) | reflexivity].
      - rewrite Forall_forall in Hthrown.
        exact (Hthrown _ Hin). }
    destruct Hdr as (ret & env & [_ (m & Hser)] & ->).
    simpl in Hser. rewrite Htb in Hser.
    rewrite (rescale_packet_same {| num := 1; den := 30 |} p) in Hser;
      [|simpl; lia|exact Hpts|exact Hdts].
    split.
    + exists m, env. split; [exact Hser | reflexivity].
    + intros b Hbuf Hsz Hfit.
      destruct (serialize_sized m Hbuf Hsz Hfit) as [Hser' _].
      rewrite Hser in Hser'. inversion Hser'. subst env.
      destruct (write_packet_fields m Hsz Hfit)
        as (_ & _ & _ & H4 & H5 & _).
      cbv zeta in H4, H5. cbn [Msg.c_data compressed_of].
      split; [exact (H4 Hpts) | exact (H5 Hdts)].
Qed.

(** On [Corner.stamped_world] the first call publishes the packet with
    pts 7 and dts 5: the two are read back from the message at offsets
    20 and 28. *)
Lemma rescale_is_identity_witness :
  let c :=
    compressed_of (Sample.image 64 64)
      (Envelope.write_packet Sample.memory
         {| buffer_data := 4096; buffer_size := 8 |} (Corner.stamped 7 5)) in
  timed (this Corner.stamped_world)
  /\ In (Corner.stamped 7 5, c)
        (deliveries (events (publish 3 (Sample.image 64 64)
                                     Corner.stamped_world)))
  /\ Readback.read_int64 20 (Msg.c_data c) = 7
  /\ Readback.read_int64 28 (Msg.c_data c) = 5.
Proof.
  intros c.
  assert (Ht : timed (this Corner.stamped_world)) by (left; reflexivity).
  assert (Hin : In (Corner.stamped 7 5, c)
                   (deliveries (events (publish 3 (Sample.image 64 64)
                                                Corner.stamped_world)))).
  { vm_compute. left. reflexivity. }
  assert (Hp : Int.is_int64 (pts (Corner.stamped 7 5)))
    by (unfold Int.is_int64; simpl; lia).
  assert (Hd : Int.is_int64 (dts (Corner.stamped 7 5)))
    by (unfold Int.is_int64; simpl; lia).
  assert (Hok : sizes_ok {| buffer_data := 4096; buffer_size := 8 |}
                         (Corner.stamped 7 5))
    by sizes_by_evaluation.
  assert (Hfit : envelope_length {| buffer_data := 4096; buffer_size := 8 |}
                                 (Corner.stamped 7 5)
                 - 4 + side_data_elems (Corner.stamped 7 5) < 2 ^ 31)
    by (simpl; lia).
  split; [exact Ht|]. split; [exact Hin|].
  exact (proj2 (proj2 (proj2 (proj2 rescale_is_identity
                  Sample.libav 3%nat [] (Sample.image 64 64)
                  Corner.stamped_world Ht))
               (Corner.stamped 7 5) c Hin Hp Hd)
           {| buffer_data := 4096; buffer_size := 8 |} eq_refl Hok Hfit).
Defined.

(** ** The shape of a call *)

Section Shapes.

Variable L : Libav.





(** *** The lock *)


End Shapes.

(** ** The mutex *)










(** *** Calls in order *)








(** *** Calls as critical sections *)









(** * Further properties of the code, continued *)

(** ** Calls that never end *)

Lemma published_sends (f : Frame.AVFrame) (rets : list Z) :
  published (map (SendFrame f) rets) = []
  /\ received (map (SendFrame f) rets) = [].
Proof. induction rets as [|r rets [IH1 IH2]]; simpl; auto. Qed.

Section Spin.

Variable L : Libav.

Lemma send_loop_refused fuel f fr :
  (forall e, snd (avcodec_send_frame L e f) <> 0) ->
  forall e idx,
    fst (fst (fst (send_loop L fuel f fr e idx))) = false.
Proof.
  intros Href. induction fuel as [|n IH]; intros e idx; simpl; [reflexivity|].
  pose proof (Href e) as Hne.
  destruct (avcodec_send_frame L e f) as [e1 ret]. simpl in Hne.
  destruct (Z.eqb_spec ret 0); [contradiction|].
  specialize (IH e1 idx).
  destruct (send_loop L n f fr e1 idx) as [[[ended e2] idx2] evs].
  exact IH.
Qed.



End Spin.

(** An encoder that never accepts the frame keeps the call in the retry
    loop for ever: the call does not return, publishes nothing and does
    not release the lock. *)
Theorem refused_frame_never_returns :
  forall (L : Libav) (fuel : nat) (message : Msg.Image) (w : World L),
    configured (this w) ->
    (forall e f, snd (avcodec_send_frame L e f) <> 0) ->
    let r := publish fuel message w in
    exit r = Spinning
    /\ published (events r) = []
    /\ received (events r) = []
    /\ ~ In Unlock (events r)
    /\ length (filter is_send (events r)) = S fuel.
Proof.
  intros L fuel message w (Hh & Hin & Hout & Hsws) Href r. subst r.
  rewrite (publish_guarded fuel message w Hh). cbn [exit events].
  destruct (avInFrame_ (this w)) as [inF|] eqn:Ein; [|congruence].
  destruct (swsCtx_ (this w)) as [sws|] eqn:Esws; [|congruence].
  destruct (avOutFrame_ (this w)) as [outF|] eqn:Eout; [|congruence].
  unfold encode. cbv zeta. rewrite Ein, Esws, Eout.
  set (f := Frame.set_pts outF (frameCount_ (this w))).
  destruct (avcodec_send_frame L (encoder w) f) as [e0 ret0].
  pose proof (@send_loop_refused L fuel f
                (num (framerate (context_ (this w)))) (fun e => Href e f)
                e0 (frameIdx (this w))) as Hend.
  destruct (send_loop_events L fuel f (num (framerate (context_ (this w))))
                             e0 (frameIdx (this w)))
    as (rets & Hev & _ & Hshape).
  destruct (send_loop L fuel f _ e0 _) as [[[ended e1] idx] sends].
  simpl in Hend, Hev, Hshape. subst ended sends.
  destruct Hshape as [_ Hlen].
  cbn [exit events published received filter is_send length].
  destruct (published_sends f rets) as [Hp Hr].
  split; [reflexivity|]. split; [exact Hp|]. split; [exact Hr|]. split.
  - intros [H|[H|H]]; try discriminate.
    apply in_map_iff in H. destruct H as (x & H & _). discriminate.
  - f_equal. rewrite <- Hlen. clear.
    induction rets as [|x rets IH]; simpl; [reflexivity | now rewrite IH].
Qed.


(** ** The guard, the pacing and the geometry *)

Section Guard.

Variable L : Libav.

Lemma publish_sets_guard fuel message (w : World L) :
  height (context_ (this w)) = 0 ->
  context_ (this (world (publish fuel message w)))
  = if pixel_format_ok L
    then ff_set_dimensions (configure_context message (context_ (this w)))
    else configure_context message (context_ (this w)).
Proof.
  intros Hh. unfold publish. rewrite Hh. simpl Z.eqb. cbv iota.
  pose proof (configure_spec message w) as Hc. cbv zeta in Hc.
  destruct (configure message w) as [[go w1] cfg]. simpl in Hc.
  destruct Hc as (Hctx & _).
  destruct go; cbn [world].
  - destruct (encode_keeps fuel message w1) as (Hk & _). now rewrite Hk.
  - exact Hctx.
Qed.

Lemma configure_rate message (w : World L) :
  num (framerate (context_ (this (snd (fst (configure message w)))))) = 30.
Proof.
  destruct (configure_spec message w) as (Hctx & _). rewrite Hctx.
  destruct (pixel_format_ok L); [|reflexivity].
  destruct (ff_set_dimensions_keeps
              (configure_context message (context_ (this w))))
    as (_ & _ & _ & -> & _).
  reflexivity.
Qed.

Lemma send_loop_idx fuel f fr :
  forall e idx,
    snd (fst (send_loop L fuel f fr e idx))
    = if fst (fst (fst (send_loop L fuel f fr e idx)))
      then Z.rem idx fr + 1 else idx.
Proof.
  induction fuel as [|n IH]; intros e idx; simpl; [reflexivity|].
  destruct (avcodec_send_frame L e f) as [e1 ret].
  destruct (ret =? 0); [reflexivity|].
  specialize (IH e1 idx).
  destruct (send_loop L n f fr e1 idx) as [[[ended e2] idx2] evs].
  exact IH.
Qed.

(** What [encode] does to [frameIdx]. *)
Lemma encode_idx fuel message (w : World L) :
  (frameIdx (this (world (encode fuel message w))) = frameIdx (this w)
   /\ exit (encode fuel message w) <> Returned)
  \/ (avInFrame_ (this w) <> None
      /\ frameIdx (this (world (encode fuel message w)))
         = Z.rem (frameIdx (this w)) (num (framerate (context_ (this w)))) + 1).
Proof.
  destruct (encode_cases fuel message w)
    as [(inF & sws & outF & Hin & Hsws & Hout) | ->].
  2: { left. split; [reflexivity | discriminate]. }
  unfold encode. cbv zeta. rewrite Hin, Hsws, Hout.
  destruct (avcodec_send_frame L (encoder w) _) as [e0 ret0].
  pose proof (send_loop_idx fuel (Frame.set_pts outF (frameCount_ (this w)))
                (num (framerate (context_ (this w)))) e0 (frameIdx (this w)))
    as Hidx.
  destruct (send_loop L fuel _ _ e0 _) as [[[ended e1] idx] sends].
  simpl in Hidx. destruct ended.
  - destruct (drain_loop L fuel message _ e1 _) as [[[x e2] ovr] drained].
    cbn [world this frameIdx]. right. split; [discriminate | exact Hidx].
  - cbn [world this frameIdx exit]. left.
    split; [exact Hidx | discriminate].
Qed.

Lemma publish_paced fuel message (w : World L) :
  paced (this w) -> paced (this (world (publish fuel message w))).
Proof.
  intros [Hrange Hrate]. unfold publish.
  assert (Hstep : forall i, 0 <= i <= 30 -> 0 <= Z.rem i 30 + 1 <= 30).
  { intros i Hi. pose proof (Z.rem_bound_pos i 30). lia. }
  destruct (height (context_ (this w)) =? 0).
  - pose proof (configure_spec message w) as Hc. cbv zeta in Hc.
    pose proof (configure_rate message w) as Hfr.
    destruct (configure message w) as [[go w1] cfg]. simpl in Hc, Hfr.
    destruct Hc as (_ & _ & Hidx & _).
    destruct go; cbn [world].
    + destruct (encode_keeps fuel message w1) as (Hk & _).
      split.
      * destruct (encode_idx fuel message w1) as [[-> _] | [_ ->]].
        -- now rewrite Hidx.
        -- rewrite Hfr, Hidx. apply Hstep. exact Hrange.
      * right. rewrite Hk. exact Hfr.
    + split; [now rewrite Hidx|]. right. exact Hfr.
  - cbn [world].
    destruct (encode_keeps fuel message w) as (Hk & Hi & _).
    split.
    + destruct (encode_idx fuel message w) as [[-> _] | [Hsome ->]].
      * exact Hrange.
      * destruct Hrate as [Hnone | ->]; [contradiction|].
        apply Hstep. exact Hrange.
    + destruct Hrate as [Hnone | Hr].
      * left. now rewrite Hi.
      * right. now rewrite Hk.
Qed.

End Guard.

(** The [int] a 32-bit unsigned value is stored as. *)
Lemma to_int_of_uint32 z :
  0 <= z < 2 ^ 32 ->
  (z < 2 ^ 31 -> Int.to_int z = z)
  /\ (2 ^ 31 <= z -> Int.to_int z = z - 2 ^ 32).
Proof.
  intros Hrange. split.
  - intros Hlt. apply to_int_id. unfold Int.is_int. lia.
  - intros Hge. unfold Int.to_int.
    replace (z + 2 ^ 31) with (z - 2 ^ 31 + 1 * 2 ^ 32) by lia.
    rewrite Z.mod_add by lia. rewrite Z.mod_small by lia. lia.
Qed.

(** A call that finds the guard unset assigns the frame's height to the
    context (line 115), where a height of 2^31 or more becomes a
    negative number.  That is the new guard when the pixel-format test
    fails, since the call returns before [avcodec_open2], and when the
    picture size is one [avcodec_open2] accepts.  Otherwise
    [avcodec_open2], which gets the context by pointer (line 169),
    replaces the size by 0 x 0, and the guard stays unset. *)
Theorem guard_follows_height :
  forall (L : Libav) (fuel : nat) (message : Msg.Image) (w : World L),
    height (context_ (this w)) = 0 ->
    0 <= Msg.height message < 2 ^ 32 ->
    let r := publish fuel message w in
    let valid :=
      av_image_check_size2 (Int.to_int (Msg.width message))
                           (Int.to_int (Msg.height message)) in
    (pixel_format_ok L = false \/ valid = true ->
     (height (context_ (this (world r))) = 0 <-> Msg.height message = 0)
     /\ (Msg.height message < 2 ^ 31 ->
         height (context_ (this (world r))) = Msg.height message)
     /\ (2 ^ 31 <= Msg.height message ->
         height (context_ (this (world r))) = Msg.height message - 2 ^ 32))
    /\ (pixel_format_ok L = true -> valid = false ->
        height (context_ (this (world r))) = 0
        /\ width (context_ (this (world r))) = 0)
    /\ (Msg.height message = 0 \/ 2 ^ 31 <= Msg.height message ->
        valid = false).
Proof.
  intros L fuel message w Hh Hrange r valid. subst r.
  rewrite (publish_sets_guard fuel message w Hh).
  destruct (to_int_of_uint32 Hrange) as [Hlow Hhigh].
  assert (Hkept : pixel_format_ok L = false \/ valid = true ->
                  height (if pixel_format_ok L
                          then ff_set_dimensions
                                 (configure_context message (context_ (this w)))
                          else configure_context message (context_ (this w)))
                  = Int.to_int (Msg.height message)).
  { intros Hcase.
    destruct (ff_set_dimensions_size
                (configure_context message (context_ (this w))))
      as [[_ ->] | (Hv & _)].
    - destruct (pixel_format_ok L); reflexivity.
    - cbn [configure_context width height] in Hv. fold valid in Hv.
      destruct Hcase as [-> | Hv']; [reflexivity | congruence]. }
  split; [|split].
  - intros Hcase. rewrite (Hkept Hcase).
    split; [|split; assumption].
    destruct (Z.lt_ge_cases (Msg.height message) (2 ^ 31)) as [Hlt|Hge].
    + rewrite (Hlow Hlt). reflexivity.
    + rewrite (Hhigh Hge). lia.
  - intros Hpf Hv. rewrite Hpf.
    destruct (ff_set_dimensions_size
                (configure_context message (context_ (this w))))
      as [[Hv' _] | (_ & Hw0 & Hh0)].
    + cbn [configure_context width height] in Hv'. fold valid in Hv'.
      congruence.
    + split; assumption.
  - intros Hcase. unfold valid, av_image_check_size2. cbv zeta.
    destruct Hcase as [Hz | Hge].
    + rewrite Hz. change (Int.to_int 0 mod 2 ^ 32) with 0.
      rewrite Z.eqb_refl, orb_true_r. reflexivity.
    + rewrite (Hhigh Hge).
      replace (Msg.height message - 2 ^ 32)
        with (Msg.height message + (-1) * 2 ^ 32) by lia.
      rewrite Z.mod_add by lia.
      rewrite (Z.mod_small (Msg.height message)) by lia.
      assert (Hgt : (Msg.height message >? Int.INT_MAX) = true).
      { apply Z.gtb_lt. unfold Int.INT_MAX. lia. }
      rewrite Hgt, !orb_true_r. reflexivity.
Qed.

(** [frameIdx] counts the accepted frames within the frame rate: it
    stays within 0..30 over any sequence of calls, and a call that returns
    after submitting moves it from i to (i mod 30) + 1. *)
Theorem frame_index_stays_in_range :
  forall (L : Libav) (fuel : nat) (messages : list Msg.Image)
         (message : Msg.Image) (w : World L),
    paced (this w) ->
    paced (this (world (publish_all fuel messages w)))
    /\ (exit (publish fuel message w) = Returned ->
        existsb is_send (events (publish fuel message w)) = true ->
        frameIdx (this (world (publish fuel message w)))
        = Z.rem (frameIdx (this w)) 30 + 1).
Proof.
  intros L fuel messages message w Hp. split.
  - revert w Hp. induction messages as [|m rest IH]; intros w Hp; simpl.
    + exact Hp.
    + pose proof (publish_paced fuel m w Hp) as Hp'.
      destruct (exit (publish fuel m w)); cbn [world]; auto.
  - destruct Hp as [_ Hrate]. unfold publish.
    destruct (height (context_ (this w)) =? 0).
    + pose proof (configure_spec message w) as Hc. cbv zeta in Hc.
      pose proof (configure_rate message w) as Hfr.
      destruct (configure message w) as [[go w1] cfg]. simpl in Hc, Hfr.
      destruct Hc as (_ & _ & Hidx & Hcfg & _).
      destruct go; cbn [exit events world].
      * intros Hx _.
        destruct (encode_idx fuel message w1) as [[_ Hne] | [_ ->]];
          [contradiction|].
        rewrite Hfr, Hidx. reflexivity.
      * intros _ Hs. exfalso. simpl in Hs. rewrite existsb_app in Hs.
        assert (Hns : existsb is_send cfg = false).
        { clear -Hcfg. induction Hcfg as [|e l He _ IH]; [reflexivity|].
          simpl. rewrite IH. destruct e; try discriminate; reflexivity. }
        rewrite Hns in Hs. discriminate.
    + cbn [exit events world]. intros Hx _.
      destruct (encode_idx fuel message w) as [[_ Hne] | [Hsome ->]];
        [contradiction|].
      destruct Hrate as [Hnone | ->]; [contradiction | reflexivity].
Qed.

Lemma untimed_same (a b : option Frame.AVFrame) :
  untimed a = untimed b ->
  match a, b with
  | None, None => True
  | Some x, Some y =>
      Frame.width x = Frame.width y
      /\ Frame.height x = Frame.height y
      /\ Frame.format x = Frame.format y
  | _, _ => False
  end.
Proof.
  destruct a as [x|], b as [y|]; simpl; intros H; try discriminate; auto.
  inversion H. auto.
Qed.

Section Geometry.

Variable L : Libav.

Lemma encode_coherent fuel message (w : World L) :
  coherent (this w) -> coherent (this (world (encode fuel message w))).
Proof.
  destruct (encode_keeps fuel message w) as (Hc & Hi & Hs & Ho).
  apply untimed_same in Ho.
  unfold coherent. rewrite Hc, Hi, Hs.
  intros (Hin & Hsws & Hout). split; [exact Hin|]. split; [exact Hsws|].
  intros o' Ho'. rewrite Ho' in Ho.
  destruct (avOutFrame_ (this w)) as [o|]; [|contradiction].
  destruct Ho as (Hw & Hh & Hf). rewrite Hw, Hh, Hf. now apply Hout.
Qed.

(** A size [av_image_check_size2] accepts has rows. *)
Lemma valid_height (wd ht : Z) :
  av_image_check_size2 wd ht = true -> ht <> 0.
Proof.
  intros Hv ->. unfold av_image_check_size2 in Hv. cbv zeta in Hv.
  change (0 mod 2 ^ 32) with 0 in Hv.
  rewrite Z.eqb_refl, orb_true_r in Hv. discriminate.
Qed.

Lemma configure_coherent message (w : World L) :
  (forall e c, av_image_check_size2 (width c) (height c) = false ->
               snd (avcodec_open2 L e c) < 0) ->
  avInFrame_ (this w) = None ->
  swsCtx_ (this w) = None ->
  avOutFrame_ (this w) = None ->
  coherent (this (snd (fst (configure message w)))).
Proof.
  intros Hopen Hi Hs Ho.
  assert (Hnone : forall c,
             coherent (with_members (this w) c (avInFrame_ (this w))
                                    (swsCtx_ (this w))
                                    (avOutFrame_ (this w)))).
  { intros c. unfold coherent. simpl. rewrite Hi, Hs, Ho.
    repeat split; discriminate. }
  unfold configure. cbv zeta.
  destruct (negb (pixel_format_ok L)); [apply Hnone|].
  pose proof (Hopen (encoder w)
                (configure_context message (context_ (this w)))) as Hinv.
  destruct (avcodec_open2 L (encoder w) _) as [e ret]. simpl in Hinv.
  destruct (Z.ltb_spec ret 0); [apply Hnone|].
  destruct (ff_set_dimensions_size
              (configure_context message (context_ (this w))))
    as [[Hv Hsame] | (Hv & _)]; [|specialize (Hinv Hv); lia].
  rewrite Hsame.
  pose proof (@valid_height _ _ Hv) as Hne.
  destruct (av_frame_alloc L e) as [e1 in_ok].
  destruct in_ok; cbn [negb].
  - destruct (sws_getContext L e1 _) as [e2 sws_ok].
    destruct (av_frame_alloc L e2) as [e3 out_ok].
    unfold coherent. cbn [this with_members context_ avInFrame_ swsCtx_
                           avOutFrame_].
    split; [|split].
    + intros i Hi'. injection Hi' as <-. repeat split. exact Hne.
    + intros s Hs'. destruct sws_ok; [|discriminate].
      injection Hs' as <-. repeat split. discriminate.
    + intros o Ho'. destruct out_ok; [|discriminate].
      injection Ho' as <-. repeat split. discriminate.
  - unfold coherent. cbn [this with_members context_ avInFrame_ swsCtx_
                           avOutFrame_].
    rewrite Hs, Ho. repeat split; discriminate.
Qed.

Lemma publish_coherent fuel message (w : World L) :
  (forall e c, av_image_check_size2 (width c) (height c) = false ->
               snd (avcodec_open2 L e c) < 0) ->
  coherent (this w) -> coherent (this (world (publish fuel message w))).
Proof.
  intros Hopen Hco. unfold publish.
  destruct (Z.eqb_spec (height (context_ (this w))) 0) as [Hz|Hnz].
  - assert (Hnone : avInFrame_ (this w) = None
                    /\ swsCtx_ (this w) = None
                    /\ avOutFrame_ (this w) = None).
    { destruct Hco as (Hin & Hsws & Hout).
      assert (Hi : avInFrame_ (this w) = None).
      { destruct (avInFrame_ (this w)) as [i|]; [|reflexivity].
        destruct (Hin i eq_refl) as [Hne _]. contradiction. }
      split; [exact Hi|]. split.
      - destruct (swsCtx_ (this w)) as [s|]; [|reflexivity].
        destruct (Hsws s eq_refl) as [Hne _]. contradiction.
      - destruct (avOutFrame_ (this w)) as [o|]; [|reflexivity].
        destruct (Hout o eq_refl) as [Hne _]. contradiction. }
    destruct Hnone as (Hi & Hs & Ho).
    pose proof (configure_coherent message w Hopen Hi Hs Ho) as Hcfg.
    destruct (configure message w) as [[go w1] cfg]. simpl in Hcfg.
    destruct go; cbn [world]; [now apply encode_coherent | exact Hcfg].
  - cbn [world]. now apply encode_coherent.
Qed.

End Geometry.

(** With a library whose [avcodec_open2] fails on a picture size that
    [av_image_check_size2] refuses, the working objects that exist agree
    with the context over any sequence of calls: an input frame exists
    only with the guard set and has the context's size, and a scaling
    context or an output frame exists only with an input frame and works
    on that size, from RGB24 to RGB0 and in YUV420P; later messages of
    another size change none of it.  The three need not exist together:
    on an allocator that returns no scaling context, the first call
    stores both frames and a null scaling context, and the process
    dies. *)
Theorem working_frames_agree_with_context :
  forall (L : Libav) (fuel : nat) (messages : list Msg.Image) (w : World L),
    (forall e c, av_image_check_size2 (width c) (height c) = false ->
                 snd (avcodec_open2 L e c) < 0) ->
    coherent (this w) ->
    coherent (this (world (publish_all fuel messages w)))
    /\ (let r := publish 2 (Sample.image 64 64)
                         (Corner.scarce_world [true; false; true]) in
        exit r = Faulted
        /\ avInFrame_ (this (world r)) <> None
        /\ swsCtx_ (this (world r)) = None
        /\ avOutFrame_ (this (world r)) <> None
        /\ published (events r) = []).
Proof.
  intros L fuel messages w Hopen Hco. split.
  - revert w Hco. induction messages as [|m rest IH]; intros w Hco; simpl.
    + exact Hco.
    + pose proof (publish_coherent fuel m w Hopen Hco) as Hco'.
      destruct (exit (publish fuel m w)); cbn [world]; auto.
  - vm_compute. repeat split; discriminate.
Qed.

(** ** The plugin interface, the constructor and the pixel test *)

Lemma substring_all (s : string) : substring 0 (String.length s) s = s.
Proof. induction s as [|c s IH]; simpl; [reflexivity | now rewrite IH]. Qed.

Lemma substring_after (s1 s2 : string) :
  substring (String.length s1) (String.length s2) (s1 ++ s2)%string = s2.
Proof.
  induction s1 as [|c s1 IH]; simpl; [apply substring_all | exact IH].
Qed.

Lemma length_append (s1 s2 : string) :
  String.length (s1 ++ s2)%string
  = (String.length s1 + String.length s2)%nat.
Proof. induction s1 as [|c s1 IH]; simpl; [reflexivity | now rewrite IH]. Qed.

Lemma substring_length (s : string) :
  forall n m, (n + m <= String.length s)%nat ->
              String.length (substring n m s) = m.
Proof.
  induction s as [|c s IH]; intros n m Hle; simpl in *.
  - destruct n, m; simpl; try reflexivity; lia.
  - destruct n as [|n].
    + destruct m as [|m]; simpl; [reflexivity|].
      rewrite IH by lia. reflexivity.
    + apply IH. lia.
Qed.

Lemma replace_length (old new : ascii) (s : string) :
  String.length (Text.replace old new s) = String.length s.
Proof. induction s as [|c s IH]; simpl; [reflexivity | now rewrite IH]. Qed.

Lemma replace_removes (old new : ascii) (s : string) :
  new <> old -> Text.occurs old (Text.replace old new s) = false.
Proof.
  intros Hne. induction s as [|c s IH]; simpl; [reflexivity|].
  rewrite IH, orb_false_r.
  destruct (Ascii.eqb_spec c old) as [_|Hc].
  - apply Ascii.eqb_neq. exact Hne.
  - apply Ascii.eqb_neq. exact Hc.
Qed.

(** The parameter base name [advertiseImpl] computes has no slash left
    and is as long as what the topic has beyond the length of the
    namespace; for a topic that starts with the namespace it is the rest
    of the topic with every slash turned into a dot. *)
Theorem param_base_name_has_no_slash :
  forall (ns base_topic s : string),
    param_base_name ns base_topic = Some s ->
    Text.occurs "/" s = false
    /\ Z.of_nat (String.length s)
       = Z.of_nat (String.length base_topic)
         - Z.of_nat (String.length ns) mod 2 ^ 32
    /\ (forall rest,
           Z.of_nat (String.length ns) < 2 ^ 32 ->
           base_topic = (ns ++ rest)%string ->
           s = Text.replace "/" "." rest).
Proof.
  intros ns base_topic s. unfold param_base_name, Text.substr.
  set (k := Z.to_nat (Z.of_nat (String.length ns) mod 2 ^ 32)).
  assert (Hk : Z.of_nat k = Z.of_nat (String.length ns) mod 2 ^ 32).
  { subst k. apply Z2Nat.id. apply Z.mod_pos_bound. lia. }
  destruct (Nat.leb_spec k (String.length base_topic)) as [Hle|Hgt];
    [|discriminate].
  simpl. intros H. inversion H as [Hs]. clear H. split; [|split].
  - apply replace_removes. discriminate.
  - rewrite replace_length, substring_length by lia. lia.
  - intros rest Hns ->. f_equal.
    assert (Hkn : k = String.length ns).
    { rewrite Z.mod_small in Hk by lia. lia. }
    rewrite Hkn, length_append.
    replace (String.length ns + String.length rest - String.length ns)%nat
      with (String.length rest) by lia.
    apply substring_after.
Qed.


(** [advertiseImpl] sets [node_] before anything else and leaves
    [parameters_] alone.  It ends normally exactly when the base class
    advertises without an exception and the namespace of the node, as a
    [uint], is no longer than the topic; otherwise an exception leaves
    it: the one of the base class, or [std::out_of_range] from
    [substr]. *)
Theorem advertise_throws_on_short_topic :
  forall (R : Rclcpp) (node : Node R) (base_topic : string) (o : Plugin R),
    let node1 := fst (base_advertiseImpl R node base_topic) in
    let returned := snd (base_advertiseImpl R node base_topic) in
    let ns_len :=
      Z.of_nat (String.length (get_effective_namespace R node1))
      mod 2 ^ 32 in
    node_ (snd (advertiseImpl node base_topic o)) = Some node1
    /\ parameters_ (snd (advertiseImpl node base_topic o)) = parameters_ o
    /\ fst (advertiseImpl node base_topic o) <> NullNode
    /\ (fst (advertiseImpl node base_topic o) = Normal
        <-> returned = true
            /\ ns_len <= Z.of_nat (String.length base_topic))
    /\ (fst (advertiseImpl node base_topic o) = Thrown
        <-> returned = false
            \/ Z.of_nat (String.length base_topic) < ns_len).
Proof.
  intros R node base_topic o. cbv zeta.
  unfold advertiseImpl, param_base_name, Text.substr.
  destruct (base_advertiseImpl R node base_topic) as [node1 returned].
  cbn [fst snd].
  set (ns := get_effective_namespace R node1).
  set (k := Z.to_nat (Z.of_nat (String.length ns) mod 2 ^ 32)).
  assert (Hk : Z.of_nat k = Z.of_nat (String.length ns) mod 2 ^ 32).
  { subst k. apply Z2Nat.id. apply Z.mod_pos_bound. lia. }
  rewrite <- Hk.
  destruct returned.
  - destruct (Nat.leb_spec k (String.length base_topic)) as [Hle|Hgt]; simpl.
    + split; [reflexivity|]. split; [reflexivity|].
      split; [discriminate|]. split.
      * split; [intros _; split; [reflexivity | lia] | reflexivity].
      * split; [discriminate | intros [Hc | Hc]; [discriminate | lia]].
    + split; [reflexivity|]. split; [reflexivity|].
      split; [discriminate|]. split.
      * split; [discriminate | intros [_ Hc]; lia].
      * split; [intros _; right; lia | reflexivity].
  - simpl. split; [reflexivity|]. split; [reflexivity|].
    split; [discriminate|]. split.
    + split; [discriminate | intros [Hc _]; discriminate].
    + split; [intros _; now left | reflexivity].
Qed.


(** [declareParameter] records the composed name, base name, ".h265."
    and the descriptor's name, at the end of [parameters_] before it
    turns to the node: the name is recorded however the call ends, also
    when the declaration throws or [node_] is null. *)
Theorem parameter_name_is_always_recorded :
  forall (R : Rclcpp) (base_name : string) (definition : ParameterDefinition R)
         (o : Plugin R),
    parameters_ (snd (declareParameter base_name definition o))
    = parameters_ o
        ++ [(base_name ++ ".h265."
               ++ descriptor_name R (descriptor definition))%string]
    /\ (fst (declareParameter base_name definition o) = NullNode
        <-> node_ o = None).
Proof.
  intros R base_name definition o. unfold declareParameter.
  assert (Hname : param_name base_name definition
                  = (base_name ++ ".h265."
                       ++ descriptor_name R (descriptor definition))%string)
    by reflexivity.
  rewrite Hname.
  destruct (node_ o) as [n|]; [|split; [reflexivity | split; reflexivity]].
  destruct (declare_parameter R n _ _ _) as [n1 declared].
  destruct declared as [v| |]; simpl.
  - split; [reflexivity | split; discriminate].
  - destruct (get_parameter R n1 _); simpl;
      (split; [reflexivity | split; discriminate]).
  - split; [reflexivity | split; discriminate].
Qed.

(** Declaring the same parameter a second time is absorbed: when the node
    answers the second declaration with [ParameterAlreadyDeclared] and
    still holds the parameter, both calls end normally and the node is
    the one the first call left, but the name is recorded twice. *)
Theorem declaring_twice_records_twice :
  forall (R : Rclcpp) (base_name : string) (definition : ParameterDefinition R)
         (o : Plugin R) (n n1 : Node R) (v v2 : ParameterValue R),
    node_ o = Some n ->
    declare_parameter R n (param_name base_name definition)
                      (defaultValue definition) (descriptor definition)
    = (n1, Value v) ->
    declare_parameter R n1 (param_name base_name definition)
                      (defaultValue definition) (descriptor definition)
    = (n1, ParameterAlreadyDeclared) ->
    get_parameter R n1 (param_name base_name definition) = Some v2 ->
    let first := declareParameter base_name definition o in
    let second := declareParameter base_name definition (snd first) in
    fst first = Normal
    /\ fst second = Normal
    /\ node_ (snd second) = Some n1
    /\ parameters_ (snd second)
       = parameters_ o
           ++ [param_name base_name definition;
               param_name base_name definition].
Proof.
  intros R base_name definition o n n1 v v2 Hn Hfirst Hsecond Hget.
  unfold declareParameter. rewrite Hn, Hfirst. cbn.
  rewrite Hsecond, Hget. cbn.
  repeat split. now rewrite <- app_assoc.
Qed.

(** When the encoder is found but no context can be allocated, the
    constructor only writes one line to [std::cerr] and returns; every
    later [publish] takes the lock and dereferences the null [context_]:
    nothing is sent, nothing is published and the lock is not released. *)
Theorem failed_allocation_faults_on_publish :
  forall (L : Libav) (C : Codecs L) (o : Constructed C) (codec : AVCodec C),
    avcodec_find_encoder C = Some codec ->
    avcodec_alloc_context3 C codec = None ->
    cerr (construct o)
    = cerr o ++ ["Can't allocate video codec context"%string]
    /\ codec_ (construct o) = Some codec
    /\ members (construct o) = members o
    /\ forall fuel message,
         publish_on fuel message (construct o)
         = (Faulted, construct o, [Lock]).
Proof.
  intros L C o codec Hfind Halloc.
  unfold publish_on, construct. rewrite Hfind, Halloc. cbn.
  repeat split.
Qed.

(** The test of lines 163-164, three whole bytes per pixel, passes for a
    descriptor of exactly 24 bits per pixel and no other: the division
    lets 24 to 31 through and the remainder keeps 24 of them. *)
Theorem only_24_bits_pass :
  forall (L : Libav),
    pixel_format_ok L = true
    <-> exists desc,
        av_pix_fmt_desc_get L AV_PIX_FMT_RGB24 = Some desc
        /\ av_get_bits_per_pixel L desc = 24.
Proof.
  intros L. unfold pixel_format_ok.
  destruct (av_pix_fmt_desc_get L AV_PIX_FMT_RGB24) as [desc|].
  - set (bits := av_get_bits_per_pixel L desc).
    split.
    + intros H. apply andb_prop in H. destruct H as [Hq Hr].
      apply Z.eqb_eq in Hq. apply Z.eqb_eq in Hr.
      exists desc. split; [reflexivity|].
      fold bits.
      pose proof (Z.quot_rem' bits 8) as Hqr. lia.
    + intros (d & Hd & Hb). inversion Hd. subst d.
      fold bits in Hb. rewrite Hb. reflexivity.
  - split; [discriminate|]. intros (d & Hd & _). discriminate.
Qed.

(** When the pixel format test fails, the first call returns before it
    reaches libavcodec: the encoder is not opened, no frame is allocated
    or sent, and the lock is released. *)
Theorem failed_pixel_test_leaves_encoder_alone :
  forall (L : Libav) (fuel : nat) (message : Msg.Image) (w : World L),
    height (context_ (this w)) = 0 ->
    pixel_format_ok L = false ->
    let r := publish fuel message w in
    exit r = Returned
    /\ events r = [Lock; Unlock]
    /\ encoder (world r) = encoder w
    /\ avInFrame_ (this (world r)) = avInFrame_ (this w)
    /\ avOutFrame_ (this (world r)) = avOutFrame_ (this w)
    /\ swsCtx_ (this (world r)) = swsCtx_ (this w)
    /\ frameCount_ (this (world r)) = frameCount_ (this w)
    /\ context_ (this (world r))
       = configure_context message (context_ (this w)).
Proof.
  intros L fuel message w Hh Hpf r. subst r.
  unfold publish, configure. rewrite Hh, Hpf. cbn.
  repeat split.
Qed.

(** A descriptor of 32 bits per pixel fails the test. *)
Lemma failed_pixel_test_leaves_encoder_alone_witness :
  let r := publish 2 (Sample.image 64 64) Deep.fresh_world in
  exit r = Returned
  /\ events r = [Lock; Unlock]
  /\ encoder (world r) = encoder Deep.fresh_world
  /\ avInFrame_ (this (world r)) = None
  /\ avOutFrame_ (this (world r)) = None
  /\ swsCtx_ (this (world r)) = None
  /\ frameCount_ (this (world r)) = 0
  /\ context_ (this (world r))
     = configure_context (Sample.image 64 64) default_context.
Proof.
  exact (@failed_pixel_test_leaves_encoder_alone
           Deep.libav 2%nat (Sample.image 64 64) Deep.fresh_world
           eq_refl eq_refl).
Defined.

(** ** Examples of the further properties *)

(** The envelope of [Sample.with_side_data]: 8 buffer bytes, 4 payload
    bytes and three side-data entries, 108 bytes written into a vector
    of 107. *)
Lemma envelope_fields_read_back_witness :
  exists env,
    Envelope.serialize Sample.memory Sample.with_side_data = Some env
    /\ let d := Envelope.compressed_data env in
       Readback.read_int 0 d = 8
       /\ Readback.field 4 8 d = Sample.storage
       /\ Readback.read_int 12 d = 4
       /\ Readback.read_int64 20 d = 0
       /\ Readback.read_int64 28 d = 0
       /\ Readback.read_int 36 d = 0
       /\ Readback.read_int 40 d = 1
       /\ Readback.read_int 44 d = 3
       /\ Readback.read_int64
            (Z.to_nat (envelope_length {| buffer_data := 4096;
                                          buffer_size := 8 |}
                                       Sample.with_side_data - 16)) d
          = 1.
Proof.
  assert (Hok : sizes_ok {| buffer_data := 4096; buffer_size := 8 |}
                         Sample.with_side_data)
    by sizes_by_evaluation.
  assert (Hfit : envelope_length {| buffer_data := 4096; buffer_size := 8 |}
                                 Sample.with_side_data
                 - 4 + side_data_elems Sample.with_side_data < 2 ^ 31)
    by (simpl; lia).
  assert (H64 : Int.is_int64 0) by (unfold Int.is_int64; lia).
  assert (H64' : Int.is_int64 1) by (unfold Int.is_int64; lia).
  assert (H32 : Int.is_int 0) by (unfold Int.is_int; lia).
  assert (H32' : Int.is_int 1) by (unfold Int.is_int; lia).
  exact (@envelope_fields_read_back
           Sample.memory {| buffer_data := 4096; buffer_size := 8 |}
           Sample.with_side_data eq_refl Hok Hfit H64 H64 H32 H32' H64').
Defined.

(** The envelope of [Sample.keyframe] has no side data, so its vector is
    four bytes short: those are the first four bytes of [pos]. *)
Lemma only_pos_is_cut_witness :
  exists env,
    Envelope.serialize Sample.memory Sample.keyframe = Some env
    /\ let d := Envelope.compressed_data env in
       let k := Z.to_nat (envelope_length {| buffer_data := 4096;
                                             buffer_size := 8 |}
                                          Sample.keyframe - 8) in
       firstn k d
       = firstn k (written Sample.memory
                           {| buffer_data := 4096; buffer_size := 8 |}
                           Sample.keyframe)
       /\ (side_data_elems Sample.keyframe < 4 ->
           skipn k d
           = firstn (Z.to_nat (4 + side_data_elems Sample.keyframe))
                    (Bytes.of_int64 (pos Sample.keyframe)))
       /\ (4 <= side_data_elems Sample.keyframe ->
           d = written Sample.memory
                       {| buffer_data := 4096; buffer_size := 8 |}
                       Sample.keyframe
                 ++ repeat x00
                      (Z.to_nat (side_data_elems Sample.keyframe - 4))
           /\ Readback.read_int64 k d = pos Sample.keyframe).
Proof.
  assert (Hok : sizes_ok {| buffer_data := 4096; buffer_size := 8 |}
                         Sample.keyframe)
    by sizes_by_evaluation.
  assert (Hfit : envelope_length {| buffer_data := 4096; buffer_size := 8 |}
                                 Sample.keyframe
                 - 4 + side_data_elems Sample.keyframe < 2 ^ 31)
    by (simpl; lia).
  assert (H64 : Int.is_int64 (-1)) by (unfold Int.is_int64; lia).
  exact (@only_pos_is_cut
           Sample.memory {| buffer_data := 4096; buffer_size := 8 |}
           Sample.keyframe eq_refl Hok Hfit H64).
Defined.

(** Three turns of fuel on the refusing encoder: four submissions, the
    one before the loop and three in it, and the call is still in the
    loop. *)
Lemma refused_frame_never_returns_witness :
  let r := publish 3 (Sample.image 64 64)
                   (Stalled.world_on Stalled.refusing Stalled.idle) in
  exit r = Spinning
  /\ published (events r) = []
  /\ received (events r) = []
  /\ ~ In Unlock (events r)
  /\ length (filter is_send (events r)) = 4%nat.
Proof.
  assert (Hc : configured
                 (this (Stalled.world_on Stalled.refusing Stalled.idle))).
  { unfold configured. vm_compute. repeat split; discriminate. }
  assert (Hs : forall e f,
             snd (avcodec_send_frame Stalled.refusing e f) <> 0).
  { intros e f. simpl. discriminate. }
  exact (@refused_frame_never_returns
           Stalled.refusing 3%nat (Sample.image 64 64)
           (Stalled.world_on Stalled.refusing Stalled.idle) Hc Hs).
Defined.



(** A first frame of 64 rows sets the guard to 64.  A first frame of
    2^31 + 64 rows leaves the guard unset when the pixel-format test
    passes, and sets it to a negative number when the test fails. *)
Lemma guard_follows_height_witness :
  height (context_ (this (world (publish 2 (Sample.image 64 64)
                                         Sample.idle_world))))
  = 64
  /\ height (context_ (this (world (publish 2 Corner.tall_image
                                            Sample.idle_world))))
     = 0
  /\ height (context_ (this (world (publish 2 Corner.tall_image
                                            Deep.fresh_world))))
     = 2 ^ 31 + 64 - 2 ^ 32.
Proof.
  assert (Hm : 0 <= Msg.height (Sample.image 64 64) < 2 ^ 32)
    by (simpl; lia).
  assert (Ht : 0 <= Msg.height Corner.tall_image < 2 ^ 32)
    by (simpl; lia).
  destruct (@guard_follows_height
              Sample.libav 2%nat (Sample.image 64 64) Sample.idle_world
              eq_refl Hm) as (Hkept & _).
  destruct (@guard_follows_height
              Sample.libav 2%nat Corner.tall_image Sample.idle_world
              eq_refl Ht) as (_ & Hzero & _).
  destruct (@guard_follows_height
              Deep.libav 2%nat Corner.tall_image Deep.fresh_world
              eq_refl Ht) as (Hwrap & _).
  split; [|split].
  - apply (Hkept (or_intror eq_refl)). simpl. lia.
  - apply (Hzero eq_refl eq_refl).
  - apply (Hwrap (or_introl eq_refl)). simpl. lia.
Defined.

(** Two frames on [Sample.busy_world]. *)
Lemma frame_index_stays_in_range_witness :
  paced (this (world (publish_all 4 [Sample.image 64 64; Sample.image 64 64]
                                  Sample.busy_world)))
  /\ (exit (publish 4 (Sample.image 64 64) Sample.busy_world) = Returned ->
      existsb is_send
              (events (publish 4 (Sample.image 64 64) Sample.busy_world))
      = true ->
      frameIdx (this (world (publish 4 (Sample.image 64 64)
                                     Sample.busy_world)))
      = Z.rem (frameIdx (this Sample.busy_world)) 30 + 1).
Proof.
  assert (Hp : paced (this Sample.busy_world)).
  { unfold paced. simpl. split; [lia | left; reflexivity]. }
  exact (@frame_index_stays_in_range
           Sample.libav 4%nat [Sample.image 64 64; Sample.image 64 64]
           (Sample.image 64 64) Sample.busy_world Hp).
Defined.

(** A frame of 64 x 64 followed by one of 32 x 48 on
    [Corner.strict_world]. *)
Lemma working_frames_agree_with_context_witness :
  coherent (this (world (publish_all 2 [Sample.image 64 64;
                                        Sample.image 32 48]
                                     Corner.strict_world)))
  /\ width (context_ (this (world (publish_all 2 [Sample.image 64 64;
                                                  Sample.image 32 48]
                                               Corner.strict_world))))
     = 64.
Proof.
  assert (Ho : forall (e : Enc Corner.strict) c,
             av_image_check_size2 (width c) (height c) = false ->
             snd (avcodec_open2 Corner.strict e c) < 0).
  { intros e c Hc. simpl. rewrite Hc. unfold Script.EINVAL. lia. }
  assert (Hc : coherent (this Corner.strict_world)).
  { unfold coherent. simpl. repeat split; discriminate. }
  split; [|reflexivity].
  exact (proj1 (@working_frames_agree_with_context
                  Corner.strict 2%nat
                  [Sample.image 64 64; Sample.image 32 48]
                  Corner.strict_world Ho Hc)).
Defined.

(** The topic "/robot/camera/image" of a node in the namespace
    "/robot". *)
Lemma param_base_name_has_no_slash_witness :
  Text.occurs "/" ".camera.image" = false
  /\ Z.of_nat (String.length ".camera.image")
     = Z.of_nat (String.length "/robot/camera/image")
       - Z.of_nat (String.length "/robot") mod 2 ^ 32
  /\ (forall rest,
         Z.of_nat (String.length "/robot") < 2 ^ 32 ->
         "/robot/camera/image"%string = ("/robot" ++ rest)%string ->
         ".camera.image"%string = Text.replace "/" "." rest).
Proof.
  exact (@param_base_name_has_no_slash
           "/robot" "/robot/camera/image" ".camera.image" eq_refl).
Defined.

(** Declaring "crf" twice on a node without parameters. *)
Lemma declaring_twice_records_twice_witness :
  let R := Registry.rclcpp "/robot" in
  let definition : ParameterDefinition R :=
    {| defaultValue := 35 : ParameterValue R;
       descriptor := "crf"%string : ParameterDescriptor R |} in
  let o : Plugin R :=
    {| node_ := Some ([] : Node R); parameters_ := [] |} in
  let first := declareParameter ".camera.image" definition o in
  let second := declareParameter ".camera.image" definition (snd first) in
  fst first = Normal
  /\ fst second = Normal
  /\ node_ (snd second)
     = Some ([(".camera.image.h265.crf"%string, 35)] : Node R)
  /\ parameters_ (snd second)
     = [".camera.image.h265.crf"%string; ".camera.image.h265.crf"%string].
Proof.
  exact (@declaring_twice_records_twice
           (Registry.rclcpp "/robot") ".camera.image"
           {| defaultValue := 35 : ParameterValue (Registry.rclcpp "/robot");
              descriptor := "crf"%string
                            : ParameterDescriptor (Registry.rclcpp "/robot") |}
           {| node_ := Some ([] : Node (Registry.rclcpp "/robot"));
              parameters_ := [] |}
           [] [(".camera.image.h265.crf"%string, 35)] 35 35
           eq_refl eq_refl eq_refl eq_refl).
Defined.

(** Construction on [Unallocated.codecs], then a frame. *)
Lemma failed_allocation_faults_on_publish_witness :
  cerr (construct Unallocated.object)
  = ["Can't allocate video codec context"%string]
  /\ codec_ (construct Unallocated.object) = Some tt
  /\ members (construct Unallocated.object) = Sample.fresh_world
  /\ forall fuel message,
       publish_on fuel message (construct Unallocated.object)
       = (Faulted, construct Unallocated.object, [Lock]).
Proof.
  exact (@failed_allocation_faults_on_publish
           Sample.libav Unallocated.codecs Unallocated.object tt
           eq_refl eq_refl).
Defined.
